(** * djsh: a shallow embedding of [djsh.c] and the properties of its
      read / parse / dispatch loop.

    The development follows the layout of the C file: the C library
    functions the shell relies on ([strtok], [atoi]), the operating-system
    oracle, the variables of [main], then [getCommandFromPath],
    [checkPath] and the body of the [while(1)] loop of [main], phase by
    phase.  The statements about the program come after the definitions.

    Modelling conventions.
    - A C string is a [string]; input lines contain no NUL character.
      Writing a NUL into a buffer is modelled by the truncated string.
    - Allocation is assumed to succeed.  Where the program writes more
      into a block than it asked for, the block is modelled with its size:
      the copy of a line into its history entry and the candidate
      [checkPath] builds.  A write past the bytes the allocator provides
      for a block ([malloc_usable_size], an answer of the oracle), a
      [free] of a string literal, and a read of the [next] field of the
      newest [HistEntry], which no statement assigns, are memory faults.
    - The C language gives a program no meaning from its first fault on.
      For the shell the faults are recorded, in order, in the [faults]
      field of the state, and the model goes on with the values the
      variables hold when the fault does no harm: a state stands for what
      the shell does only as long as its [faults] are empty.  For a child
      process a fault ends the description ([Undefined]).
    - The answers of the operating system and of the allocator are given
      by an oracle, fixed for the duration of a run.
    - What the program does to the outside world is recorded, in order, in
      the [trace] field of the state. *)

From Stdlib Require Import String Ascii List ZArith Bool Lia DecimalString.
Import ListNotations.
Open Scope string_scope.

(** ** Characters and strings of the C source *)

Definition TAB : ascii := "009"%char.
Definition LF : ascii := "010"%char.
Definition VT : ascii := "011"%char.
Definition FF : ascii := "012"%char.
Definition CR : ascii := "013"%char.

(** [const char* whiteSpace = " \t\n\r";] *)
Definition whiteSpace : string :=
  String " " (String TAB (String LF (String CR EmptyString))).

Definition newline : string := String LF EmptyString.
Definition crlf : string := String CR (String LF EmptyString).

(** [const char prompt[] = "djsh> ";] *)
Definition prompt : string := "djsh> ".

(** [#define MAX_ARGS 4] *)
Definition MAX_ARGS : nat := 4.

(** ** The C library: [strtok] *)

Fixpoint is_delim (delims : string) (c : ascii) : bool :=
  match delims with
  | EmptyString => false
  | String d ds => Ascii.eqb c d || is_delim ds c
  end.

(** The leading run of delimiters of [s], and what follows it. *)
Fixpoint span_delims (delims s : string) : string * string :=
  match s with
  | EmptyString => (EmptyString, EmptyString)
  | String c r =>
      if is_delim delims c
      then let (p, q) := span_delims delims r in (String c p, q)
      else (EmptyString, s)
  end.

(** The leading run of non-delimiters of [s], and what follows it
    (starting at the delimiter that ends the token, if any). *)
Fixpoint span_token (delims s : string) : string * string :=
  match s with
  | EmptyString => (EmptyString, EmptyString)
  | String c r =>
      if is_delim delims c
      then (EmptyString, s)
      else let (p, q) := span_token delims r in (String c p, q)
  end.

(** One call of [strtok] scanning from [s]: the token returned ([None] for
    [NULL]) and the position saved for the next [strtok(NULL, ...)].  The
    delimiter that ends the token is overwritten with NUL and the saved
    position is the character after it. *)
Definition strtok (delims s : string) : option string * string :=
  match snd (span_delims delims s) with
  | EmptyString => (None, EmptyString)
  | s1 =>
      let (tok, s2) := span_token delims s1 in
      (Some tok, match s2 with EmptyString => EmptyString | String _ r => r end)
  end.

(** The C string seen at the start of the buffer [s] once [strtok] has
    scanned it: everything up to the NUL written after the first token. *)
Definition buffer_after_strtok (delims s : string) : string :=
  let (pre, s1) := span_delims delims s in
  pre ++ fst (span_token delims s1).

(** All the tokens successive calls of [strtok] return, starting at [s]. *)
Fixpoint strtok_all_fuel (fuel : nat) (delims s : string) : list string :=
  match fuel with
  | O => []
  | S f =>
      match strtok delims s with
      | (None, _) => []
      | (Some t, r) => t :: strtok_all_fuel f delims r
      end
  end.

Definition strtok_all (delims s : string) : list string :=
  strtok_all_fuel (S (String.length s)) delims s.

(** ** The C library: [atoi]

    [atoi(s)] is [(int) strtol(s, NULL, 10)]: leading white space, an
    optional sign, then the longest run of decimal digits; no digits at
    all gives 0.  Values outside [long] saturate and the conversion to
    [int] keeps the low 32 bits. *)

Definition isspace (c : ascii) : bool :=
  Ascii.eqb c " " || Ascii.eqb c TAB || Ascii.eqb c LF ||
  Ascii.eqb c VT || Ascii.eqb c FF || Ascii.eqb c CR.

Definition digit_val (c : ascii) : option Z :=
  let n := nat_of_ascii c in
  if (48 <=? n)%nat && (n <=? 57)%nat then Some (Z.of_nat (n - 48)) else None.

Fixpoint skip_space (s : string) : string :=
  match s with
  | String c r => if isspace c then skip_space r else s
  | EmptyString => EmptyString
  end.

Fixpoint digits_value (acc : Z) (s : string) : Z :=
  match s with
  | String c r =>
      match digit_val c with
      | Some d => digits_value (acc * 10 + d)%Z r
      | None => acc
      end
  | EmptyString => acc
  end.

Definition LONG_MAX : Z := 9223372036854775807%Z.
Definition LONG_MIN : Z := (-9223372036854775808)%Z.

Definition strtol10 (s : string) : Z :=
  let v :=
    match skip_space s with
    | String "-"%char r => (- digits_value 0 r)%Z
    | String "+"%char r => digits_value 0 r
    | r => digits_value 0 r
    end in
  Z.max LONG_MIN (Z.min LONG_MAX v).

Definition to_int (z : Z) : Z :=
  ((z + 2147483648) mod 4294967296 - 2147483648)%Z.

Definition atoi (s : string) : Z := to_int (strtol10 s).

(** ** The operating system and the allocator

    The results of the system calls the shell makes, and the sizes of the
    blocks [malloc] hands out, are given by an oracle. *)

(** What a file descriptor refers to. *)
Inductive fd_target :=
| Terminal
| File (name : string).

Record os := {
  (* open(f, O_WRONLY | O_CREAT | O_TRUNC, 0666) >= 0 *)
  can_open : string -> bool;
  (* dup2(fd, STDOUT_FILENO) != -1, for fd referring to the given target *)
  dup2_ok : fd_target -> bool;
  (* access(p, X_OK) == 0 *)
  access_x : string -> bool;
  (* chdir(d) >= 0 *)
  chdir_ok : string -> bool;
  (* fork() >= 0 *)
  fork_ok : bool;
  (* execlp(file, ...) / execvp(file, ...) replaces the process image *)
  exec_ok : string -> bool;
  (* the bytes the block returned by malloc(n) can hold: n, or the few
     more the allocator rounds it up to *)
  malloc_usable_size : nat -> nat
}.

(** The blocks of the GNU allocator on a 64-bit machine: chunks of at
    least 32 bytes, a multiple of 16, of which 8 are the allocator's. *)
Definition glibc_usable_size (n : nat) : nat :=
  Nat.max 32 ((n + 23) / 16 * 16) - 8.

(** ** Memory faults *)

Inductive fault :=
| Heap_overflow (size written : nat)
    (* [written] bytes stored from the start of a block obtained by
       malloc(size), which cannot hold them *)
| Free_literal
    (* free() of a pointer to a string literal *)
| Unset_next.
    (* the [next] field of the newest HistEntry is read *)

(** [s] and its terminating NUL fit a block obtained by [malloc(size)]. *)
Definition fits (env : os) (size : nat) (s : string) : bool :=
  (String.length s + 1 <=? malloc_usable_size env size)%nat.

(** [strcpy] stores [s] and its terminating NUL at the start of a block
    obtained by [malloc(size)]. *)
Definition store_faults (env : os) (size : nat) (s : string) : list fault :=
  if fits env size s then []
  else [Heap_overflow size (String.length s + 1)].

(** ** Observable behaviour *)

(** What a call of [checkPath] comes to. *)
Inductive lookup :=
| Returns (cmdPath : string)
    (* the pointer returned, to the candidate or to the literal "0" *)
| Overflows (size written : nat).
    (* [written] bytes stored in [curPath], a block obtained by
       malloc(size) that cannot hold them *)

(** A string where a [lookup] is expected is the string returned. *)
Coercion Returns : string >-> lookup.

(** How a forked child ends. *)
Inductive child_end :=
| Runs (file : string) (argv : list string) (out : fd_target)
    (* the exec succeeded: the program runs with this argv and stdout *)
| Fails
    (* djsh_error(); exit(1); *)
| Undefined.
    (* checkPath wrote past the end of curPath *)

Record child := {
  (* what checkPath came to in the child *)
  c_cmdPath : lookup;
  (* the child's copy of the path string, after checkPath tokenized it *)
  c_path : option string;
  c_end : child_end
}.

Inductive event :=
| Write (to : fd_target) (s : string)   (* write(STDOUT_FILENO, s, strlen(s)) *)
| Error                                 (* djsh_error(): the message on stderr *)
| Open (f : string)                     (* the file was created / truncated *)
| Chdir (d : string)                    (* the working directory changed *)
| Fork (c : child).                     (* a child process was created *)

(** ** The history list

    [struct HistEntry { char* cmd; struct HistEntry* next; }].  The list
    is held from [head] to [tail]: [next] of an entry is the entry that
    follows it, and the [next] field of the last entry, the newest, holds
    whatever [malloc] returned, since only [tail->next = temp], on the
    line read after it, ever assigns it. *)

(** What [cmd] points to. *)
Inductive storage :=
| Literal                (* the string literal " \0" *)
| Malloc (size : nat).   (* a block obtained by malloc(size) *)

Record HistEntry := {
  cmd : string;          (* the text at [cmd] *)
  cmd_store : storage
}.

(** ** The variables of [main] *)

Inductive exec_type := ExecL | ExecV.   (* char execType: 'l' or 'v' *)

Record shell := {
  execType : exec_type;
  args : list (option string);     (* char* args[MAX_ARGS+2] *)
  redirect : bool;                 (* int redirect *)
  filename : option string;        (* char* filename *)
  output_fd : option fd_target;    (* what output_fd names; None for -1 *)
  temp_fd : option fd_target;      (* what temp_fd names; None before dup *)
  fd1 : fd_target;                 (* what STDOUT_FILENO refers to *)
  head : list HistEntry;           (* the entries from head to tail *)
  numHistory : Z;
  path : option string;            (* char* path; None for NULL *)
  saved : string;                  (* strtok's saved position *)
  trace : list event;
  faults : list fault              (* the memory faults so far *)
}.

(** The texts of the history, oldest first. *)
Definition hist (st : shell) : list string := map cmd (head st).

(** The state in which the loop is entered: the start-up message has
    been written and [execType] set from the command line. *)
Definition init (t : exec_type) : shell :=
  {| execType := t;
     args := repeat None (MAX_ARGS + 2);
     redirect := false;
     filename := None;
     output_fd := Some Terminal;
     temp_fd := None;
     fd1 := Terminal;
     head := [];
     numHistory := 0%Z;
     path := None;
     saved := EmptyString;
     trace := [];
     faults := [] |}.

Definition set_args (v : list (option string)) (st : shell) : shell :=
  {| execType := execType st; args := v; redirect := redirect st;
     filename := filename st; output_fd := output_fd st;
     temp_fd := temp_fd st; fd1 := fd1 st; head := head st;
     numHistory := numHistory st; path := path st; saved := saved st;
     trace := trace st; faults := faults st |}.

Definition set_redirect (v : bool) (st : shell) : shell :=
  {| execType := execType st; args := args st; redirect := v;
     filename := filename st; output_fd := output_fd st;
     temp_fd := temp_fd st; fd1 := fd1 st; head := head st;
     numHistory := numHistory st; path := path st; saved := saved st;
     trace := trace st; faults := faults st |}.

Definition set_filename (v : option string) (st : shell) : shell :=
  {| execType := execType st; args := args st; redirect := redirect st;
     filename := v; output_fd := output_fd st;
     temp_fd := temp_fd st; fd1 := fd1 st; head := head st;
     numHistory := numHistory st; path := path st; saved := saved st;
     trace := trace st; faults := faults st |}.

Definition set_output_fd (v : option fd_target) (st : shell) : shell :=
  {| execType := execType st; args := args st; redirect := redirect st;
     filename := filename st; output_fd := v;
     temp_fd := temp_fd st; fd1 := fd1 st; head := head st;
     numHistory := numHistory st; path := path st; saved := saved st;
     trace := trace st; faults := faults st |}.

Definition set_temp_fd (v : option fd_target) (st : shell) : shell :=
  {| execType := execType st; args := args st; redirect := redirect st;
     filename := filename st; output_fd := output_fd st;
     temp_fd := v; fd1 := fd1 st; head := head st;
     numHistory := numHistory st; path := path st; saved := saved st;
     trace := trace st; faults := faults st |}.

Definition set_fd1 (v : fd_target) (st : shell) : shell :=
  {| execType := execType st; args := args st; redirect := redirect st;
     filename := filename st; output_fd := output_fd st;
     temp_fd := temp_fd st; fd1 := v; head := head st;
     numHistory := numHistory st; path := path st; saved := saved st;
     trace := trace st; faults := faults st |}.

Definition set_head (v : list HistEntry) (st : shell) : shell :=
  {| execType := execType st; args := args st; redirect := redirect st;
     filename := filename st; output_fd := output_fd st;
     temp_fd := temp_fd st; fd1 := fd1 st; head := v;
     numHistory := numHistory st; path := path st; saved := saved st;
     trace := trace st; faults := faults st |}.

Definition set_numHistory (v : Z) (st : shell) : shell :=
  {| execType := execType st; args := args st; redirect := redirect st;
     filename := filename st; output_fd := output_fd st;
     temp_fd := temp_fd st; fd1 := fd1 st; head := head st;
     numHistory := v; path := path st; saved := saved st;
     trace := trace st; faults := faults st |}.

Definition set_path (v : option string) (st : shell) : shell :=
  {| execType := execType st; args := args st; redirect := redirect st;
     filename := filename st; output_fd := output_fd st;
     temp_fd := temp_fd st; fd1 := fd1 st; head := head st;
     numHistory := numHistory st; path := v; saved := saved st;
     trace := trace st; faults := faults st |}.

Definition set_saved (v : string) (st : shell) : shell :=
  {| execType := execType st; args := args st; redirect := redirect st;
     filename := filename st; output_fd := output_fd st;
     temp_fd := temp_fd st; fd1 := fd1 st; head := head st;
     numHistory := numHistory st; path := path st; saved := v;
     trace := trace st; faults := faults st |}.

Definition set_trace (v : list event) (st : shell) : shell :=
  {| execType := execType st; args := args st; redirect := redirect st;
     filename := filename st; output_fd := output_fd st;
     temp_fd := temp_fd st; fd1 := fd1 st; head := head st;
     numHistory := numHistory st; path := path st; saved := saved st;
     trace := v; faults := faults st |}.

Definition set_faults (v : list fault) (st : shell) : shell :=
  {| execType := execType st; args := args st; redirect := redirect st;
     filename := filename st; output_fd := output_fd st;
     temp_fd := temp_fd st; fd1 := fd1 st; head := head st;
     numHistory := numHistory st; path := path st; saved := saved st;
     trace := trace st; faults := v |}.

Definition emit (e : event) (st : shell) : shell :=
  set_trace (trace st ++ [e])%list st.

(** The faults [fs] occur, in this order. *)
Definition add_faults (fs : list fault) (st : shell) : shell :=
  set_faults (faults st ++ fs)%list st.

(** [write(STDOUT_FILENO, s, strlen(s))] *)
Definition write_stdout (s : string) (st : shell) : shell :=
  emit (Write (fd1 st) s) st.

(** [djsh_error()] *)
Definition djsh_error (st : shell) : shell := emit Error st.

(** [args[i]] and [args[i] = v] *)
Definition arg (i : nat) (st : shell) : option string := nth i (args st) None.

Fixpoint upd {A : Type} (i : nat) (v : A) (l : list A) {struct l} : list A :=
  match l, i with
  | [], _ => []
  | _ :: r, O => v :: r
  | x :: r, S j => x :: upd j v r
  end.

Definition set_arg (i : nat) (v : option string) (st : shell) : shell :=
  set_args (upd i v (args st)) st.

(** ** [getCommandFromPath] and [checkPath] *)

(** The first loop of [getCommandFromPath]: the index of the last slash,
    starting from [lastSlash] at index [i]. *)
Fixpoint last_slash (i lastSlash : Z) (s : string) : Z :=
  match s with
  | EmptyString => lastSlash
  | String c r =>
      last_slash (i + 1)%Z (if Ascii.eqb c "/" then i else lastSlash) r
  end.

Definition getCommandFromPath (cmdPath : string) : string :=
  let lastSlash := last_slash 0 (-1) cmdPath in
  let len := Z.of_nat (String.length cmdPath) in
  if (lastSlash >? -1)%Z then
    (* newLen = len - lastSlash characters from lastSlash + 1 on, the last
       of them the terminating NUL *)
    substring (Z.to_nat (lastSlash + 1)) (Z.to_nat (len - lastSlash - 1)) cmdPath
  else cmdPath.

(** [curPath[strlen(curPath)-1] != '/'] *)
Fixpoint last_is_slash (s : string) : bool :=
  match s with
  | EmptyString => false
  | String c EmptyString => Ascii.eqb c "/"
  | String _ r => last_is_slash r
  end.

(** Lines 377-385: the string [strcpy] and the two [strcat] put together
    from one directory of the path. *)
Definition candidate (cmd dir : string) : string :=
  (if last_is_slash dir then dir else dir ++ "/") ++ cmd.

(** Line 371: the size of the block [curPath] they put it in. *)
Definition curPath_size (dir : string) : nat := String.length dir + 1 + 1024.

(** The value [checkPath] returns when no candidate is executable. *)
Definition NOT_FOUND : string := "0".

(** The [while (nextToken != NULL)] loop of [checkPath]; [rest] is
    [strtok]'s saved position.  The candidate is built in a block of
    [curPath_size] bytes whatever the length of [cmd]. *)
Fixpoint checkPath_loop (env : os) (fuel : nat) (cmd : string)
    (nextToken : option string) (rest : string) : lookup :=
  match nextToken with
  | None => Returns NOT_FOUND
  | Some tok =>
      let curPath := candidate cmd tok in
      if fits env (curPath_size tok) curPath then
        if access_x env curPath then Returns curPath
        else
          match fuel with
          | O => Returns NOT_FOUND
          | S f =>
              let (t, r) := strtok ":" rest in
              checkPath_loop env f cmd t r
          end
      else Overflows (curPath_size tok) (String.length curPath + 1)
  end.

(** [checkPath(cmd, path)], called while [strtok]'s saved position is
    [sv]: [strtok(path, ":")] scans [path], or goes on from the saved
    position when [path] is [NULL]. *)
Definition checkPath (env : os) (cmd : string) (path : option string)
    (sv : string) : lookup :=
  let buf := match path with Some p => p | None => sv end in
  let (t, r) := strtok ":" buf in
  checkPath_loop env (String.length r) cmd t r.

(** ** The loop body of [main]: recording the line *)

Definition char_at (i : nat) (s : string) : option ascii := String.get i s.

(** Lines 116-120: the line terminator is overwritten with NUL. *)
Definition strip_line (raw : string) : string :=
  let nread := String.length raw in
  if match char_at (nread - 1) raw with Some c => Ascii.eqb c LF | None => false end
  then
    if (2 <=? nread)%nat &&
       match char_at (nread - 2) raw with Some c => Ascii.eqb c CR | None => false end
    then substring 0 (nread - 2) raw
    else substring 0 (nread - 1) raw
  else raw.

(** Lines 122-124: the test for a blank input, made on the line whose
    terminator has been overwritten. *)
Definition blank_input (raw : string) : bool :=
  let nread := String.length raw in
  let line := strip_line raw in
  (nread =? 0)%nat
  || ((nread =? 1)%nat && (line =? EmptyString))
  || (line =? crlf).

(** Line 129: [line[nread-1] == '\0'], which holds when the newline that
    ended the input has been overwritten. *)
Definition newline_overwritten (raw : string) : bool :=
  match char_at (String.length raw - 1) raw with
  | Some c => Ascii.eqb c LF
  | None => false
  end.

(** Lines 129-132: the size passed to [malloc] for the copy of a line
    that is not blank: [strlen(line)], or [strlen(line+1)] when the input
    did not end with a newline.  Neither counts the terminating NUL. *)
Definition copy_size (raw : string) : nat :=
  let line := strip_line raw in
  if newline_overwritten raw then String.length line
  else String.length line - 1.

(** Lines 122-140: the new entry.  For a blank input [tempCmd] ends up
    pointing to the string literal; otherwise to the copy of the line. *)
Definition new_entry (raw : string) : HistEntry :=
  if blank_input raw
  then {| cmd := " "; cmd_store := Literal |}
  else {| cmd := strip_line raw; cmd_store := Malloc (copy_size raw) |}.

(** Line 133: [strcpy(tempCmd, line)] into the block of the new entry,
    when its text is the copy of the line. *)
Definition copy_faults (env : os) (e : HistEntry) : list fault :=
  match cmd_store e with
  | Malloc size => store_faults env size (cmd e)
  | Literal => []
  end.

(** Lines 156-160, once the new entry is in the list: the entry at the
    head is unlinked and freed, its text first. *)
Definition evict (st : shell) : shell :=
  match head st with
  | [] => st
  | temp :: next =>
      (* head = head->next *)
      let st := match next with
                | [] => add_faults [Unset_next] st
                | _ :: _ => st
                end in
      (* free(temp->cmd) *)
      let st := match cmd_store temp with
                | Literal => add_faults [Free_literal] st
                | Malloc _ => st
                end in
      set_head next st
  end.

(** Lines 109-161: the line is copied into a new entry, which goes to the
    tail; with 50 entries counted already the head is dropped. *)
Definition record_history (env : os) (raw : string) (st : shell) : shell :=
  let temp := new_entry raw in
  let st := add_faults (copy_faults env temp) st in
  let st := set_head (head st ++ [temp])%list st in
  if (numHistory st <? 50)%Z
  then set_numHistory (numHistory st + 1)%Z st
  else evict st.

(** ** The loop body of [main]: parsing the arguments *)

(** Lines 178-193: the file after [>] is opened and swapped in as
    standard output.  With no token after [>] the file name is [NULL],
    which [open] refuses. *)
Definition open_redirect (env : os) (st : shell) : shell :=
  let (f, r) := strtok whiteSpace (saved st) in
  let st := set_filename f (set_saved r st) in
  match f with
  | Some name =>
      if can_open env name then
        let st := emit (Open name) (set_output_fd (Some (File name)) st) in
        let st := set_temp_fd (Some (fd1 st)) st in
        if dup2_ok env (File name)
        then set_redirect true (set_fd1 (File name) st)
        else djsh_error st
      else djsh_error (set_output_fd None st)
  | None => djsh_error (set_output_fd None st)
  end.

(** Lines 165-216: [n] iterations of the [for] loop from index [i] on;
    [line] is the buffer the first [strtok] call scans. *)
Fixpoint parse_from (env : os) (n i : nat) (line : string) (st : shell)
    : shell :=
  match n with
  | O => st
  | S n' =>
      let (nextToken, r) :=
        strtok whiteSpace (if (i =? 0)%nat then line else saved st) in
      let st := set_saved r st in
      match nextToken with
      | Some tok =>
          if tok =? ">" then
            let st := open_redirect env st in
            if (i <? MAX_ARGS)%nat
            then parse_from env n' (S i) line (set_arg i None st)
            else st
          else if (i <? MAX_ARGS)%nat
          then parse_from env n' (S i) line (set_arg i (Some tok) st)
          else parse_from env n' (S i) line st
      | None =>
          let st := set_arg i None st in
          if (i =? 0)%nat then djsh_error st
          else parse_from env n' (S i) line st
      end
  end.

Definition parse_args (env : os) (line : string) (st : shell) : shell :=
  parse_from env (MAX_ARGS + 2) 0 line st.

(** ** The loop body of [main]: the commands *)

(** Where control goes after the commands. *)
Inductive flow :=
| Through (st : shell)           (* on to the end of the loop body *)
| Skip (st : shell)              (* continue; *)
| Exit (code : Z) (st : shell).  (* exit(code) or return code *)

(** The elements of [args] up to the first [NULL]. *)
Fixpoint until_null (l : list (option string)) : list string :=
  match l with
  | Some a :: r => a :: until_null r
  | _ => []
  end.

(** [temp = temp->next], for [temp] that is not [NULL]: the entries from
    [temp] on are given, and at the newest entry the field read is the
    one that was never assigned. *)
Definition follow_next (temp : list HistEntry) (st : shell)
    : list HistEntry * shell :=
  match temp with
  | [] => ([], st)
  | [_] => ([], add_faults [Unset_next] st)
  | _ :: next => (next, st)
  end.

(** Lines 272-275: the loop that skips the unwanted entries. *)
Fixpoint skip_loop (fuel : nat) (i nh n : Z) (temp : list HistEntry)
    (st : shell) : list HistEntry * shell :=
  match fuel with
  | O => (temp, st)
  | S f =>
      if (i <? nh - n)%Z && (i <? nh)%Z
      then
        let (temp, st) := follow_next temp st in
        skip_loop f (i + 1)%Z nh n temp st
      else (temp, st)
  end.

(** Lines 279-284: every entry from [temp] on, then a newline; after the
    newest entry the loop reads its [next] field. *)
Fixpoint print_entries (temp : list HistEntry) (st : shell) : shell :=
  match temp with
  | [] => st
  | e :: next =>
      let st := write_stdout newline (write_stdout (cmd e) st) in
      match next with
      | [] => add_faults [Unset_next] st
      | _ :: _ => print_entries next st
      end
  end.

(** The argument vector the child hands to [execlp] or [execvp], with
    [args[0]] equal to [name]. *)
Definition exec_argv (st : shell) (name : string) : list string :=
  match execType st with
  | ExecL =>
      (* execlp(cmdPath, command, args[1], args[2], args[3], args[4], NULL) *)
      getCommandFromPath name
        :: until_null [arg 1 st; arg 2 st; arg 3 st; arg 4 st]
  | ExecV =>
      (* execvp(cmdPath, &args[0]) *)
      until_null (args st)
  end.

(** Lines 293-313: what the forked child does.  [checkPath] never
    returns a null pointer, so the test [cmdPath == 0] never holds and the
    child always goes on to [exec] with what [checkPath] returned. *)
Definition run_child (env : os) (st : shell) (name : string) : child :=
  let cmdPath := checkPath env name (path st) (saved st) in
  {| c_cmdPath := cmdPath;
     c_path := option_map (buffer_after_strtok ":") (path st);
     c_end := match cmdPath with
              | Returns p =>
                  if exec_ok env p
                  then Runs p (exec_argv st name) (fd1 st)
                  else Fails
              | Overflows _ _ => Undefined
              end |}.

(** Lines 223-318, entered with [args[0]] equal to [name]. *)
Definition dispatch (env : os) (name : string) (st : shell) : flow :=
  if name =? "exit" then
    match strtok whiteSpace (saved st) with
    | (Some _, r) => Through (djsh_error (set_saved r st))
    | (None, r) => Exit 0 (set_saved r st)
    end
  else if name =? "cd" then
    match arg 1 st, arg 2 st with
    | Some dir, None =>
        if chdir_ok env dir then Through (emit (Chdir dir) st)
        else Through (djsh_error st)
    | _, _ => Through (djsh_error st)
    end
  else if name =? "path" then
    match arg 1 st with
    | None =>
        let st := match path st with
                  | Some p => write_stdout p st
                  | None => st
                  end in
        Through (write_stdout newline st)
    | Some a => Through (set_path (Some a) st)
    end
  else if name =? "history" then
    match arg 1 st with
    | Some a =>
        let numEntriesToPrint := atoi a in
        if (numEntriesToPrint <? 0)%Z || (numEntriesToPrint >? 50)%Z
        then Skip (djsh_error st)
        else
          let skipped :=
            skip_loop (Z.to_nat (numHistory st)) 0 (numHistory st)
              numEntriesToPrint (head st) st in
          Through (print_entries (fst skipped) (snd skipped))
    | None => Through (print_entries (head st) st)
    end
  else
    if fork_ok env
    then Through (emit (Fork (run_child env st name)) st)
    else Exit 1 (djsh_error st).

(** Lines 320-326: standard output is put back. *)
Definition restore_stdout (env : os) (st : shell) : shell :=
  if redirect st then
    match temp_fd st with
    | Some t => if dup2_ok env t then set_fd1 t st else djsh_error st
    | None => djsh_error st
    end
  else st.

(** ** One iteration of [while(1)] and runs of the shell *)

Inductive outcome :=
| Next (st : shell)                (* back to the prompt *)
| Exited (code : Z) (st : shell).  (* the process ended *)

(** Lines 163-326, after the line has been recorded. *)
Definition execute (env : os) (line : string) (st : shell) : outcome :=
  let st := parse_args env line st in
  match arg 0 st with
  | None => Next st
  | Some name =>
      match dispatch env name st with
      | Through st' => Next (restore_stdout env st')
      | Skip st' => Next st'
      | Exit code st' => Exited code st'
      end
  end.

(** One iteration; [input] is [None] when [getline] returns -1. *)
Definition iteration (env : os) (input : option string) (st : shell)
    : outcome :=
  let st := write_stdout prompt st in
  match input with
  | None => Next st
  | Some raw => execute env (strip_line raw) (record_history env raw st)
  end.

(** The shell fed the given inputs, one per iteration, until it exits. *)
Fixpoint run (env : os) (inputs : list (option string)) (st : shell)
    : outcome :=
  match inputs with
  | [] => Next st
  | x :: rest =>
      match iteration env x st with
      | Next st' => run env rest st'
      | Exited code st' => Exited code st'
      end
  end.

Definition final (o : outcome) : shell :=
  match o with Next st => st | Exited _ st => st end.

(** An operating system in which every call succeeds and the only
    executable files are those listed, with the GNU allocator. *)
Definition friendly (executables : list string) : os :=
  {| can_open := fun _ => true;
     dup2_ok := fun _ => true;
     access_x := fun p => existsb (String.eqb p) executables;
     chdir_ok := fun _ => true;
     fork_ok := true;
     exec_ok := fun p => existsb (String.eqb p) executables;
     malloc_usable_size := glibc_usable_size |}.

Definition ln (s : string) : string := s ++ newline.

(** ** Vocabulary of the statements *)

(** The state a [flow] carries. *)
Definition flow_state (f : flow) : shell :=
  match f with Through st => st | Skip st => st | Exit _ st => st end.

(** The state in which the commands run, for a line read in state [st]. *)
Definition parsed (env : os) (raw : string) (st : shell) : shell :=
  parse_args env (strip_line raw)
    (record_history env raw (write_stdout prompt st)).

(** The buffer the next [strtok] call of the parsing loop scans. *)
Definition cursor (i : nat) (line : string) (st : shell) : string :=
  if (i =? 0)%nat then line else saved st.

(** The names the shell handles itself. *)
Definition builtin (name : string) : bool :=
  (name =? "exit") || (name =? "cd") || (name =? "path")
  || (name =? "history").

(** The last [n] elements of a list: what is left after skipping the
    first [length l - n], none when [n] exceeds the length. *)
Definition last_n {A : Type} (n : nat) (l : list A) : list A :=
  skipn (List.length l - n) l.

(** The entries [es] printed to [to], oldest first, one per line. *)
Definition printed (to : fd_target) (es : list string) : list event :=
  flat_map (fun e => [Write to e; Write to newline]) es.

(** The events of [evs'] that come after those of [evs]. *)
Definition events_since (evs evs' : list event) : list event :=
  skipn (List.length evs) evs'.

(** The decimal numeral of [n]. *)
Definition decimal (n : nat) : string :=
  NilEmpty.string_of_uint (Nat.to_uint n).

(** *** Invariants *)

(** The counter of the history agrees with the list, which holds at most
    50 entries. *)
Definition hist_ok (st : shell) : Prop :=
  numHistory st = Z.of_nat (List.length (hist st)) /\
  List.length (hist st) <= 50.

(** The argument array has its six slots, the last two of them [NULL]. *)
Definition args_ok (st : shell) : Prop :=
  List.length (args st) = 6 /\ arg 4 st = None /\ arg 5 st = None.

(** The history, the path and the invocation mode are the same in both
    states, and the argument array has the same size. *)
Definition frame (st st' : shell) : Prop :=
  execType st' = execType st /\ hist st' = hist st /\
  numHistory st' = numHistory st /\ path st' = path st /\
  List.length (args st') = List.length (args st).

(** The history list and the faults are the same in both states. *)
Definition same_memory (st st' : shell) : Prop :=
  head st' = head st /\ faults st' = faults st.

(** *** Memory *)

(** The text of the entry and its terminating NUL fit the block [cmd]
    points to. *)
Definition entry_fits (env : os) (e : HistEntry) : bool :=
  match cmd_store e with
  | Literal => true
  | Malloc size => fits env size (cmd e)
  end.

(** The next line read drops an entry whose text is the string literal. *)
Definition evicts_literal (st : shell) : bool :=
  (50 <=? numHistory st)%Z &&
  match head st with
  | {| cmd_store := Literal |} :: _ => true
  | _ => false
  end.

(** The candidate built from [dir] and its terminating NUL fit the block
    [curPath]. *)
Definition curPath_fits (env : os) (cmd dir : string) : bool :=
  fits env (curPath_size dir) (candidate cmd dir).

(** The allocator provides at least the bytes it is asked for. *)
Definition provides_request (env : os) : Prop :=
  forall n, n <= malloc_usable_size env n.

(** *** Output, errors and redirection *)

(** The error message came out, from the shell or from a child of it. *)
Definition error_reported (evs : list event) : Prop :=
  In Error evs \/ exists c, In (Fork c) evs /\ c_end c = Fails.

Definition no_process_created (evs : list event) : Prop :=
  forall c, ~ In (Fork c) evs.


(** *** Texts *)

(** No character of [s] is [c]. *)
Fixpoint no_char (c : ascii) (s : string) : bool :=
  match s with
  | EmptyString => true
  | String x r => negb (Ascii.eqb x c) && no_char c r
  end.

(** No character of [s] is a delimiter. *)
Fixpoint no_delim (delims s : string) : bool :=
  match s with
  | EmptyString => true
  | String x r => negb (is_delim delims x) && no_delim delims r
  end.

(** A word: not empty and free of delimiters. *)
Definition word (delims s : string) : Prop :=
  s <> EmptyString /\ no_delim delims s = true.

(** The last character of [s], if it has one. *)
Fixpoint last_char (s : string) : option ascii :=
  match s with
  | EmptyString => None
  | String c EmptyString => Some c
  | String _ r => last_char r
  end.

(** The words [ts] with one [sep] between neighbours. *)
Fixpoint join (sep : ascii) (ts : list string) : string :=
  match ts with
  | [] => EmptyString
  | [t] => t
  | t :: rest => t ++ String sep (join sep rest)
  end.

(** A text as it is typed on one line: it holds no newline and does not
    end with a carriage return. *)
Definition typed (s : string) : Prop :=
  no_char LF s = true /\ last_char s <> Some CR.

(** The history entry expected for the text [s] typed on a line of its
    own: the text itself, in a block the size of its length, and the
    string literal of one space for the empty text. *)
Definition entry_of (s : string) : HistEntry :=
  if s =? EmptyString
  then {| cmd := " "; cmd_store := Literal |}
  else {| cmd := s; cmd_store := Malloc (String.length s) |}.

(** The first token of a text. *)
Definition first_token (s : string) : option string :=
  hd_error (strtok_all whiteSpace s).

(** *** Three sentences of the specification, as they are stated *)

Fixpoint all_digits (s : string) : bool :=
  match s with
  | EmptyString => true
  | String c r =>
      match digit_val c with Some _ => all_digits r | None => false end
  end.

(** An optional sign followed by one or more decimal digits. *)
Definition is_integer (s : string) : bool :=
  match s with
  | String "-"%char r | String "+"%char r =>
      negb (r =? EmptyString) && all_digits r
  | _ => negb (s =? EmptyString) && all_digits s
  end.

(** [history a]: an integer in [0, 50] prints the last entries, anything
    else (out of range or not a number) reports the error and prints
    nothing. *)
Definition history_n_as_stated (env : os) (st : shell) (a : string) : Prop :=
  let s' := flow_state (dispatch env "history" st) in
  if is_integer a && (0 <=? atoi a)%Z && (atoi a <=? 50)%Z
  then trace s' =
       (trace st ++ printed (fd1 st) (last_n (Z.to_nat (atoi a)) (hist st)))%list
  else trace s' = (trace st ++ [Error])%list.

(** A command that is not found: the error is reported and no process is
    created. *)
Definition unresolved_as_stated (env : os) (st : shell) (name : string)
    : Prop :=
  builtin name = false ->
  checkPath env name (path st) (saved st) = NOT_FOUND ->
  let evs := events_since (trace st)
               (trace (flow_state (dispatch env name st))) in
  error_reported evs /\ no_process_created evs.

(** A line that is empty or only a line terminator: recorded as a single
    space, it gives no token, and the shell is back at the prompt having
    run no command; the only events are the prompt and the error the
    parsing loop reports for a line without tokens. *)
Definition empty_line_as_stated (env : os) (st : shell) (raw : string)
    : Prop :=
  strtok_all whiteSpace (strip_line raw) = [] /\
  exists s',
    iteration env (Some raw) st = Next s' /\
    hist s' = last_n 50 (hist st ++ [" "])%list /\
    incl (events_since (trace st) (trace s')) [Write (fd1 st) prompt; Error].

(** ** Path resolution as the specification words it

    The search path is a colon-separated list of directories; resolution
    goes through the entries in order and returns the first candidate that
    exists and is executable. *)

(** The pieces of [s] between occurrences of [sep]. *)
Fixpoint split_on (sep : ascii) (s : string) : list string :=
  match s with
  | EmptyString => [EmptyString]
  | String c r =>
      if Ascii.eqb c sep then EmptyString :: split_on sep r
      else
        match split_on sep r with
        | p :: ps => String c p :: ps
        | [] => [String c EmptyString]
        end
  end.

(** The entries of a search path: its non-empty colon-separated pieces. *)
Definition path_entries (p : string) : list string :=
  filter (fun e => negb (e =? EmptyString)) (split_on ":" p).

Definition ends_with_separator (entry : string) : bool :=
  match String.get (String.length entry - 1) entry with
  | Some c => Ascii.eqb c "/"
  | None => false
  end.

(** [entry + "/" + command], the separator only if [entry] lacks it. *)
Definition resolve_candidate (entry command : string) : string :=
  if ends_with_separator entry then entry ++ command
  else entry ++ "/" ++ command.

(** [resolve(command, searchPath)]; [None] is NotFound. *)
Fixpoint resolve (executable : string -> bool) (command : string)
    (searchPath : list string) : option string :=
  match searchPath with
  | [] => None
  | entry :: rest =>
      if executable (resolve_candidate entry command)
      then Some (resolve_candidate entry command)
      else resolve executable command rest
  end.

(** ** The start of [main] *)

Definition default_msg : string :=
  "**By default, execlp() will be used**" ++ newline.
Definition execlp_msg : string :=
  "**Based on your choice, execlp() will be used**" ++ newline.
Definition execvp_msg : string :=
  "**Based on your choice, execvp() will be used**" ++ newline.

(** Lines 84-96: the state in which the loop is entered when the shell is
    started with the argument vector [argv], the program name first. *)
Definition startup (argv : list string) : shell :=
  match argv with
  | _ :: a :: _ =>
      if a =? "-execlp"
      then write_stdout execlp_msg (init ExecL)
      else if a =? "-execvp"
      then write_stdout execvp_msg (init ExecV)
      else write_stdout default_msg (djsh_error (init ExecL))
  | _ => write_stdout default_msg (init ExecL)
  end.

(** ** Facts about [strtok] *)

Section Strtok.

Variable d : string.

Lemma span_delims_length (s p q : string) :
  span_delims d s = (p, q) ->
  String.length s = String.length p + String.length q.
Proof.
  revert p q; induction s as [|c r IH]; simpl; intros p q H.
  - inversion H; reflexivity.
  - destruct (is_delim d c).
    + destruct (span_delims d r) as [p' q'] eqn:E.
      inversion H; subst; simpl. now rewrite (IH _ _ eq_refl).
    + inversion H; subst; reflexivity.
Qed.

Lemma span_token_length (s p q : string) :
  span_token d s = (p, q) ->
  String.length s = String.length p + String.length q.
Proof.
  revert p q; induction s as [|c r IH]; simpl; intros p q H.
  - inversion H; reflexivity.
  - destruct (is_delim d c).
    + inversion H; subst; reflexivity.
    + destruct (span_token d r) as [p' q'] eqn:E.
      inversion H; subst; simpl. now rewrite (IH _ _ eq_refl).
Qed.

(** What [span_delims] leaves does not start with a delimiter. *)
Lemma span_delims_rest (s p : string) (c : ascii) (r : string) :
  span_delims d s = (p, String c r) -> is_delim d c = false.
Proof.
  revert p; induction s as [|a s' IH]; simpl; intros p H.
  - discriminate.
  - destruct (is_delim d a) eqn:Ea.
    + destruct (span_delims d s') as [p' q'] eqn:E.
      inversion H; subst. eapply IH; reflexivity.
    + inversion H; subst; assumption.
Qed.

(** The shape of a call that returns a token. *)
Lemma strtok_some_inv (s t r : string) :
  strtok d s = (Some t, r) ->
  exists p c q s2,
    span_delims d s = (p, String c q) /\ is_delim d c = false /\
    span_token d (String c q) = (t, s2) /\
    r = match s2 with EmptyString => EmptyString | String _ r' => r' end.
Proof.
  unfold strtok.
  destruct (span_delims d s) as [p q] eqn:E. cbn [snd].
  destruct q as [|c q']; [discriminate|].
  destruct (span_token d (String c q')) as [tok s2] eqn:Et.
  intros H; inversion H; subst; clear H.
  exists p, c, q', s2. repeat split; try assumption.
  eapply span_delims_rest; eassumption.
Qed.

(** A call that returns a token moves the saved position forward. *)
Lemma strtok_some_length (s t r : string) :
  strtok d s = (Some t, r) -> String.length r < String.length s.
Proof.
  intros H. destruct (strtok_some_inv _ _ _ H) as (p & c & q & s2 & E & Hc & Et & ->).
  pose proof (span_delims_length _ _ _ E) as Hl.
  pose proof (span_token_length _ _ _ Et) as Hl2.
  assert (t <> EmptyString) as Ht.
  { simpl in Et. rewrite Hc in Et. destruct (span_token d q).
    inversion Et; discriminate. }
  destruct t; [congruence|]. destruct s2; simpl in *; lia.
Qed.

(** The token returned is never empty. *)
Lemma strtok_some_nonempty (s t r : string) :
  strtok d s = (Some t, r) -> t <> EmptyString.
Proof.
  intros H. destruct (strtok_some_inv _ _ _ H) as (p & c & q & s2 & E & Hc & Et & ->).
  simpl in Et. rewrite Hc in Et. destruct (span_token d q).
  inversion Et; discriminate.
Qed.

(** After [NULL] has been returned, the saved position is the end of the
    buffer, and further calls return [NULL] again. *)
Lemma strtok_none (s r : string) :
  strtok d s = (None, r) -> r = EmptyString.
Proof.
  unfold strtok.
  destruct (snd (span_delims d s)); [|destruct (span_token d _)];
    intros H; inversion H; reflexivity.
Qed.


Lemma strtok_all_fuel_enough (f f' : nat) (s : string) :
  String.length s < f -> String.length s < f' ->
  strtok_all_fuel f d s = strtok_all_fuel f' d s.
Proof.
  revert f' s; induction f as [|f IH]; intros f' s Hf Hf'; [lia|].
  destruct f' as [|f']; [lia|]. simpl.
  destruct (strtok d s) as [[t|] r] eqn:E; [|reflexivity].
  pose proof (strtok_some_length _ _ _ E).
  f_equal. apply IH; lia.
Qed.

Lemma strtok_all_fuel_S (f : nat) (s : string) :
  strtok_all_fuel (S f) d s =
  match strtok d s with
  | (None, _) => []
  | (Some t, r) => t :: strtok_all_fuel f d r
  end.
Proof. reflexivity. Qed.

Lemma strtok_all_some (s t r : string) :
  strtok d s = (Some t, r) -> strtok_all d s = t :: strtok_all d r.
Proof.
  intros E. unfold strtok_all.
  pose proof (strtok_some_length _ _ _ E).
  rewrite (strtok_all_fuel_enough (S (String.length r)) (String.length s))
    by lia.
  rewrite strtok_all_fuel_S, E. reflexivity.
Qed.

Lemma strtok_all_none (s r : string) :
  strtok d s = (None, r) -> strtok_all d s = [].
Proof. intros E. unfold strtok_all. now rewrite strtok_all_fuel_S, E. Qed.

Lemma strtok_all_empty : strtok_all d EmptyString = [].
Proof. reflexivity. Qed.

Lemma strtok_all_cons_inv (s t : string) (ts : list string) :
  strtok_all d s = t :: ts ->
  exists r, strtok d s = (Some t, r) /\ strtok_all d r = ts.
Proof.
  destruct (strtok d s) as [[t'|] r] eqn:E.
  - rewrite (strtok_all_some _ _ _ E). intros H; inversion H; subst.
    now exists r.
  - rewrite (strtok_all_none _ _ E). discriminate.
Qed.

Lemma strtok_all_nil_inv (s : string) :
  strtok_all d s = [] -> strtok d s = (None, EmptyString).
Proof.
  destruct (strtok d s) as [[t'|] r] eqn:E.
  - rewrite (strtok_all_some _ _ _ E). discriminate.
  - now rewrite (strtok_none _ _ E).
Qed.

End Strtok.

(** ** Facts about the argument array *)

Lemma upd_length {A : Type} (i : nat) (v : A) (l : list A) :
  List.length (upd i v l) = List.length l.
Proof.
  revert i; induction l as [|x l IH]; intros [|i]; simpl; auto.
Qed.

Lemma nth_upd_same {A : Type} (i : nat) (v d : A) (l : list A) :
  i < List.length l -> nth i (upd i v l) d = v.
Proof.
  revert i; induction l as [|x l IH]; intros [|i]; simpl; intros H;
    try lia; auto. apply IH; lia.
Qed.

Lemma nth_upd_other {A : Type} (i j : nat) (v d : A) (l : list A) :
  i <> j -> nth j (upd i v l) d = nth j l d.
Proof.
  revert i j; induction l as [|x l IH]; intros [|i] [|j]; simpl; intros H;
    try congruence; auto.
Qed.

(** A list of six elements, spelled out. *)
Lemma six_slots {A : Type} (l : list A) (d : A) :
  List.length l = 6 ->
  l = [nth 0 l d; nth 1 l d; nth 2 l d; nth 3 l d; nth 4 l d; nth 5 l d].
Proof.
  do 6 (destruct l as [|? l]; [discriminate|]).
  destruct l; [reflexivity|discriminate].
Qed.

(** ** What parsing leaves alone *)

Lemma open_redirect_frame (env : os) (st : shell) :
  frame st (open_redirect env st).
Proof.
  unfold open_redirect, frame.
  destruct (strtok whiteSpace (saved st)) as [[f|] r]; simpl.
  - destruct (can_open env f); simpl; [destruct (dup2_ok env (File f))|];
      simpl; auto.
  - auto.
Qed.

Lemma frame_trans (a b c : shell) : frame a b -> frame b c -> frame a c.
Proof. unfold frame; intuition congruence. Qed.

Lemma set_arg_frame (i : nat) (v : option string) (st : shell) :
  frame st (set_arg i v st).
Proof. unfold frame; simpl. rewrite upd_length. auto. Qed.

Lemma parse_from_frame (env : os) (n i : nat) (line : string) (st : shell) :
  frame st (parse_from env n i line st).
Proof.
  revert i st; induction n as [|n IH]; intros i st; simpl.
  - unfold frame; auto.
  - destruct (strtok whiteSpace _) as [[tok|] r].
    + destruct (tok =? ">").
      * destruct (i <? MAX_ARGS)%nat.
        -- eapply frame_trans; [|apply IH].
           eapply frame_trans; [|apply set_arg_frame].
           eapply frame_trans; [|apply open_redirect_frame].
           unfold frame; auto.
        -- eapply frame_trans; [|apply open_redirect_frame].
           unfold frame; auto.
      * destruct (i <? MAX_ARGS)%nat; (eapply frame_trans; [|apply IH]).
        -- eapply frame_trans; [|apply set_arg_frame]. unfold frame; auto.
        -- unfold frame; auto.
    + destruct (i =? 0)%nat.
      * eapply frame_trans; [|unfold frame; simpl; eauto].
        eapply frame_trans; [|apply set_arg_frame]. unfold frame; auto.
        simpl. auto 6.
      * eapply frame_trans; [|apply IH].
        eapply frame_trans; [|apply set_arg_frame]. unfold frame; auto.
Qed.

(** ** Path resolution *)

Lemma is_delim_colon (c : ascii) : is_delim ":" c = Ascii.eqb c ":".
Proof. simpl. apply orb_false_r. Qed.

(** [strtok] skips a leading delimiter. *)
Lemma strtok_skip (d : string) (c : ascii) (r : string) :
  is_delim d c = true -> strtok d (String c r) = strtok d r.
Proof.
  intros H. unfold strtok. simpl. rewrite H.
  destruct (span_delims d r); reflexivity.
Qed.

Lemma strtok_all_skip (d : string) (c : ascii) (r : string) :
  is_delim d c = true -> strtok_all d (String c r) = strtok_all d r.
Proof.
  intros H. pose proof (strtok_skip d c r H) as E.
  destruct (strtok d r) as [[t|] q] eqn:Er.
  - now rewrite (strtok_all_some _ _ _ _ E), (strtok_all_some _ _ _ _ Er).
  - now rewrite (strtok_all_none _ _ _ E), (strtok_all_none _ _ _ Er).
Qed.

(** [strtok] on a buffer that starts inside a token. *)
Lemma strtok_token (d : string) (c : ascii) (r : string) :
  is_delim d c = false ->
  strtok d (String c r) =
  (Some (String c (fst (span_token d r))),
   match snd (span_token d r) with
   | EmptyString => EmptyString
   | String _ r' => r'
   end).
Proof.
  intros H. unfold strtok. cbn [span_delims]. rewrite H. cbn [snd].
  cbn [span_token]. rewrite H.
  destruct (span_token d r); reflexivity.
Qed.

(** The first piece of a colon-separated string is its leading token. *)
Lemma split_on_span (s : string) :
  split_on ":" s =
  fst (span_token ":" s)
    :: match snd (span_token ":" s) with
       | EmptyString => []
       | String _ r' => split_on ":" r'
       end.
Proof.
  induction s as [|c r IH]; [reflexivity|].
  cbn [split_on span_token]. rewrite is_delim_colon.
  destruct (Ascii.eqb c ":"); [reflexivity|].
  rewrite IH. destruct (span_token ":" r); reflexivity.
Qed.

Lemma span_token_snd_length (d s : string) :
  String.length (snd (span_token d s)) <= String.length s.
Proof.
  destruct (span_token d s) as [p q] eqn:E.
  pose proof (span_token_length _ _ _ _ E). simpl. lia.
Qed.

(** The tokens [strtok] finds in a path are its entries. *)
Lemma strtok_all_path_entries (p : string) :
  strtok_all ":" p = path_entries p.
Proof.
  remember (String.length p) as n eqn:Hn.
  assert (String.length p <= n) as Hle by lia. clear Hn.
  revert p Hle; induction n as [|n IH]; intros p Hle.
  - destruct p; [reflexivity|simpl in Hle; lia].
  - destruct p as [|c r]; [reflexivity|].
    simpl in Hle.
    destruct (Ascii.eqb c ":") eqn:Ec.
    + rewrite strtok_all_skip by (now rewrite is_delim_colon).
      unfold path_entries. cbn [split_on]. rewrite Ec. cbn [filter].
      simpl. apply IH; lia.
    + rewrite (strtok_all_some _ _ _ _ (strtok_token ":" c r
        ltac:(now rewrite is_delim_colon))).
      unfold path_entries. rewrite split_on_span.
      cbn [span_token]. rewrite is_delim_colon, Ec.
      pose proof (span_token_snd_length ":" r) as Hl.
      destruct (span_token ":" r) as [tok s2]. cbn [fst snd] in *.
      cbn [filter]. simpl (negb _).
      destruct s2 as [|c' r'].
      * reflexivity.
      * simpl in Hl. f_equal. exact (IH r' ltac:(lia)).
Qed.

Lemma last_is_slash_spec (dir : string) :
  last_is_slash dir = ends_with_separator dir.
Proof.
  unfold ends_with_separator.
  induction dir as [|c r IH]; [reflexivity|].
  destruct r as [|c' r']; [reflexivity|].
  change (last_is_slash (String c (String c' r')))
    with (last_is_slash (String c' r')).
  rewrite IH. simpl. now rewrite !Nat.sub_0_r.
Qed.

Lemma append_assoc (a b c : string) : (a ++ b) ++ c = a ++ b ++ c.
Proof. induction a as [|x a IH]; simpl; [reflexivity|now rewrite IH]. Qed.

Lemma candidate_spec (cmd dir : string) :
  candidate cmd dir = resolve_candidate dir cmd.
Proof.
  unfold candidate, resolve_candidate. rewrite last_is_slash_spec.
  destruct (ends_with_separator dir); [reflexivity|apply append_assoc].
Qed.

Lemma length_append (a b : string) :
  String.length (a ++ b) = String.length a + String.length b.
Proof. induction a as [|c r IH]; simpl; [reflexivity|now rewrite IH]. Qed.

Lemma candidate_length (cmd dir : string) :
  String.length (candidate cmd dir) =
  String.length dir + (if last_is_slash dir then 0 else 1) + String.length cmd.
Proof.
  unfold candidate. destruct (last_is_slash dir);
    rewrite ?length_append; simpl; lia.
Qed.

(** A command of fewer than 1024 characters fits whatever the directory,
    when the allocator provides what it is asked for. *)
Lemma short_command_fits (env : os) (cmd dir : string) :
  provides_request env -> String.length cmd < 1024 ->
  curPath_fits env cmd dir = true.
Proof.
  intros Hp Hc. unfold curPath_fits, fits. apply Nat.leb_le.
  pose proof (Hp (curPath_size dir)) as H. unfold curPath_size in *.
  rewrite candidate_length. destruct (last_is_slash dir); lia.
Qed.

Lemma checkPath_loop_S (env : os) (fuel : nat) (cmd tok rest : string) :
  checkPath_loop env (S fuel) cmd (Some tok) rest =
  if curPath_fits env cmd tok then
    if access_x env (candidate cmd tok) then Returns (candidate cmd tok)
    else let (t, r) := strtok ":" rest in checkPath_loop env fuel cmd t r
  else Overflows (curPath_size tok) (String.length (candidate cmd tok) + 1).
Proof. reflexivity. Qed.

Lemma checkPath_loop_O (env : os) (cmd tok rest : string) :
  checkPath_loop env 0 cmd (Some tok) rest =
  if curPath_fits env cmd tok then
    if access_x env (candidate cmd tok) then Returns (candidate cmd tok)
    else Returns NOT_FOUND
  else Overflows (curPath_size tok) (String.length (candidate cmd tok) + 1).
Proof. reflexivity. Qed.

Lemma checkPath_loop_None (env : os) (fuel : nat) (cmd rest : string) :
  checkPath_loop env fuel cmd None rest = Returns NOT_FOUND.
Proof. now destruct fuel. Qed.

(** With fuel for every remaining character, and every candidate fitting
    its block, the loop of [checkPath] is the search for the first
    executable candidate. *)
Lemma checkPath_loop_resolve (env : os) (cmd : string) (fuel : nat)
    (tok r : string) :
  String.length r <= fuel ->
  (forall dir, In dir (tok :: strtok_all ":" r) ->
               curPath_fits env cmd dir = true) ->
  checkPath_loop env fuel cmd (Some tok) r =
  Returns match resolve (access_x env) cmd (tok :: strtok_all ":" r) with
          | Some c => c
          | None => NOT_FOUND
          end.
Proof.
  revert tok r; induction fuel as [|fuel IH]; intros tok r Hr Hfit;
    [rewrite checkPath_loop_O|rewrite checkPath_loop_S];
    rewrite (Hfit tok) by (now left); cbn [resolve];
    rewrite <- candidate_spec;
    destruct (access_x env (candidate cmd tok)); try reflexivity.
  - destruct r; [reflexivity|simpl in Hr; lia].
  - destruct (strtok ":" r) as [[t'|] r'] eqn:E.
    + rewrite (strtok_all_some _ _ _ _ E) in *.
      rewrite IH; [reflexivity| |].
      * pose proof (strtok_some_length _ _ _ _ E); lia.
      * intros dir Hin. apply Hfit. now right.
    + rewrite (strtok_all_none _ _ _ E). now rewrite checkPath_loop_None.
Qed.

(** The loop stops at the first candidate that does not fit its block,
    when none before it is executable. *)
Lemma checkPath_loop_overflow (env : os) (cmd : string)
    (pre : list string) (dir : string) (post : list string) (fuel : nat)
    (tok r : string) :
  String.length r <= fuel ->
  tok :: strtok_all ":" r = (pre ++ dir :: post)%list ->
  (forall x, In x pre ->
     curPath_fits env cmd x = true /\
     access_x env (candidate cmd x) = false) ->
  curPath_fits env cmd dir = false ->
  checkPath_loop env fuel cmd (Some tok) r =
  Overflows (curPath_size dir) (String.length (candidate cmd dir) + 1).
Proof.
  revert fuel tok r; induction pre as [|x pre IH];
    intros fuel tok r Hr Htok Hpre Hdir.
  - cbn [app] in Htok. inversion Htok; subst.
    destruct fuel; [rewrite checkPath_loop_O|rewrite checkPath_loop_S];
      now rewrite Hdir.
  - cbn [app] in Htok. inversion Htok as [[Hx Hrest]]. subst x.
    destruct (Hpre tok (or_introl eq_refl)) as [Hf Ha].
    destruct (strtok_all_cons_inv ":" r
                (hd dir pre) (tl (pre ++ dir :: post))) as (r' & E & Er).
    { rewrite Hrest. now destruct pre. }
    pose proof (strtok_some_length _ _ _ _ E) as Hlen.
    destruct fuel as [|fuel]; [lia|].
    rewrite checkPath_loop_S, Hf, Ha, E.
    apply IH; [lia| |intros y Hy; apply Hpre; now right|exact Hdir].
    rewrite Er. now destruct pre.
Qed.

Lemma checkPath_resolve (env : os) (cmd buf : string) :
  (forall dir, In dir (strtok_all ":" buf) ->
               curPath_fits env cmd dir = true) ->
  (let (t, r) := strtok ":" buf in
   checkPath_loop env (String.length r) cmd t r) =
  Returns match resolve (access_x env) cmd (strtok_all ":" buf) with
          | Some c => c
          | None => NOT_FOUND
          end.
Proof.
  intros Hfit. destruct (strtok ":" buf) as [[t|] r] eqn:E.
  - rewrite (strtok_all_some _ _ _ _ E) in *.
    now rewrite checkPath_loop_resolve by (auto; lia).
  - rewrite (strtok_all_none _ _ _ E). now rewrite checkPath_loop_None.
Qed.

Lemma checkPath_overflow (env : os) (cmd buf : string)
    (pre : list string) (dir : string) (post : list string) :
  strtok_all ":" buf = (pre ++ dir :: post)%list ->
  (forall x, In x pre ->
     curPath_fits env cmd x = true /\
     access_x env (candidate cmd x) = false) ->
  curPath_fits env cmd dir = false ->
  (let (t, r) := strtok ":" buf in
   checkPath_loop env (String.length r) cmd t r) =
  Overflows (curPath_size dir) (String.length (candidate cmd dir) + 1).
Proof.
  intros Htok Hpre Hdir.
  destruct (strtok_all_cons_inv ":" buf
              (hd dir pre) (tl (pre ++ dir :: post))) as (r & E & Er).
  { rewrite Htok. now destruct pre. }
  rewrite E. apply (checkPath_loop_overflow env cmd pre dir post);
    try assumption; [lia|].
  rewrite Er. now destruct pre.
Qed.

(** C7 (what the code does).  [checkPath] goes through the entries of
    the search path in order, forms for each the entry, a slash unless the
    entry ends with one, and the command, in a block of the length of the
    entry plus 1025 bytes, and returns the first candidate that [access]
    reports executable.  While every candidate fits its block this is the
    specification's [resolve] on the colon-separated entries, the string
    [NOT_FOUND] standing for NotFound; at the first candidate that does
    not fit, none before it being executable, the candidate is written
    past the end of the block and nothing is returned.  A command of fewer
    than 1024 characters always fits; one of 1024 or more is longer than
    what was asked for as soon as the entry does not end with a slash. *)
Theorem checkPath_first_match (env : os) (cmd p sv : string) :
  let dirs := path_entries p in
  ((forall dir, In dir dirs -> curPath_fits env cmd dir = true) ->
   checkPath env cmd (Some p) sv =
   match resolve (access_x env) cmd dirs with
   | Some c => c
   | None => NOT_FOUND
   end) /\
  (forall pre dir post,
     dirs = (pre ++ dir :: post)%list ->
     (forall x, In x pre ->
        curPath_fits env cmd x = true /\
        access_x env (candidate cmd x) = false) ->
     curPath_fits env cmd dir = false ->
     checkPath env cmd (Some p) sv =
     Overflows (curPath_size dir) (String.length (candidate cmd dir) + 1)) /\
  (provides_request env -> String.length cmd < 1024 ->
   forall dir, curPath_fits env cmd dir = true) /\
  (1024 <= String.length cmd ->
   forall dir, last_is_slash dir = false ->
     curPath_size dir < String.length (candidate cmd dir) + 1).
Proof.
  cbv zeta. rewrite <- strtok_all_path_entries. unfold checkPath.
  split; [|split; [|split]].
  - intros Hfit. rewrite checkPath_resolve by exact Hfit.
    now destruct (resolve (access_x env) cmd (strtok_all ":" p)).
  - intros pre dir post Htok Hpre Hdir.
    now apply (checkPath_overflow env cmd p pre dir post).
  - intros Hp Hc dir. now apply short_command_fits.
  - intros Hc dir Hs. rewrite candidate_length, Hs.
    unfold curPath_size. lia.
Qed.

Lemma checkPath_first_match_witness :
  checkPath (friendly [])
    (string_of_list_ascii (repeat "a"%char 1100)) (Some "/bin") EmptyString
  = Overflows 1029 1106.
Proof.
  refine (proj1 (proj2 (checkPath_first_match (friendly []) _ "/bin"
                          EmptyString)) [] "/bin" [] _ _ _).
  - vm_compute; reflexivity.
  - intros x [].
  - vm_compute; reflexivity.
Defined.

(** First match wins: entries before the first executable candidate do
    not matter, whether or not they exist. *)
Lemma resolve_first_match (exe : string -> bool) (cmd : string)
    (pre : list string) (e : string) (post : list string) :
  (forall x, In x pre -> exe (resolve_candidate x cmd) = false) ->
  exe (resolve_candidate e cmd) = true ->
  resolve exe cmd (pre ++ e :: post) = Some (resolve_candidate e cmd).
Proof.
  intros Hpre He. induction pre as [|x pre IH]; simpl.
  - now rewrite He.
  - rewrite (Hpre x) by now left. apply IH. intros y Hy. apply Hpre.
    now right.
Qed.

(** The specification's example: [ls] is executable only under [/bin]. *)
Example checkPath_usr_bin_bin :
  checkPath (friendly ["/bin/ls"]) "ls" (Some "/usr/bin:/bin") EmptyString
  = "/bin/ls".
Proof. reflexivity. Qed.

(** With the GNU allocator and the path [/bin], a name of 1026
    characters still fits the block of 1029 bytes asked for, which holds
    1032, and a name of 1027 characters does not. *)
Example checkPath_long_names :
  checkPath (friendly [])
    (string_of_list_ascii (repeat "a"%char 1026)) (Some "/bin") EmptyString
  = NOT_FOUND /\
  checkPath (friendly [])
    (string_of_list_ascii (repeat "a"%char 1027)) (Some "/bin") EmptyString
  = Overflows 1029 1033.
Proof. split; vm_compute; reflexivity. Qed.

(** ** The history log *)

Lemma set_trace_same (st : shell) : set_trace (trace st) st = st.
Proof. now destruct st. Qed.

Lemma add_faults_nil (st : shell) : add_faults [] st = st.
Proof. destruct st. unfold add_faults; simpl. now rewrite app_nil_r. Qed.

Lemma add_faults_app (fs gs : list fault) (st : shell) :
  add_faults gs (add_faults fs st) = add_faults (fs ++ gs)%list st.
Proof. unfold add_faults; simpl. now rewrite app_assoc. Qed.

Lemma set_trace_add_faults (tr : list event) (fs : list fault) (st : shell) :
  set_trace tr (add_faults fs st) = add_faults fs (set_trace tr st).
Proof. reflexivity. Qed.

(** Printing writes each entry and a newline to standard output and,
    after the newest entry, reads its [next] field. *)
Lemma print_entries_eq (es : list HistEntry) (st : shell) :
  print_entries es st =
  add_faults match es with [] => [] | _ :: _ => [Unset_next] end
    (set_trace (trace st ++ printed (fd1 st) (map cmd es)) st).
Proof.
  revert st; induction es as [|e es IH]; intros st.
  - cbn. now rewrite app_nil_r, set_trace_same, add_faults_nil.
  - cbn [print_entries]. destruct es as [|e' es'].
    + unfold write_stdout, emit, add_faults, set_faults, set_trace; simpl.
      now rewrite <- app_assoc.
    + rewrite IH.
      unfold write_stdout, emit, add_faults, set_faults, set_trace; simpl.
      now rewrite <- !app_assoc.
Qed.

(** The skipping loop only reads. *)
Lemma follow_next_state (temp : list HistEntry) (st : shell) :
  exists fs, snd (follow_next temp st) = add_faults fs st.
Proof.
  destruct temp as [|e [|e' r]]; cbn.
  - exists []. now rewrite add_faults_nil.
  - now exists [Unset_next].
  - exists []. now rewrite add_faults_nil.
Qed.

Lemma skip_loop_state (fuel : nat) (i nh n : Z) (temp : list HistEntry)
    (st : shell) :
  exists fs, snd (skip_loop fuel i nh n temp st) = add_faults fs st.
Proof.
  revert i temp st; induction fuel as [|fuel IH]; intros i temp st;
    cbn [skip_loop].
  - exists []. now rewrite add_faults_nil.
  - destruct ((i <? nh - n)%Z && (i <? nh)%Z).
    + destruct (follow_next_state temp st) as [fs Hfs].
      destruct (follow_next temp st) as [temp' st']. cbn [snd] in Hfs.
      subst st'. destruct (IH (i + 1)%Z temp' (add_faults fs st)) as [gs Hgs].
      exists (fs ++ gs)%list. now rewrite Hgs, add_faults_app.
    + exists []. now rewrite add_faults_nil.
Qed.

(** The skipping loop goes [min (nh - n) nh - i] entries forward; when
    that takes it past the newest entry it has read the [next] field of
    that entry. *)
Lemma skip_loop_steps (fuel : nat) (i nh n : Z) (temp : list HistEntry)
    (st : shell) :
  let k := Z.to_nat (Z.min (nh - n) nh - i) in
  k <= fuel ->
  skip_loop fuel i nh n temp st =
  (skipn k temp,
   add_faults (if (0 <? List.length temp)%nat && (List.length temp <=? k)%nat
               then [Unset_next] else []) st).
Proof.
  cbv zeta.
  revert i temp st; induction fuel as [|fuel IH]; intros i temp st Hf;
    cbn [skip_loop].
  - replace (Z.to_nat _) with 0 by lia. cbn [skipn].
    replace (List.length temp <=? 0)%nat with (negb (0 <? List.length temp)%nat)
      by (destruct temp; reflexivity).
    now rewrite andb_negb_r, add_faults_nil.
  - destruct ((i <? nh - n)%Z && (i <? nh)%Z) eqn:E.
    + apply andb_true_iff in E as [E1 E2].
      apply Z.ltb_lt in E1, E2.
      replace (Z.to_nat (Z.min (nh - n) nh - i))
        with (S (Z.to_nat (Z.min (nh - n) nh - (i + 1)))) in * by lia.
      set (k := Z.to_nat (Z.min (nh - n) nh - (i + 1))) in *.
      destruct temp as [|e [|e' r]]; cbn [follow_next];
        rewrite IH by lia; fold k; cbn [skipn];
        rewrite ?skipn_nil, ?add_faults_app; reflexivity.
    + apply andb_false_iff in E.
      replace (Z.to_nat _) with 0
        by (destruct E as [E|E]; apply Z.ltb_ge in E; lia).
      cbn [skipn].
      replace (List.length temp <=? 0)%nat
        with (negb (0 <? List.length temp)%nat)
        by (destruct temp; reflexivity).
      now rewrite andb_negb_r, add_faults_nil.
Qed.

Lemma last_n_length {A : Type} (n : nat) (l : list A) :
  List.length (last_n n l) = Nat.min n (List.length l).
Proof. unfold last_n. rewrite length_skipn. lia. Qed.

Lemma last_n_all {A : Type} (n : nat) (l : list A) :
  List.length l <= n -> last_n n l = l.
Proof.
  intros H. unfold last_n. now replace (List.length l - n) with 0 by lia.
Qed.

Lemma last_n_app_drop {A : Type} (n : nat) (p q : list A) :
  n <= List.length q -> last_n n (p ++ q) = last_n n q.
Proof.
  intros H. unfold last_n. rewrite length_app, skipn_app.
  rewrite skipn_all2 by lia. simpl. f_equal. lia.
Qed.

Lemma last_n_last_n_app {A : Type} (n : nat) (a b : list A) :
  last_n n (last_n n a ++ b) = last_n n (a ++ b).
Proof.
  destruct (Nat.le_gt_cases (List.length a) n) as [H|H].
  - now rewrite (last_n_all n a).
  - rewrite <- (firstn_skipn (List.length a - n) a) at 2.
    rewrite <- app_assoc. symmetry. apply last_n_app_drop.
    unfold last_n at 1. rewrite length_app, length_skipn. lia.
Qed.

Lemma map_last_n {A B : Type} (f : A -> B) (n : nat) (l : list A) :
  map f (last_n n l) = last_n n (map f l).
Proof. unfold last_n. now rewrite skipn_map, length_map. Qed.

(** Recording leaves everything but the history and the faults alone. *)
Lemma record_history_keeps (env : os) (raw : string) (st : shell) :
  let s := record_history env raw st in
  trace s = trace st /\ fd1 s = fd1 st /\ redirect s = redirect st /\
  temp_fd s = temp_fd st /\ path s = path st /\ execType s = execType st /\
  args s = args st /\ saved s = saved st.
Proof.
  unfold record_history, evict. cbv zeta.
  cbn [numHistory head set_head add_faults set_faults].
  destruct (numHistory st <? 50)%Z; [repeat split|].
  destruct (head st ++ [new_entry raw])%list as [|temp [|e next]];
    [repeat split| |];
    destruct (cmd_store temp); repeat split.
Qed.

Lemma record_history_fields (env : os) (raw : string) (st : shell) :
  let s := record_history env raw (write_stdout prompt st) in
  trace s = (trace st ++ [Write (fd1 st) prompt])%list /\
  fd1 s = fd1 st /\ redirect s = redirect st /\ temp_fd s = temp_fd st /\
  path s = path st /\ execType s = execType st /\ args s = args st.
Proof.
  destruct (record_history_keeps env raw (write_stdout prompt st))
    as (H1 & H2 & H3 & H4 & H5 & H6 & H7 & _).
  cbv zeta. rewrite H1, H2, H3, H4, H5, H6, H7. repeat split.
Qed.

(** Recording keeps the log within bounds: the new entry at the tail, the
    oldest dropped when 50 were there. *)
Lemma record_history_ok (env : os) (raw : string) (st : shell) :
  hist_ok st ->
  hist_ok (record_history env raw st) /\
  head (record_history env raw st) =
  last_n 50 (head st ++ [new_entry raw])%list.
Proof.
  intros [Hn Hl]. unfold hist_ok, hist in *. rewrite length_map in *.
  unfold record_history, evict. cbv zeta.
  cbn [numHistory head set_head add_faults set_faults].
  destruct (numHistory st <? 50)%Z eqn:E.
  - apply Z.ltb_lt in E. cbn [numHistory head set_head set_numHistory].
    rewrite length_app; simpl.
    rewrite last_n_all by (rewrite length_app; simpl; lia).
    repeat split; lia.
  - apply Z.ltb_ge in E.
    assert (List.length (head st) = 50) as H50 by lia.
    destruct (head st) as [|h l] eqn:Eh; [discriminate|].
    cbn [app]. destruct (l ++ [new_entry raw])%list as [|e next] eqn:El.
    { destruct l; discriminate. }
    assert (List.length (e :: next) = 50) as Hlen.
    { rewrite <- El, length_app. simpl in *. lia. }
    destruct (cmd_store h);
      cbn [numHistory head set_head add_faults set_faults];
      (split; [split; [rewrite Hn; simpl in *; lia|simpl in *; lia]|]);
      unfold last_n;
      change (List.length (h :: e :: next)) with (S (List.length (e :: next)));
      rewrite Hlen; reflexivity.
Qed.

Lemma record_history_nonempty (env : os) (raw : string) (st : shell) :
  hist_ok st -> head (record_history env raw st) <> [].
Proof.
  intros Hok. rewrite (proj2 (record_history_ok env raw st Hok)).
  intros H. apply (f_equal (@List.length HistEntry)) in H.
  unfold last_n in H. rewrite length_skipn, length_app in H.
  simpl in H. lia.
Qed.

Lemma record_history_hist (env : os) (raw : string) (st : shell) :
  hist_ok st ->
  hist (record_history env raw st) =
  last_n 50 (hist st ++ [cmd (new_entry raw)])%list.
Proof.
  intros Hok. unfold hist.
  rewrite (proj2 (record_history_ok env raw st Hok)), map_last_n, map_app.
  reflexivity.
Qed.

(** The faults of recording: the copy that does not fit its block, then
    the string literal freed with the entry that is dropped. *)
Lemma record_history_faults (env : os) (raw : string) (st : shell) :
  hist_ok st ->
  faults (record_history env raw st) =
  (faults st ++ copy_faults env (new_entry raw)
     ++ if evicts_literal st then [Free_literal] else [])%list.
Proof.
  intros [Hn Hl]. unfold hist_ok, hist in *. rewrite length_map in *.
  unfold record_history, evict, evicts_literal. cbv zeta.
  cbn [numHistory head set_head add_faults set_faults faults].
  rewrite Z.ltb_antisym.
  destruct (50 <=? numHistory st)%Z eqn:E; cbn [negb andb].
  - apply Z.leb_le in E.
    assert (List.length (head st) = 50) as H50 by lia.
    destruct (head st) as [|h l] eqn:Eh; [discriminate|].
    cbn [app]. destruct (l ++ [new_entry raw])%list as [|e next] eqn:El.
    { destruct l; discriminate. }
    destruct h as [c []]; cbn [cmd_store faults set_head add_faults set_faults];
      rewrite <- ?app_assoc, ?app_nil_r; reflexivity.
  - cbn [faults set_numHistory]. now rewrite app_nil_r.
Qed.

(** The commands change nothing but [strtok]'s position, the path, the
    trace and the faults. *)
Lemma dispatch_effect (env : os) (name : string) (st : shell) :
  exists sv p tr fs,
    flow_state (dispatch env name st) =
    set_faults fs (set_trace tr (set_path p (set_saved sv st))).
Proof.
  assert (forall s fs tr, s = add_faults fs (set_trace tr st) ->
            exists sv p tr' fs',
              s = set_faults fs' (set_trace tr' (set_path p (set_saved sv st))))
    as Hform.
  { intros s fs tr ->. exists (saved st), (path st), tr, (faults st ++ fs)%list.
    now destruct st. }
  unfold dispatch.
  destruct (name =? "exit").
  { destruct (strtok whiteSpace (saved st)) as [[t|] r]; cbn [flow_state].
    - exists r, (path st), (trace st ++ [Error])%list, (faults st).
      now destruct st.
    - exists r, (path st), (trace st), (faults st). now destruct st. }
  destruct (name =? "cd").
  { destruct (arg 1 st) as [dir|]; [destruct (arg 2 st)|];
      [|destruct (chdir_ok env dir)|]; cbn [flow_state];
      eapply (Hform _ []); rewrite add_faults_nil; reflexivity. }
  destruct (name =? "path").
  { destruct (arg 1 st) as [a|]; cbn [flow_state].
    - exists (saved st), (Some a), (trace st), (faults st). now destruct st.
    - destruct (path st) as [p|]; eapply (Hform _ []);
        rewrite add_faults_nil; unfold write_stdout, emit;
        cbn [trace fd1 set_trace]; rewrite <- ?app_assoc; reflexivity. }
  destruct (name =? "history").
  { destruct (arg 1 st) as [a|].
    - destruct ((atoi a <? 0)%Z || (atoi a >? 50)%Z); cbn [flow_state].
      + eapply (Hform _ []); rewrite add_faults_nil; reflexivity.
      + rewrite print_entries_eq.
        destruct (skip_loop_state (Z.to_nat (numHistory st)) 0 (numHistory st)
                    (atoi a) (head st) st) as [fs ->].
        change (trace (add_faults fs st)) with (trace st).
        change (fd1 (add_faults fs st)) with (fd1 st).
        rewrite set_trace_add_faults, add_faults_app.
        eapply Hform. reflexivity.
    - cbn [flow_state]. rewrite print_entries_eq.
      eapply Hform. reflexivity. }
  destruct (fork_ok env); cbn [flow_state];
    eapply (Hform _ []); rewrite add_faults_nil; reflexivity.
Qed.

(** The commands and the end of the loop body leave the log, the
    argument array and the invocation mode as they are. *)
Lemma dispatch_keeps (env : os) (name : string) (st : shell) :
  let s' := flow_state (dispatch env name st) in
  hist s' = hist st /\ numHistory s' = numHistory st /\
  args s' = args st /\ execType s' = execType st.
Proof.
  destruct (dispatch_effect env name st) as (sv & p & tr & fs & ->).
  repeat split.
Qed.

Lemma dispatch_keeps_head (env : os) (name : string) (st : shell) :
  head (flow_state (dispatch env name st)) = head st.
Proof.
  now destruct (dispatch_effect env name st) as (sv & p & tr & fs & ->).
Qed.

Lemma restore_stdout_keeps (env : os) (st : shell) :
  let s' := restore_stdout env st in
  hist s' = hist st /\ numHistory s' = numHistory st /\
  args s' = args st /\ execType s' = execType st /\ path s' = path st /\
  redirect s' = redirect st.
Proof.
  unfold restore_stdout. cbv zeta.
  destruct (redirect st) eqn:Er; [|now rewrite Er].
  destruct (temp_fd st) as [t|]; [destruct (dup2_ok env t)|];
    simpl; rewrite Er; repeat split.
Qed.

Lemma restore_stdout_memory (env : os) (st : shell) :
  same_memory st (restore_stdout env st).
Proof.
  unfold restore_stdout, same_memory.
  destruct (redirect st); [|now split].
  destruct (temp_fd st) as [t|]; [destruct (dup2_ok env t)|]; now split.
Qed.

(** Parsing leaves the history list and the faults alone. *)
Lemma open_redirect_memory (env : os) (st : shell) :
  same_memory st (open_redirect env st).
Proof.
  unfold open_redirect, same_memory.
  destruct (strtok whiteSpace (saved st)) as [[f|] r]; simpl.
  - destruct (can_open env f); simpl; [destruct (dup2_ok env (File f))|];
      simpl; auto.
  - auto.
Qed.

Lemma parse_from_memory (env : os) (n i : nat) (line : string) (st : shell) :
  same_memory st (parse_from env n i line st).
Proof.
  unfold same_memory.
  revert i st; induction n as [|n IH]; intros i st; cbn [parse_from].
  - now split.
  - destruct (strtok whiteSpace _) as [[tok|] r].
    + destruct (tok =? ">").
      * pose proof (open_redirect_memory env (set_saved r st)) as [O1 O2].
        cbn [head faults set_saved] in O1, O2.
        destruct (i <? MAX_ARGS)%nat; [|now split].
        destruct (IH (S i) (set_arg i None (open_redirect env (set_saved r st))))
          as [I1 I2].
        cbn [head faults set_arg set_args] in I1, I2. split; congruence.
      * destruct (i <? MAX_ARGS)%nat.
        -- destruct (IH (S i) (set_arg i (Some tok) (set_saved r st))) as [I1 I2].
           now split.
        -- destruct (IH (S i) (set_saved r st)) as [I1 I2]. now split.
    + destruct (i =? 0)%nat; [now split|].
      destruct (IH (S i) (set_arg i None (set_saved r st))) as [I1 I2].
      now split.
Qed.

(** After the line has been recorded nothing in the iteration touches the
    log. *)
Lemma execute_keeps (env : os) (line : string) (st : shell) :
  let s' := final (execute env line st) in
  hist s' = hist st /\ numHistory s' = numHistory st /\
  List.length (args s') = List.length (args st) /\
  execType s' = execType st.
Proof.
  unfold execute.
  destruct (parse_from_frame env (MAX_ARGS + 2) 0 line st)
    as (Ht & Hh & Hn & _ & Hl).
  fold (parse_args env line st) in *.
  destruct (arg 0 (parse_args env line st)) as [name|]; simpl; [|auto].
  destruct (dispatch_keeps env name (parse_args env line st))
    as (Dh & Dn & Da & Dt).
  destruct (dispatch env name (parse_args env line st)) as [s|s|c s];
    simpl in *.
  - destruct (restore_stdout_keeps env s) as (Rh & Rn & Ra & Rt & _).
    rewrite Rh, Rn, Ra, Rt, Dh, Dn, Da, Dt. auto.
  - rewrite Dh, Dn, Da, Dt. auto.
  - rewrite Dh, Dn, Da, Dt. auto.
Qed.

Lemma execute_keeps_head (env : os) (line : string) (st : shell) :
  head (final (execute env line st)) = head st.
Proof.
  unfold execute.
  destruct (parse_from_memory env (MAX_ARGS + 2) 0 line st) as [Ph _].
  fold (parse_args env line st) in *.
  destruct (arg 0 (parse_args env line st)) as [name|]; [|exact Ph].
  pose proof (dispatch_keeps_head env name (parse_args env line st)) as Dh.
  destruct (dispatch env name (parse_args env line st)) as [s|s|c s];
    cbn [final flow_state] in *; try congruence.
  destruct (restore_stdout_memory env s) as [Rh _]. congruence.
Qed.

(** Of the commands only [history] reads or writes where it should not. *)
Lemma dispatch_faults (env : os) (name : string) (st : shell) :
  exists fs,
    faults (flow_state (dispatch env name st)) = (faults st ++ fs)%list /\
    ((name =? "history") = false -> fs = []).
Proof.
  assert (forall s, faults s = faults st ->
            exists fs, faults s = (faults st ++ fs)%list /\
                       ((name =? "history") = false -> fs = [])) as Hsame.
  { intros s ->. exists []. now rewrite app_nil_r. }
  unfold dispatch.
  destruct (name =? "exit").
  { destruct (strtok whiteSpace (saved st)) as [[t|] r]; now apply Hsame. }
  destruct (name =? "cd").
  { destruct (arg 1 st) as [dir|]; [destruct (arg 2 st)|];
      [|destruct (chdir_ok env dir)|]; now apply Hsame. }
  destruct (name =? "path").
  { destruct (arg 1 st) as [a|]; [now apply Hsame|].
    destruct (path st); now apply Hsame. }
  destruct (name =? "history").
  { destruct (arg 1 st) as [a|].
    - destruct ((atoi a <? 0)%Z || (atoi a >? 50)%Z); [now apply Hsame|].
      cbn [flow_state]. rewrite print_entries_eq.
      destruct (skip_loop_state (Z.to_nat (numHistory st)) 0 (numHistory st)
                  (atoi a) (head st) st) as [fs ->].
      eexists. split; [|discriminate].
      cbn [faults add_faults set_faults set_trace].
      rewrite <- app_assoc. reflexivity.
    - cbn [flow_state]. rewrite print_entries_eq.
      eexists. split; [|discriminate]. reflexivity. }
  destruct (fork_ok env); now apply Hsame.
Qed.

(** After the line has been recorded, the faults of the iteration are
    those of [history]. *)
Lemma execute_faults (env : os) (line : string) (st : shell) :
  exists fs,
    faults (final (execute env line st)) = (faults st ++ fs)%list /\
    (arg 0 (parse_args env line st) <> Some "history" -> fs = []).
Proof.
  unfold execute.
  destruct (parse_from_memory env (MAX_ARGS + 2) 0 line st) as [_ Pf].
  fold (parse_args env line st) in *.
  destruct (arg 0 (parse_args env line st)) as [name|].
  - destruct (dispatch_faults env name (parse_args env line st))
      as (fs & Hfs & Hnil).
    exists fs. split.
    + rewrite <- Pf, <- Hfs.
      destruct (dispatch env name (parse_args env line st)) as [s|s|c s];
        cbn [final flow_state]; [|reflexivity..].
      now destruct (restore_stdout_memory env s) as [_ ->].
    + intros Hne. apply Hnil. apply String.eqb_neq. congruence.
  - exists []. cbn [final]. now rewrite app_nil_r.
Qed.

(** A fault made while the line is recorded stays. *)
Lemma iteration_faults (env : os) (raw : string) (st : shell) :
  hist_ok st ->
  exists fs,
    faults (final (iteration env (Some raw) st)) =
    (faults st ++ (copy_faults env (new_entry raw)
                   ++ if evicts_literal st then [Free_literal] else [])
       ++ fs)%list /\
    (arg 0 (parsed env raw st) <> Some "history" -> fs = []).
Proof.
  intros Hok. unfold iteration.
  destruct (execute_faults env (strip_line raw)
              (record_history env raw (write_stdout prompt st)))
    as (fs & Hfs & Hnil).
  exists fs. split; [|exact Hnil].
  rewrite Hfs, (record_history_faults env raw (write_stdout prompt st) Hok).
  now rewrite <- app_assoc.
Qed.

Lemma iteration_hist (env : os) (raw : string) (st : shell) :
  hist_ok st ->
  let s' := final (iteration env (Some raw) st) in
  hist_ok s' /\
  head s' = last_n 50 (head st ++ [new_entry raw]) /\
  List.length (args s') = List.length (args st).
Proof.
  intros Hok. unfold iteration.
  set (st1 := record_history env raw (write_stdout prompt st)).
  destruct (execute_keeps env (strip_line raw) st1) as (Hh & Hn & Hl & _).
  pose proof (execute_keeps_head env (strip_line raw) st1) as Hd.
  destruct (record_history_ok env raw (write_stdout prompt st) Hok)
    as [Hok1 Hh1].
  fold st1 in Hok1, Hh1.
  cbv zeta. unfold hist_ok. rewrite Hh, Hn, Hl, Hd. repeat split.
  - apply Hok1.
  - apply Hok1.
  - exact Hh1.
  - unfold st1.
    now destruct (record_history_fields env raw st) as (_ & _ & _ & _ & _ & _ & ->).
Qed.

Lemma init_hist_ok (t : exec_type) : hist_ok (init t).
Proof. unfold hist_ok; simpl. lia. Qed.

Lemma run_app (env : os) (a b : list (option string)) (st : shell) :
  run env (a ++ b) st =
  match run env a st with
  | Next s => run env b s
  | Exited c s => Exited c s
  end.
Proof.
  revert st; induction a as [|x a IH]; intros st; simpl; [reflexivity|].
  destruct (iteration env x st); [apply IH|reflexivity].
Qed.

(** The line [history], run in any state whose argument array has its six
    slots: the whole log is printed, then standard output is put back. *)
Lemma execute_history (env : os) (st : shell) :
  List.length (args st) = 6 ->
  execute env "history" st =
  Next (restore_stdout env
          (print_entries (head st)
             (set_args [Some "history"; None; None; None; None; None]
                (set_saved EmptyString st)))).
Proof.
  intros H. destruct st as [t a rd fn ofd tfd f1 h nh p sv tr fs].
  simpl in H. do 6 (destruct a as [|? a]; [discriminate|]).
  destruct a; [|discriminate]. reflexivity.
Qed.

Lemma restore_stdout_trace (env : os) (st : shell) :
  exists tail, trace (restore_stdout env st) = (trace st ++ tail)%list /\
               (tail = [] \/ tail = [Error]).
Proof.
  unfold restore_stdout.
  destruct (redirect st); [|exists []; rewrite app_nil_r; auto].
  destruct (temp_fd st) as [t|]; [destruct (dup2_ok env t)|]; simpl;
    try (exists [Error]; now auto).
  exists []; rewrite app_nil_r; auto.
Qed.

(** ** [history] with a count *)

Lemma dispatch_history (env : os) (st : shell) :
  dispatch env "history" st =
  match arg 1 st with
  | Some a =>
      if (atoi a <? 0)%Z || (atoi a >? 50)%Z
      then Skip (djsh_error st)
      else
        let skipped :=
          skip_loop (Z.to_nat (numHistory st)) 0 (numHistory st)
            (atoi a) (head st) st in
        Through (print_entries (fst skipped) (snd skipped))
  | None => Through (print_entries (head st) st)
  end.
Proof. reflexivity. Qed.

(** [atoi] reads the numerals of 0 to 50 as their values. *)
Lemma atoi_decimal (n : nat) : n <= 50 -> atoi (decimal n) = Z.of_nat n.
Proof.
  intros H. do 51 (destruct n as [|n]; [reflexivity|]). lia.
Qed.

(** [atoi] of a string that does not start a number is 0. *)
Lemma atoi_not_a_number (c : ascii) (r : string) :
  isspace c = false -> digit_val c = None ->
  c <> "-"%char -> c <> "+"%char ->
  atoi (String c r) = 0%Z.
Proof.
  intros Hs Hd Hm Hp. unfold atoi, strtol10. cbn [skip_space]. rewrite Hs.
  assert (digits_value 0 (String c r) = 0%Z) as Hv
    by (cbn [digits_value]; now rewrite Hd).
  destruct c as [[] [] [] [] [] [] [] []]; try congruence;
    rewrite Hv; reflexivity.
Qed.

(** What [history a] comes to when the count is in range: the entries
    after the first [length - n] are printed, and then, the list not being
    empty, the [next] field of the newest entry is read, by the skipping
    loop when it skips every entry and by the printing loop otherwise. *)
Lemma history_in_range (env : os) (st : shell) (a : string) :
  hist_ok st -> head st <> [] ->
  arg 1 st = Some a ->
  (0 <= atoi a <= 50)%Z ->
  dispatch env "history" st =
  Through (add_faults [Unset_next]
             (set_trace
                (trace st ++ printed (fd1 st)
                   (skipn (List.length (hist st) - Z.to_nat (atoi a)) (hist st)))
                st)).
Proof.
  intros [Hn Hl] Hne Ha Hin. rewrite dispatch_history, Ha.
  rewrite Z.gtb_ltb, (proj2 (Z.ltb_ge (atoi a) 0)),
    (proj2 (Z.ltb_ge 50 (atoi a))) by lia.
  cbn [orb]. cbv zeta. rewrite skip_loop_steps by lia.
  cbn [fst snd]. rewrite print_entries_eq.
  unfold hist in *. rewrite length_map in *.
  replace (Z.to_nat (Z.min (numHistory st - atoi a) (numHistory st) - 0))
    with (List.length (head st) - Z.to_nat (atoi a)) by lia.
  set (k := List.length (head st) - Z.to_nat (atoi a)).
  rewrite skipn_map. cbn [trace fd1 add_faults set_faults faults].
  assert ((0 <? List.length (head st))%nat = true) as ->.
  { apply Nat.ltb_lt. destruct (head st); [congruence|simpl; lia]. }
  cbn [andb]. rewrite set_trace_add_faults, add_faults_app.
  destruct (List.length (head st) <=? k)%nat eqn:E.
  - apply Nat.leb_le in E. rewrite skipn_all2 by exact E. reflexivity.
  - apply Nat.leb_gt in E.
    destruct (skipn k (head st)) as [|e es] eqn:Es; [|reflexivity].
    apply (f_equal (@List.length HistEntry)) in Es.
    rewrite length_skipn in Es. simpl in Es. lia.
Qed.

(** C5 (what the code does).  For [history a] the count is [atoi a].
    When it lies in [0, 50] the last [min n length] entries are printed,
    oldest first, that is the log after skipping its first
    [max 0 (length - n)] entries, and no error is reported; but the list
    ends with the newest entry, whose [next] field no statement assigns,
    and the loops go on to read it: the loop of lines 272-275 when every
    entry is skipped, the loop of lines 279-284 once the newest entry has
    been printed.  When the count lies outside, the error is reported and
    nothing is printed.  An argument that does not start a number is not
    an error: [atoi] reads it as 0. *)
Theorem history_n_atoi (env : os) (st : shell) (a : string) :
  hist_ok st -> head st <> [] ->
  arg 1 st = Some a ->
  let n := atoi a in
  let shown := skipn (List.length (hist st) - Z.to_nat n) (hist st) in
  ((0 <= n <= 50)%Z ->
     dispatch env "history" st =
     Through (add_faults [Unset_next]
                (set_trace (trace st ++ printed (fd1 st) shown) st)) /\
     List.length shown = Nat.min (Z.to_nat n) (List.length (hist st))) /\
  ((n < 0 \/ 50 < n)%Z ->
     dispatch env "history" st = Skip (set_trace (trace st ++ [Error]) st)) /\
  (forall c r, a = String c r -> isspace c = false -> digit_val c = None ->
     c <> "-"%char -> c <> "+"%char -> n = 0%Z).
Proof.
  intros Hok Hne Ha n shown.
  split; [|split]; [| |intros c r -> Hs Hd Hm Hp; now apply atoi_not_a_number].
  - intros Hin. split; [now apply history_in_range|].
    unfold shown. rewrite length_skipn. lia.
  - intros Hout. rewrite dispatch_history, Ha. fold n. clearbody n.
    rewrite Z.gtb_ltb.
    destruct Hout as [H|H]; apply Z.ltb_lt in H; rewrite H;
      [|rewrite orb_true_r]; reflexivity.
Qed.

Lemma history_n_atoi_witness :
  let st := parsed (friendly []) (ln "history 1")
              (final (run (friendly []) [Some (ln "ls")] (init ExecL))) in
  dispatch (friendly []) "history" st =
  Through (add_faults [Unset_next]
             (set_trace (trace st ++ printed Terminal ["history 1"]) st)).
Proof.
  intros st.
  assert (hist_ok st) as Hok by (split; vm_compute; [reflexivity|lia]).
  assert (head st <> []) as Hne by (vm_compute; discriminate).
  assert (arg 1 st = Some "1") as Ha by (vm_compute; reflexivity).
  exact (proj1 (proj1 (history_n_atoi (friendly []) st "1" Hok Hne Ha)
                  ltac:(vm_compute; split; discriminate))).
Defined.

(** [history 0] prints nothing and still reads the unset field; so does
    [history abc], which reports no error. *)
Example history_zero :
  let st := parsed (friendly []) (ln "history 0") (init ExecL) in
  flow_state (dispatch (friendly []) "history" st)
  = add_faults [Unset_next] st.
Proof. vm_compute. reflexivity. Qed.

(** The sentence of the specification fails on [history abc]: no error is
    reported. *)
Lemma history_n_counterexample :
  ~ history_n_as_stated (friendly [])
      (parsed (friendly []) (ln "history abc") (init ExecL)) "abc".
Proof. vm_compute. discriminate. Qed.

(** ** Commands that are not built in *)

Lemma dispatch_external (env : os) (name : string) (st : shell) :
  builtin name = false ->
  dispatch env name st =
  if fork_ok env
  then Through (emit (Fork (run_child env st name)) st)
  else Exit 1 (djsh_error st).
Proof.
  unfold builtin, dispatch. intros H.
  repeat (apply orb_false_iff in H; destruct H as [H ?]).
  now rewrite H, H0, H1, H2.
Qed.

(** C10.  Launching a command that is not built in leaves the shell's
    own search path and history log as they were: the shell forks and
    only records the child (or, when the fork fails, reports the error and
    ends with status 1); [checkPath], which cuts the path string at the
    end of its first entry, works on the child's copy. *)
Theorem launch_leaves_parent (env : os) (name : string) (st : shell) :
  builtin name = false ->
  let s' := flow_state (dispatch env name st) in
  path s' = path st /\ hist s' = hist st /\
  numHistory s' = numHistory st /\
  (fork_ok env = true ->
     dispatch env name st = Through s' /\
     exists c,
       trace s' = (trace st ++ [Fork c])%list /\
       c_cmdPath c = checkPath env name (path st) (saved st) /\
       c_path c = option_map (buffer_after_strtok ":") (path st)).
Proof.
  intros Hb. rewrite (dispatch_external env name st Hb).
  destruct (fork_ok env); cbn [flow_state];
    (split; [reflexivity|split; [reflexivity|split; [reflexivity|]]]);
    [|discriminate].
  intros _. split; [reflexivity|].
  exists (run_child env st name). repeat split.
Qed.

Lemma launch_leaves_parent_witness :
  let env := friendly ["/bin/ls"] in
  let st := parsed env (ln "ls -l")
              (final (run env [Some (ln "path /usr/bin:/bin")] (init ExecL))) in
  path (flow_state (dispatch env "ls" st)) = Some "/usr/bin:/bin" /\
  hist (flow_state (dispatch env "ls" st)) = ["path /usr/bin:/bin"; "ls -l"].
Proof.
  intros env st.
  destruct (launch_leaves_parent env "ls" st eq_refl) as (Hp & Hh & _).
  split; [rewrite Hp|rewrite Hh]; vm_compute; reflexivity.
Defined.

(** In the child the path string has been cut after its first entry. *)
Example child_path_is_cut :
  let env := friendly ["/bin/ls"] in
  let st := parsed env (ln "ls -l")
              (final (run env [Some (ln "path /usr/bin:/bin")] (init ExecL))) in
  c_path (run_child env st "ls") = Some "/usr/bin" /\
  c_cmdPath (run_child env st "ls") = "/bin/ls".
Proof. vm_compute. split; reflexivity. Qed.

(** C4 (what the code does).  For a command that is not built in and
    that [checkPath] does not find, the shell still creates a child
    process first, path resolution being done by the child; the shell
    itself reports nothing and goes on.  In the child [checkPath] returns
    the string [NOT_FOUND], which is not the null pointer the child tests
    for, so the child reports nothing either and hands that string to
    [exec] with the arguments of the line: a program of that name, when
    [exec] finds one, runs in place of the command, and only when [exec]
    fails does the child report the error and exit with status 1.  Only a
    failed [fork] creates no process: the error is reported and the shell
    ends with status 1. *)
Theorem unresolved_command_forks (env : os) (name : string) (st : shell) :
  builtin name = false ->
  checkPath env name (path st) (saved st) = NOT_FOUND ->
  (fork_ok env = true ->
     dispatch env name st =
     Through
       (emit (Fork {| c_cmdPath := NOT_FOUND;
                      c_path := option_map (buffer_after_strtok ":") (path st);
                      c_end := if exec_ok env NOT_FOUND
                               then Runs NOT_FOUND (exec_argv st name) (fd1 st)
                               else Fails |}) st)) /\
  (fork_ok env = false ->
     dispatch env name st = Exit 1 (djsh_error st)).
Proof.
  intros Hb Hnf. rewrite (dispatch_external env name st Hb).
  split; intros Hf; rewrite Hf; [|reflexivity].
  unfold run_child. now rewrite Hnf.
Qed.

Lemma unresolved_command_forks_witness :
  let env := friendly ["0"] in
  let st := parsed env (ln "foo -x") (init ExecL) in
  dispatch env "foo" st =
  Through (emit (Fork {| c_cmdPath := "0"; c_path := None;
                         c_end := Runs "0" ["foo"; "-x"] Terminal |}) st).
Proof.
  intros env st.
  exact (proj1 (unresolved_command_forks env "foo" st eq_refl eq_refl)
           eq_refl).
Defined.

(** Without a program of that name the child reports the error: a
    process has been created all the same. *)
Example unresolved_command_trace :
  trace (final (run (friendly ["/bin/ls"]) [Some (ln "foo -x")] (init ExecL)))
  = [Write Terminal prompt;
     Fork {| c_cmdPath := "0"; c_path := None; c_end := Fails |}].
Proof. vm_compute. reflexivity. Qed.

(** With no path set, nothing is found unless the line has tokens left
    over for [strtok] to go on with. *)
Lemma checkPath_no_path (env : os) (name sv : string) :
  strtok_all ":" sv = [] -> checkPath env name None sv = NOT_FOUND.
Proof.
  intros H. unfold checkPath.
  rewrite checkPath_resolve by (rewrite H; intros dir []).
  now rewrite H.
Qed.

(** The sentence of the specification fails for [foo], which nothing
    resolves: a process is created. *)
Lemma unresolved_counterexample :
  ~ unresolved_as_stated (friendly [])
      (parsed (friendly []) (ln "foo") (init ExecL)) "foo".
Proof.
  intros H. destruct (H eq_refl eq_refl) as [_ Hno].
  apply (Hno (run_child (friendly [])
                (parsed (friendly []) (ln "foo") (init ExecL)) "foo")).
  vm_compute. now left.
Qed.

(** ** The arguments a line leaves in [args] *)

Lemma open_redirect_args (env : os) (st : shell) :
  args (open_redirect env st) = args st.
Proof.
  unfold open_redirect.
  destruct (strtok whiteSpace (saved st)) as [[f|] r]; simpl; [|reflexivity].
  destruct (can_open env f); simpl; [destruct (dup2_ok env (File f))|];
    reflexivity.
Qed.

(** Writing [NULL] into a slot from the fifth on changes nothing. *)
Lemma upd_null_tail (i : nat) (l : list (option string)) :
  List.length l = 6 -> nth 4 l None = None -> nth 5 l None = None ->
  4 <= i -> upd i None l = l.
Proof.
  intros Hl H4 H5 Hi.
  rewrite (six_slots l None Hl) in *. simpl in H4, H5. rewrite H4, H5.
  do 4 (destruct i as [|i]; [lia|]).
  destruct i as [|[|i]]; reflexivity.
Qed.

(** From the fifth iteration on the loop stores nothing. *)
Lemma parse_from_tail (env : os) (n i : nat) (line : string) (st : shell) :
  args_ok st -> 4 <= i ->
  args (parse_from env n i line st) = args st.
Proof.
  revert i st; induction n as [|n IH]; intros i st Hok Hi; [reflexivity|].
  cbn [parse_from].
  destruct (strtok whiteSpace _) as [[tok|] r].
  - replace (i <? MAX_ARGS)%nat with false
      by (symmetry; apply Nat.ltb_ge; exact Hi).
    destruct (tok =? ">").
    + now rewrite open_redirect_args.
    + now rewrite IH by (auto; lia).
  - replace (i =? 0)%nat with false by (symmetry; apply Nat.eqb_neq; lia).
    destruct Hok as (Hl & H4 & H5).
    assert (set_arg i None (set_saved r st) = set_saved r st) as ->.
    { unfold set_arg. cbn [args set_saved].
      rewrite upd_null_tail by assumption. reflexivity. }
    rewrite IH; [reflexivity| |lia]. repeat split; assumption.
Qed.

(** One iteration of the loop on a token that is not [>]. *)
Lemma parse_from_token (env : os) (n i : nat) (line : string) (st : shell)
    (tok r : string) :
  strtok whiteSpace (if (i =? 0)%nat then line else saved st) = (Some tok, r) ->
  tok <> ">" ->
  parse_from env (S n) i line st =
  if (i <? MAX_ARGS)%nat
  then parse_from env n (S i) line (set_arg i (Some tok) (set_saved r st))
  else parse_from env n (S i) line (set_saved r st).
Proof.
  intros E Hne. cbn [parse_from]. rewrite E.
  now rewrite (proj2 (String.eqb_neq tok ">") Hne).
Qed.

Lemma set_arg_ok (i : nat) (v : option string) (st : shell) :
  i < 4 -> args_ok st -> args_ok (set_arg i v st).
Proof.
  intros Hi (Hl & H4 & H5). unfold args_ok, arg, set_arg in *.
  cbn [args set_args]. rewrite upd_length, !nth_upd_other by lia. auto.
Qed.

(** C1 (what the code does).  On a line of five or more tokens, the
    first four of which are not [>], the array keeps the command name and
    its first three arguments only, whatever the state and the operating
    system; the program launched receives the name and exactly those
    three arguments, in both invocation modes.  The fourth argument is
    dropped. *)
Theorem launched_argv_has_three_arguments (env : os) (line : string)
    (st : shell) (t0 t1 t2 t3 t4 : string) (rest : list string) :
  args_ok st ->
  strtok_all whiteSpace line = t0 :: t1 :: t2 :: t3 :: t4 :: rest ->
  t0 <> ">" -> t1 <> ">" -> t2 <> ">" -> t3 <> ">" ->
  let st' := parse_args env line st in
  args st' = [Some t0; Some t1; Some t2; Some t3; None; None] /\
  exec_argv st' t0 =
  match execType st with
  | ExecL => getCommandFromPath t0
  | ExecV => t0
  end :: [t1; t2; t3].
Proof.
  intros Hok Htok N0 N1 N2 N3 st'.
  destruct (strtok_all_cons_inv _ _ _ _ Htok) as (r0 & E0 & Htok0).
  destruct (strtok_all_cons_inv _ _ _ _ Htok0) as (r1 & E1 & Htok1).
  destruct (strtok_all_cons_inv _ _ _ _ Htok1) as (r2 & E2 & Htok2).
  destruct (strtok_all_cons_inv _ _ _ _ Htok2) as (r3 & E3 & Htok3).
  assert (args st' = [Some t0; Some t1; Some t2; Some t3; None; None]) as Ha.
  { unfold st', parse_args. cbn [MAX_ARGS Nat.add].
    rewrite (parse_from_token env 5 0 line st t0 r0 E0 N0).
    cbn [Nat.ltb Nat.leb MAX_ARGS].
    set (s0 := set_arg 0 (Some t0) (set_saved r0 st)).
    rewrite (parse_from_token env 4 1 line s0 t1 r1 E1 N1).
    cbn [Nat.ltb Nat.leb MAX_ARGS].
    set (s1 := set_arg 1 (Some t1) (set_saved r1 s0)).
    rewrite (parse_from_token env 3 2 line s1 t2 r2 E2 N2).
    cbn [Nat.ltb Nat.leb MAX_ARGS].
    set (s2 := set_arg 2 (Some t2) (set_saved r2 s1)).
    rewrite (parse_from_token env 2 3 line s2 t3 r3 E3 N3).
    cbn [Nat.ltb Nat.leb MAX_ARGS].
    subst s0 s1 s2.
    rewrite parse_from_tail; [| |lia].
    - destruct Hok as (Hl & H4 & H5). unfold arg in H4, H5.
      cbn [args set_arg set_args set_saved].
      rewrite (six_slots (args st) None Hl) in *. simpl in H4, H5.
      now rewrite H4, H5.
    - repeat apply set_arg_ok; try lia. exact Hok. }
  split; [exact Ha|].
  unfold exec_argv, arg. rewrite Ha.
  assert (execType st' = execType st) as ->
    by apply (parse_from_frame env (MAX_ARGS + 2) 0 line st).
  destruct (execType st); reflexivity.
Qed.

Lemma launched_argv_has_three_arguments_witness :
  exec_argv (parse_args (friendly ["/bin/echo"]) "echo a b c d" (init ExecL))
    "echo"
  = ["echo"; "a"; "b"; "c"].
Proof.
  refine (proj2 (launched_argv_has_three_arguments (friendly ["/bin/echo"])
            "echo a b c d" (init ExecL) "echo" "a" "b" "c" "d" []
            _ _ _ _ _ _)).
  - repeat split.
  - vm_compute; reflexivity.
  - discriminate.
  - discriminate.
  - discriminate.
  - discriminate.
Defined.

(** The whole iteration on [echo a b c d], in both modes: the program
    runs with three arguments. *)
Example echo_four_arguments :
  trace (final (run (friendly ["/bin/echo"])
                  [Some (ln "path /bin"); Some (ln "echo a b c d")]
                  (init ExecL)))
  = [Write Terminal prompt; Write Terminal prompt;
     Fork {| c_cmdPath := "/bin/echo"; c_path := Some "/bin";
             c_end := Runs "/bin/echo" ["echo"; "a"; "b"; "c"] Terminal |}]
  /\
  trace (final (run (friendly ["/bin/echo"])
                  [Some (ln "path /bin"); Some (ln "echo a b c d")]
                  (init ExecV)))
  = [Write Terminal prompt; Write Terminal prompt;
     Fork {| c_cmdPath := "/bin/echo"; c_path := Some "/bin";
             c_end := Runs "/bin/echo" ["echo"; "a"; "b"; "c"] Terminal |}].
Proof. split; vm_compute; reflexivity. Qed.

(** ** Events *)

Lemma events_since_app (evs more : list event) :
  events_since evs (evs ++ more) = more.
Proof.
  unfold events_since. rewrite skipn_app, skipn_all, Nat.sub_diag.
  reflexivity.
Qed.

(** ** Lines without redirection *)

(** Slots before the current index are not written any more. *)
Lemma parse_from_arg_before (env : os) (n i j : nat) (line : string)
    (st : shell) :
  j < i -> arg j (parse_from env n i line st) = arg j st.
Proof.
  revert i st; induction n as [|n IH]; intros i st Hj; [reflexivity|].
  cbn [parse_from].
  destruct (strtok whiteSpace _) as [[tok|] r].
  - destruct (tok =? ">").
    + destruct (i <? MAX_ARGS)%nat.
      * rewrite IH by lia. unfold arg, set_arg; cbn [args set_args].
        rewrite nth_upd_other by lia. now rewrite open_redirect_args.
      * unfold arg. now rewrite open_redirect_args.
    + destruct (i <? MAX_ARGS)%nat; rewrite IH by lia; [|reflexivity].
      unfold arg, set_arg; cbn [args set_args set_saved].
      now rewrite nth_upd_other by lia.
  - replace (i =? 0)%nat with false by (symmetry; apply Nat.eqb_neq; lia).
    rewrite IH by lia. unfold arg, set_arg; cbn [args set_args set_saved].
    now rewrite nth_upd_other by lia.
Qed.

(** With no [>] among the tokens the loop takes, parsing emits nothing,
    leaves standard output alone, and leaves [strtok] after the tokens
    taken, one per iteration. *)
Lemma parse_from_plain (env : os) (n i : nat) (line : string) (st : shell) :
  ~ In ">" (firstn n (strtok_all whiteSpace (cursor i line st))) ->
  0 < i ->
  let s := parse_from env n i line st in
  trace s = trace st /\ fd1 s = fd1 st /\ redirect s = redirect st /\
  strtok_all whiteSpace (saved s) =
  skipn n (strtok_all whiteSpace (cursor i line st)).
Proof.
  revert i st; induction n as [|n IH]; intros i st Hno Hi.
  - destruct i; [lia|]. repeat split.
  - cbn [parse_from]. fold (cursor i line st).
    assert ((i =? 0)%nat = false) as Hi0 by (apply Nat.eqb_neq; lia).
    destruct (strtok whiteSpace (cursor i line st)) as [[tok|] r] eqn:E.
    + rewrite (strtok_all_some _ _ _ _ E) in *. cbn [firstn skipn] in *.
      assert (tok <> ">") as Hne by (intros ->; apply Hno; now left).
      rewrite (proj2 (String.eqb_neq tok ">") Hne).
      assert (forall s, trace s = trace st -> fd1 s = fd1 st ->
                redirect s = redirect st -> saved s = r ->
                let s' := parse_from env n (S i) line s in
                trace s' = trace st /\ fd1 s' = fd1 st /\
                redirect s' = redirect st /\
                strtok_all whiteSpace (saved s') =
                skipn n (strtok_all whiteSpace r)) as Hstep.
      { intros s S1 S2 S3 S4.
        destruct (IH (S i) s) as (I1 & I2 & I3 & I4);
          [unfold cursor; simpl; rewrite S4; intros Hin; apply Hno;
           now right|lia|].
        unfold cursor in I4; simpl in I4. rewrite S4 in I4.
        cbv zeta. now rewrite I1, I2, I3, I4, S1, S2, S3. }
      destruct (i <? MAX_ARGS)%nat; apply Hstep; reflexivity.
    + rewrite (strtok_all_none _ _ _ E) in *. rewrite Hi0.
      rewrite (strtok_none _ _ _ E).
      destruct (IH (S i) (set_arg i None (set_saved EmptyString st)))
        as (I1 & I2 & I3 & I4); [unfold cursor; simpl; now destruct n|lia|].
      unfold cursor in I4; simpl in I4.
      cbv zeta. rewrite I1, I2, I3, I4. repeat split.
      now rewrite strtok_all_empty, !skipn_nil.
Qed.

(** ** [exit] *)

(** C3 (what the code does).  A line made of [exit] and at most five more
    tokens, none of them [>], ends the shell with status 0 and reports
    nothing: the loop that parses the arguments has taken every token, so
    the [strtok] call that looks for an extra argument finds none.  In
    particular [exit] alone exits with status 0, and so does [exit] with
    an extra argument. *)
Theorem exit_with_arguments_exits (env : os) (raw : string) (st : shell)
    (ts : list string) :
  List.length (args st) = 6 ->
  strtok_all whiteSpace (strip_line raw) = "exit" :: ts ->
  List.length ts <= 5 ->
  ~ In ">" ts ->
  exists s',
    iteration env (Some raw) st = Exited 0 s' /\
    trace s' = (trace st ++ [Write (fd1 st) prompt])%list.
Proof.
  intros Hl Htok Hlen Hno. unfold iteration, execute.
  set (st1 := record_history env raw (write_stdout prompt st)).
  assert (trace st1 = (trace st ++ [Write (fd1 st) prompt])%list /\
          List.length (args st1) = 6) as [T1 L1].
  { destruct (record_history_fields env raw st)
      as (T & _ & _ & _ & _ & _ & A).
    fold st1 in T, A. split; [exact T|now rewrite A]. }
  destruct (strtok_all_cons_inv _ _ _ _ Htok) as (r0 & E0 & Htok0).
  unfold parse_args. cbn [MAX_ARGS Nat.add].
  rewrite (parse_from_token env 5 0 (strip_line raw) st1 "exit" r0 E0)
    by discriminate.
  cbn [Nat.ltb Nat.leb MAX_ARGS].
  set (s0 := set_arg 0 (Some "exit") (set_saved r0 st1)).
  assert (strtok_all whiteSpace (cursor 1 (strip_line raw) s0) = ts) as Hc
    by exact Htok0.
  destruct (parse_from_plain env 5 1 (strip_line raw) s0)
    as (P1 & _ & _ & P2).
  { rewrite Hc, firstn_all2 by lia. exact Hno. }
  { lia. }
  rewrite Hc, skipn_all2 in P2 by lia.
  rewrite parse_from_arg_before by lia.
  assert (arg 0 s0 = Some "exit") as ->.
  { unfold s0, arg, set_arg; cbn [args set_args set_saved].
    apply nth_upd_same. lia. }
  unfold dispatch. cbn [String.eqb Ascii.eqb Bool.eqb].
  rewrite (strtok_all_nil_inv _ _ P2).
  eexists. split; [reflexivity|]. cbn [trace set_saved]. now rewrite P1.
Qed.

Lemma exit_with_arguments_exits_witness :
  exists s',
    iteration (friendly []) (Some (ln "exit foo")) (init ExecL) = Exited 0 s' /\
    trace s' = [Write Terminal prompt].
Proof.
  refine (exit_with_arguments_exits (friendly []) (ln "exit foo")
            (init ExecL) ["foo"] eq_refl _ _ _).
  - vm_compute; reflexivity.
  - simpl; lia.
  - intros [H|[]]; discriminate.
Defined.

(** Only a seventh token makes [exit] report the error and stay. *)
Example exit_with_six_arguments :
  exists s',
    iteration (friendly []) (Some (ln "exit a b c d e f")) (init ExecL)
    = Next s' /\
    trace s' = [Write Terminal prompt; Error].
Proof. eexists. split; vm_compute; reflexivity. Qed.

(** ** Redirection across iterations *)

(** One iteration of the parsing loop on the token [>]. *)
Lemma parse_from_marker (env : os) (n i : nat) (line : string) (st : shell)
    (r : string) :
  strtok whiteSpace (cursor i line st) = (Some ">", r) ->
  parse_from env (S n) i line st =
  if (i <? MAX_ARGS)%nat
  then parse_from env n (S i) line
         (set_arg i None (open_redirect env (set_saved r st)))
  else open_redirect env (set_saved r st).
Proof. intros E. cbn [parse_from]. fold (cursor i line st). now rewrite E. Qed.

(** Redirection that succeeds: the file is opened, standard output is
    saved in [temp_fd] and then refers to the file. *)
Lemma open_redirect_engaged (env : os) (st : shell) (f r : string) :
  strtok whiteSpace (saved st) = (Some f, r) ->
  can_open env f = true -> dup2_ok env (File f) = true ->
  let s := open_redirect env st in
  fd1 s = File f /\ redirect s = true /\ temp_fd s = Some (fd1 st) /\
  trace s = (trace st ++ [Open f])%list /\ saved s = r /\
  args s = args st.
Proof.
  intros E Ho Hs. unfold open_redirect. rewrite E, Ho. cbv zeta.
  cbn [fd1 set_temp_fd emit set_trace set_output_fd set_filename set_saved].
  rewrite Hs. repeat split.
Qed.

(** C2 (what the code does).  A line [history a > f] whose count is out
    of range engages redirection to [f] and then leaves the loop body
    through [continue], so that standard output is not put back: after
    the iteration it still refers to [f], and the prompt and the output
    of a [history] line that follows are written to [f]. *)
Theorem redirection_leaks_after_history_error (env : os) (raw a f : string)
    (st : shell) :
  List.length (args st) = 6 ->
  strtok_all whiteSpace (strip_line raw) = ["history"; a; ">"; f] ->
  a <> ">" ->
  (atoi a < 0 \/ 50 < atoi a)%Z ->
  can_open env f = true ->
  dup2_ok env (File f) = true ->
  exists s',
    iteration env (Some raw) st = Next s' /\
    trace s' = (trace st ++ [Write (fd1 st) prompt; Open f; Error])%list /\
    fd1 s' = File f /\
    exists s'' tail,
      iteration env (Some (ln "history")) s' = Next s'' /\
      trace s'' =
        (trace s' ++
         Write (File f) prompt :: printed (File f) (hist s'') ++ tail)%list /\
      (tail = [] \/ tail = [Error]).
Proof.
  intros Hl Htok Ha Hout Hopen Hswap. unfold iteration at 1. unfold execute.
  set (st1 := record_history env raw (write_stdout prompt st)).
  assert (trace st1 = (trace st ++ [Write (fd1 st) prompt])%list /\
          List.length (args st1) = 6 /\ fd1 st1 = fd1 st) as (T1 & L1 & F1).
  { destruct (record_history_fields env raw st)
      as (T & F & _ & _ & _ & _ & A).
    fold st1 in T, F, A. repeat split; [exact T|now rewrite A|exact F]. }
  destruct (strtok_all_cons_inv _ _ _ _ Htok) as (r0 & E0 & Htok0).
  destruct (strtok_all_cons_inv _ _ _ _ Htok0) as (r1 & E1 & Htok1).
  destruct (strtok_all_cons_inv _ _ _ _ Htok1) as (r2 & E2 & Htok2).
  destruct (strtok_all_cons_inv _ _ _ _ Htok2) as (r3 & E3 & Htok3).
  unfold parse_args. cbn [MAX_ARGS Nat.add].
  rewrite (parse_from_token env 5 0 (strip_line raw) st1 "history" r0 E0)
    by discriminate.
  cbn [Nat.ltb Nat.leb MAX_ARGS].
  set (s0 := set_arg 0 (Some "history") (set_saved r0 st1)).
  rewrite (parse_from_token env 4 1 (strip_line raw) s0 a r1 E1 Ha).
  cbn [Nat.ltb Nat.leb MAX_ARGS].
  set (s1 := set_arg 1 (Some a) (set_saved r1 s0)).
  rewrite (parse_from_marker env 3 2 (strip_line raw) s1 r2 E2).
  cbn [Nat.ltb Nat.leb MAX_ARGS].
  destruct (open_redirect_engaged env (set_saved r2 s1) f r3 E3 Hopen Hswap)
    as (O1 & O2 & O3 & O4 & O5 & O6).
  set (s2 := set_arg 2 None (open_redirect env (set_saved r2 s1))).
  destruct (parse_from_plain env 3 3 (strip_line raw) s2) as (P1 & P2 & _ & _).
  { unfold cursor, s2; cbn [Nat.eqb saved set_arg set_args].
    rewrite O5, Htok3. simpl. tauto. }
  { lia. }
  set (p := parse_from env 3 3 (strip_line raw) s2) in *.
  assert (arg 0 p = Some "history" /\ arg 1 p = Some a) as [A0 A1].
  { unfold p. rewrite !parse_from_arg_before by lia.
    unfold s2, arg, set_arg. cbn [args set_args]. rewrite O6.
    unfold s1, s0, set_arg. cbn [args set_args set_saved]. split.
    - rewrite !nth_upd_other by lia. apply nth_upd_same. lia.
    - rewrite nth_upd_other by lia. apply nth_upd_same.
      rewrite upd_length. lia. }
  rewrite A0, dispatch_history, A1, Z.gtb_ltb.
  assert (((atoi a <? 0) || (50 <? atoi a))%Z = true) as ->.
  { destruct Hout as [H|H]; apply Z.ltb_lt in H; rewrite H;
      [|rewrite orb_true_r]; reflexivity. }
  assert (trace p = (trace st ++ [Write (fd1 st) prompt; Open f])%list) as Tp.
  { rewrite P1. unfold s2. cbn [trace set_arg set_args]. rewrite O4.
    cbn [trace set_saved set_arg set_args]. unfold s1, s0.
    cbn [trace set_saved set_arg set_args]. rewrite T1.
    now rewrite <- app_assoc. }
  assert (fd1 p = File f) as Fp.
  { rewrite P2. unfold s2. cbn [fd1 set_arg set_args]. exact O1. }
  exists (djsh_error p). split; [reflexivity|].
  split; [cbn [trace djsh_error emit set_trace]; rewrite Tp;
          now rewrite <- app_assoc|].
  split; [exact Fp|].
  (* the line that follows *)
  unfold iteration.
  change (strip_line (ln "history")) with "history".
  set (q := record_history env (ln "history") (write_stdout prompt (djsh_error p))).
  assert (List.length (args q) = 6 /\ fd1 q = File f /\
          trace q = (trace (djsh_error p) ++ [Write (File f) prompt])%list)
    as (Lq & Fq & Tq).
  { destruct (record_history_fields env (ln "history") (djsh_error p))
      as (T & F & _ & _ & _ & _ & A).
    fold q in T, F, A. rewrite A, F, T.
    cbn [args fd1 djsh_error emit set_trace]. rewrite Fp. repeat split.
    unfold p; destruct (parse_from_frame env 3 3 (strip_line raw) s2)
      as (_ & _ & _ & _ & ->);
    unfold s2, set_arg; cbn [args set_args];
    rewrite upd_length, O6; cbn [args set_saved];
    unfold s1, s0, set_arg; cbn [args set_args set_saved];
    rewrite !upd_length; exact L1. }
  rewrite (execute_history env q Lq).
  set (w := print_entries (head q)
              (set_args [Some "history"; None; None; None; None; None]
                 (set_saved EmptyString q))).
  destruct (restore_stdout_trace env w) as (tail & Ht & Htail).
  eexists; exists tail. split; [reflexivity|]. split; [|exact Htail].
  destruct (restore_stdout_keeps env w) as (-> & _).
  rewrite Ht. unfold w. rewrite print_entries_eq. unfold hist.
  cbn [trace head add_faults set_faults set_trace set_args set_saved fd1].
  rewrite Tq, Fq, <- !app_assoc. reflexivity.
Qed.

Lemma redirection_leaks_after_history_error_witness :
  exists s',
    iteration (friendly []) (Some (ln "history 51 > out.txt")) (init ExecL)
    = Next s' /\
    trace s' = [Write Terminal prompt; Open "out.txt"; Error] /\
    fd1 s' = File "out.txt".
Proof.
  destruct (redirection_leaks_after_history_error (friendly [])
              (ln "history 51 > out.txt") "51" "out.txt" (init ExecL))
    as (s' & H1 & H2 & H3 & _).
  - reflexivity.
  - vm_compute; reflexivity.
  - discriminate.
  - right. vm_compute. reflexivity.
  - reflexivity.
  - reflexivity.
  - exists s'. repeat split; assumption.
Defined.

(** The two lines [history 51 > out.txt] and [history], event by event:
    all that follows the error goes to [out.txt]. *)
Example redirection_leak_trace :
  let env := friendly [] in
  let inputs := [Some (ln "history 51 > out.txt"); Some (ln "history")] in
  trace (final (run env inputs (init ExecL)))
  = [Write Terminal prompt; Open "out.txt"; Error;
     Write (File "out.txt") prompt;
     Write (File "out.txt") "history 51 > out.txt";
     Write (File "out.txt") newline;
     Write (File "out.txt") "history";
     Write (File "out.txt") newline].
Proof. vm_compute; reflexivity. Qed.

(** A command that goes through to the end of the loop body, one that
    fails included, has standard output put back. *)
Example redirection_restored_after_cd_error :
  let env := {| can_open := fun _ => true; dup2_ok := fun _ => true;
                access_x := fun _ => false; chdir_ok := fun _ => false;
                fork_ok := true; exec_ok := fun _ => false;
                malloc_usable_size := glibc_usable_size |} in
  let inputs := [Some (ln "cd /nowhere > out.txt"); Some (ln "history")] in
  trace (final (run env inputs (init ExecL)))
  = [Write Terminal prompt; Open "out.txt"; Error;
     Write Terminal prompt;
     Write Terminal "cd /nowhere > out.txt"; Write Terminal newline;
     Write Terminal "history"; Write Terminal newline].
Proof. vm_compute; reflexivity. Qed.

(** ** Empty lines *)

Lemma execute_empty (env : os) (st : shell) :
  execute env EmptyString st =
  Next (djsh_error (set_arg 0 None (set_saved EmptyString st))).
Proof.
  unfold execute, parse_args. cbn [parse_from MAX_ARGS Nat.add].
  change (strtok whiteSpace (if (0 =? 0)%nat then EmptyString else saved st))
    with (@None string, EmptyString).
  cbn [Nat.eqb]. unfold arg, set_arg.
  cbn [args djsh_error emit set_trace set_args set_saved].
  destruct (args st); reflexivity.
Qed.

Lemma copy_faults_fits (env : os) (e : HistEntry) :
  entry_fits env e = true -> copy_faults env e = [].
Proof.
  unfold entry_fits, copy_faults, store_faults.
  destruct (cmd_store e); [reflexivity|]. now intros ->.
Qed.

Lemma copy_faults_overflow (env : os) (e : HistEntry) (size : nat) :
  cmd_store e = Malloc size -> fits env size (cmd e) = false ->
  copy_faults env e = [Heap_overflow size (String.length (cmd e) + 1)].
Proof.
  unfold copy_faults, store_faults. now intros -> ->.
Qed.

(** Recording without a fault: the copy fits and no string literal is
    freed. *)
Lemma record_history_sound (env : os) (raw : string) (st : shell) :
  hist_ok st -> evicts_literal st = false ->
  entry_fits env (new_entry raw) = true ->
  faults (record_history env raw st) = faults st.
Proof.
  intros Hok He Hf.
  rewrite record_history_faults by exact Hok.
  rewrite He, copy_faults_fits by exact Hf.
  now rewrite !app_nil_r.
Qed.

(** C8 (what the code does).  A line that is empty or only a newline is
    recorded in the history as a single space, the string literal.  A line
    that is only a carriage return and a newline is not: both characters
    have been overwritten when the line is compared with that pair, so the
    empty string is copied, into a block of no bytes.  Either line has no
    tokens: as long as recording it does no harm to the memory (the copy
    fits its block, no string literal is freed), the shell reports the
    error, runs no command and is back at the prompt, standard output and
    the search path being as before. *)
Theorem line_terminator_alone (env : os) (raw : string) (st : shell) :
  raw = EmptyString \/ raw = newline \/ raw = crlf ->
  hist_ok st ->
  evicts_literal st = false ->
  entry_fits env (new_entry raw) = true ->
  new_entry raw =
    (if raw =? crlf then {| cmd := EmptyString; cmd_store := Malloc 0 |}
     else {| cmd := " "; cmd_store := Literal |}) /\
  strtok_all whiteSpace (strip_line raw) = [] /\
  exists s',
    iteration env (Some raw) st = Next s' /\
    head s' = last_n 50 (head st ++ [new_entry raw])%list /\
    trace s' = (trace st ++ [Write (fd1 st) prompt; Error])%list /\
    faults s' = faults st /\
    fd1 s' = fd1 st /\ path s' = path st.
Proof.
  intros Hraw Hok He Hf.
  assert (strip_line raw = EmptyString) as Hs
    by (destruct Hraw as [->|[->| ->]]; reflexivity).
  split; [destruct Hraw as [->|[->| ->]]; reflexivity|].
  split; [now rewrite Hs|].
  unfold iteration. rewrite Hs, execute_empty.
  eexists. split; [reflexivity|].
  assert (hist_ok (write_stdout prompt st)) as Hok' by exact Hok.
  destruct (record_history_ok env raw (write_stdout prompt st) Hok')
    as [_ Hh].
  pose proof (record_history_sound env raw (write_stdout prompt st)
                Hok' He Hf) as Hfs.
  destruct (record_history_fields env raw st) as (Ht & Hd & _ & _ & Hp & _).
  cbv zeta in Ht, Hd, Hp.
  cbn [head faults trace fd1 path djsh_error emit set_trace set_arg set_args
       set_saved].
  rewrite Ht, <- app_assoc.
  repeat split; assumption.
Qed.

Lemma line_terminator_alone_witness :
  exists s',
    iteration (friendly []) (Some crlf) (init ExecL) = Next s' /\
    head s' = [{| cmd := EmptyString; cmd_store := Malloc 0 |}] /\
    trace s' = [Write Terminal prompt; Error] /\
    faults s' = [].
Proof.
  destruct (line_terminator_alone (friendly []) crlf (init ExecL)
              (or_intror (or_intror eq_refl)) (init_hist_ok ExecL)
              eq_refl eq_refl)
    as (_ & _ & s' & H1 & H2 & H3 & H4 & _).
  exists s'. repeat split; assumption.
Defined.

(** The sentence of the specification holds of a line that is only a
    newline. *)
Example newline_recorded_as_space :
  empty_line_as_stated (friendly []) (init ExecL) newline.
Proof.
  split; [reflexivity|]. eexists. split; [vm_compute; reflexivity|].
  split; [reflexivity|]. intros e H. exact H.
Qed.

(** It fails for a carriage return and a newline: the entry recorded is
    the empty string, not a space. *)
Example crlf_line_recorded_empty :
  hist (final (iteration (friendly []) (Some crlf) (init ExecL)))
  = [EmptyString] /\
  ~ empty_line_as_stated (friendly []) (init ExecL) crlf.
Proof.
  split; [vm_compute; reflexivity|].
  intros (_ & s' & H1 & H2 & _).
  vm_compute in H1. inversion H1; subst. vm_compute in H2. discriminate.
Qed.

(** ** Further traces *)

(** A [>] among the first four tokens leaves a [NULL] in the middle of
    [args]: the program launched sees none of the arguments after it. *)
Example redirection_cuts_argv :
  trace (final (run (friendly ["/bin/ls"])
                  [Some (ln "path /bin"); Some (ln "ls > out -l /tmp")]
                  (init ExecV)))
  = [Write Terminal prompt; Write Terminal prompt; Open "out";
     Fork {| c_cmdPath := "/bin/ls"; c_path := Some "/bin";
             c_end := Runs "/bin/ls" ["ls"] (File "out") |}].
Proof. vm_compute; reflexivity. Qed.

(** The swap of standard output fails after the file has been opened:
    the error is reported and the program runs with its output on the
    terminal. *)
Example failed_swap_trace :
  let env := {| can_open := fun _ => true;
                dup2_ok := fun t => match t with
                                    | File _ => false
                                    | Terminal => true
                                    end;
                access_x := fun p => p =? "/bin/ls";
                chdir_ok := fun _ => true; fork_ok := true;
                exec_ok := fun p => p =? "/bin/ls";
                malloc_usable_size := glibc_usable_size |} in
  trace (final (run env [Some (ln "path /bin"); Some (ln "ls > out")]
                  (init ExecL)))
  = [Write Terminal prompt; Write Terminal prompt; Open "out"; Error;
     Fork {| c_cmdPath := "/bin/ls"; c_path := Some "/bin";
             c_end := Runs "/bin/ls" ["ls"] Terminal |}].
Proof. vm_compute; reflexivity. Qed.

(** * Further properties of the code *)

(** ** [getCommandFromPath] *)

Lemma last_slash_none (i l : Z) (s : string) :
  no_char "/" s = true -> last_slash i l s = l.
Proof.
  revert i l; induction s as [|c r IH]; intros i l H; [reflexivity|].
  simpl in *. apply andb_true_iff in H as [Hc Hr].
  apply negb_true_iff in Hc. rewrite Hc. now apply IH.
Qed.

Lemma last_slash_app (i l : Z) (a b : string) :
  last_slash i l (a ++ b) =
  last_slash (i + Z.of_nat (String.length a)) (last_slash i l a) b.
Proof.
  revert i l; induction a as [|c r IH]; intros i l.
  - simpl. now rewrite Z.add_0_r.
  - cbn [append last_slash String.length]. rewrite IH. f_equal. lia.
Qed.

Lemma substring_all (s : string) : substring 0 (String.length s) s = s.
Proof. induction s as [|c r IH]; simpl; [reflexivity|now rewrite IH]. Qed.

Lemma substring_skip (a b : string) :
  substring (String.length a) (String.length b) (a ++ b) = b.
Proof.
  induction a as [|c r IH]; simpl; [apply substring_all|exact IH].
Qed.

(** A name without a slash is returned as it is. *)
Lemma getCommandFromPath_plain (name : string) :
  no_char "/" name = true -> getCommandFromPath name = name.
Proof.
  intros H. unfold getCommandFromPath. now rewrite last_slash_none.
Qed.

(** What follows the last slash is returned. *)
Lemma getCommandFromPath_after_slash (dir name : string) :
  no_char "/" name = true ->
  getCommandFromPath (dir ++ String "/" name) = name.
Proof.
  intros H. unfold getCommandFromPath.
  rewrite last_slash_app. cbn [last_slash Ascii.eqb Bool.eqb].
  change (Ascii.eqb "/" "/") with true. cbv iota.
  rewrite last_slash_none by exact H.
  replace (0 + Z.of_nat (String.length dir) >? -1)%Z with true
    by (symmetry; apply Z.gtb_lt; lia).
  rewrite length_append. cbn [String.length].
  replace (Z.to_nat (0 + Z.of_nat (String.length dir) + 1))
    with (String.length (dir ++ "/")) by (rewrite length_append; simpl; lia).
  replace (Z.to_nat _) with (String.length name) by lia.
  replace (dir ++ String "/" name) with ((dir ++ "/") ++ name)
    by (now rewrite append_assoc).
  apply substring_skip.
Qed.

(** Every string is free of slashes or splits at its last slash. *)
Lemma split_last_slash (p : string) :
  no_char "/" p = true \/
  exists dir name, p = dir ++ String "/" name /\ no_char "/" name = true.
Proof.
  induction p as [|c r IH]; [now left|].
  destruct IH as [H|(dir & name & -> & H)].
  - destruct (Ascii.eqb c "/") eqn:E.
    + apply Ascii.eqb_eq in E. subst c. right. exists EmptyString, r. auto.
    + left. simpl. now rewrite E.
  - right. exists (String c dir), name. auto.
Qed.

Lemma last_is_slash_app (dir : string) : last_is_slash (dir ++ "/") = true.
Proof.
  induction dir as [|c r IH]; [reflexivity|].
  cbn [append]. destruct (r ++ "/") eqn:E; [destruct r; discriminate|].
  exact IH.
Qed.

(** X1.  [getCommandFromPath] cuts its argument after the last slash: the
    argument is a prefix, empty or ending with a slash, followed by the
    result, which has no slash. *)
Theorem getCommandFromPath_basename (p : string) :
  exists pre,
    p = pre ++ getCommandFromPath p /\
    no_char "/" (getCommandFromPath p) = true /\
    (pre = EmptyString \/ last_is_slash pre = true).
Proof.
  destruct (split_last_slash p) as [H|(dir & name & -> & H)].
  - exists EmptyString. rewrite getCommandFromPath_plain by exact H. auto.
  - exists (dir ++ "/"). rewrite getCommandFromPath_after_slash by exact H.
    rewrite append_assoc. repeat split; [exact H|].
    right. apply last_is_slash_app.
Qed.

(** ** Reading and recording a line *)

Lemma get_app_end (s : string) (c : ascii) (r : string) :
  String.get (String.length s) (s ++ String c r) = Some c.
Proof. induction s as [|x s IH]; simpl; [reflexivity|exact IH]. Qed.

Lemma substring_prefix (s t : string) :
  substring 0 (String.length s) (s ++ t) = s.
Proof.
  induction s as [|x s IH]; simpl; [now destruct t|now rewrite IH].
Qed.

Lemma get_last_char (s t : string) :
  s <> EmptyString ->
  String.get (String.length s - 1) (s ++ t) = last_char s.
Proof.
  induction s as [|x s IH]; intros H; [congruence|].
  destruct s as [|y s]; [reflexivity|].
  change (last_char (String x (String y s))) with (last_char (String y s)).
  rewrite <- IH by discriminate. simpl. now rewrite Nat.sub_0_r.
Qed.

Lemma strip_line_newline (s : string) :
  last_char s <> Some CR -> strip_line (s ++ newline) = s.
Proof.
  intros H. unfold strip_line, char_at, newline. cbv zeta.
  rewrite length_append. cbn [String.length].
  replace (String.length s + 1 - 1) with (String.length s) by lia.
  rewrite get_app_end. change (Ascii.eqb LF LF) with true. cbv iota.
  replace (String.length s + 1 - 2) with (String.length s - 1) by lia.
  destruct s as [|x s'] eqn:Es.
  - reflexivity.
  - rewrite <- Es in *.
    rewrite get_last_char by (subst; discriminate).
    replace (2 <=? String.length s + 1)%nat with true
      by (symmetry; apply Nat.leb_le; subst; simpl; lia).
    destruct (last_char s) as [c|] eqn:El.
    + destruct (Ascii.eqb c CR) eqn:Ec.
      * apply Ascii.eqb_eq in Ec. congruence.
      * simpl. apply substring_prefix.
    + simpl. apply substring_prefix.
Qed.

Lemma strip_line_crlf (s : string) : strip_line (s ++ crlf) = s.
Proof.
  unfold strip_line, char_at, crlf. cbv zeta.
  rewrite length_append. cbn [String.length].
  replace (String.length s + 2 - 1) with (String.length (s ++ String CR ""))
    by (rewrite length_append; simpl; lia).
  replace (s ++ String CR (String LF "")) with ((s ++ String CR "") ++ String LF "")
    by (now rewrite append_assoc).
  rewrite get_app_end. change (Ascii.eqb LF LF) with true. cbv iota.
  replace (String.length s + 2 - 2) with (String.length s) by lia.
  rewrite append_assoc. cbn [append].
  rewrite get_app_end. change (Ascii.eqb CR CR) with true.
  replace (2 <=? String.length s + 2)%nat with true
    by (symmetry; apply Nat.leb_le; lia).
  cbn [andb]. apply substring_prefix.
Qed.

Lemma no_char_neq_crlf (s : string) : no_char LF s = true -> s <> crlf.
Proof. intros H ->. discriminate. Qed.

Lemma last_char_in (c : ascii) (s : string) :
  no_char c s = true -> last_char s <> Some c.
Proof.
  induction s as [|x r IH]; [discriminate|].
  cbn [no_char]. intros H. apply andb_true_iff in H as [Hx Hr].
  destruct r as [|y r'].
  - simpl. intros E. inversion E; subst.
    rewrite Ascii.eqb_refl in Hx. discriminate.
  - exact (IH Hr).
Qed.

(** The entry recorded for a text ended by a newline. *)
Lemma new_entry_newline (s : string) :
  typed s ->
  new_entry (s ++ newline) =
    (if s =? EmptyString then {| cmd := " "; cmd_store := Literal |}
     else {| cmd := s; cmd_store := Malloc (String.length s) |}).
Proof.
  intros [Hlf Hcr].
  pose proof (strip_line_newline s Hcr) as H1.
  pose proof (no_char_neq_crlf s Hlf) as Hne.
  apply String.eqb_neq in Hne.
  unfold new_entry, blank_input, copy_size, newline_overwritten, char_at.
  cbv zeta.
  rewrite H1, Hne, length_append. change (String.length newline) with 1.
  replace (String.length s + 1 - 1) with (String.length s) by lia.
  unfold newline. rewrite get_app_end.
  change (Ascii.eqb LF LF) with true. cbv iota.
  destruct s as [|c r]; [reflexivity|].
  replace (String.length (String c r) + 1 =? 1)%nat with false
    by (symmetry; apply Nat.eqb_neq; simpl; lia).
  replace (String.length (String c r) + 1 =? 0)%nat with false
    by (symmetry; apply Nat.eqb_neq; simpl; lia).
  reflexivity.
Qed.

(** The entry recorded for a text ended by a carriage return and a
    newline. *)
Lemma new_entry_crlf (s : string) :
  typed s ->
  new_entry (s ++ crlf) = {| cmd := s; cmd_store := Malloc (String.length s) |}.
Proof.
  intros [Hlf Hcr].
  pose proof (strip_line_crlf s) as H2.
  pose proof (no_char_neq_crlf s Hlf) as Hne.
  apply String.eqb_neq in Hne.
  unfold new_entry, blank_input, copy_size, newline_overwritten, char_at.
  cbv zeta.
  rewrite H2, Hne, length_append. change (String.length crlf) with 2.
  replace (String.length s + 2 =? 1)%nat with false
    by (symmetry; apply Nat.eqb_neq; lia).
  replace (String.length s + 2 =? 0)%nat with false
    by (symmetry; apply Nat.eqb_neq; lia).
  replace (String.length s + 2 - 1) with (String.length (s ++ String CR ""))
    by (rewrite length_append; simpl; lia).
  unfold crlf.
  replace (s ++ String CR (String LF "")) with ((s ++ String CR "") ++ String LF "")
    by (now rewrite append_assoc).
  rewrite get_app_end. change (Ascii.eqb LF LF) with true. reflexivity.
Qed.

(** The entry recorded for a text read without a terminator. *)
Lemma new_entry_unterminated (s : string) :
  no_char LF s = true -> s <> EmptyString ->
  new_entry s = {| cmd := s; cmd_store := Malloc (String.length s - 1) |}.
Proof.
  intros Hlf Hs.
  pose proof (no_char_neq_crlf s Hlf) as Hne.
  apply String.eqb_neq in Hne.
  assert (match String.get (String.length s - 1) s with
          | Some c => Ascii.eqb c LF
          | None => false
          end = false) as Hlast.
  { pose proof (get_last_char s EmptyString Hs) as Hg.
    replace (s ++ EmptyString) with s in Hg
      by (clear; induction s as [|x r IH]; simpl; congruence).
    rewrite Hg.
    pose proof (last_char_in LF s Hlf) as Hl.
    destruct (last_char s) as [c|]; [|reflexivity].
    destruct (Ascii.eqb c LF) eqn:E; [|reflexivity].
    apply Ascii.eqb_eq in E. congruence. }
  assert (strip_line s = s) as Hstrip
    by (unfold strip_line, char_at; cbv zeta; now rewrite Hlast).
  unfold new_entry, blank_input, copy_size, newline_overwritten, char_at.
  cbv zeta. rewrite Hstrip, Hne, Hlast.
  destruct s as [|c r]; [congruence|].
  destruct r; reflexivity.
Qed.

Lemma new_entry_typed (s : string) :
  typed s -> new_entry (ln s) = entry_of s.
Proof. exact (new_entry_newline s). Qed.

(** X2.  A line is recorded and parsed as typed, without its terminator.
    For a text with no newline in it that does not end with a carriage
    return, the buffer handed to [strtok] after a newline, or a carriage
    return and a newline, has been read is the text itself.  The history
    entry is the text, copied into a block of as many bytes as the text
    has characters, whichever the terminator; for the empty text it is
    the string literal of one space after a bare newline, and the empty
    string in a block of no bytes after a carriage return and a newline.
    A text read without a terminator, at the end of the input, is copied
    into a block one byte smaller still.  The copy, with its terminating
    NUL, is one byte longer than the size asked for: it is written past
    the block exactly when the allocator has not provided that byte. *)
Theorem line_recorded_as_typed (env : os) (s : string) :
  no_char LF s = true ->
  last_char s <> Some CR ->
  strip_line (s ++ newline) = s /\
  strip_line (s ++ crlf) = s /\
  new_entry (s ++ newline) =
    (if s =? EmptyString then {| cmd := " "; cmd_store := Literal |}
     else {| cmd := s; cmd_store := Malloc (String.length s) |}) /\
  new_entry (s ++ crlf) = {| cmd := s; cmd_store := Malloc (String.length s) |} /\
  (s <> EmptyString ->
   new_entry s = {| cmd := s; cmd_store := Malloc (String.length s - 1) |}) /\
  copy_faults env {| cmd := s; cmd_store := Malloc (String.length s) |} =
    (if (String.length s + 1 <=? malloc_usable_size env (String.length s))%nat
     then []
     else [Heap_overflow (String.length s) (String.length s + 1)]).
Proof.
  intros Hlf Hcr.
  split; [exact (strip_line_newline s Hcr)|].
  split; [exact (strip_line_crlf s)|].
  split; [exact (new_entry_newline s (conj Hlf Hcr))|].
  split; [exact (new_entry_crlf s (conj Hlf Hcr))|].
  split; [exact (new_entry_unterminated s Hlf)|reflexivity].
Qed.

Lemma line_recorded_as_typed_witness :
  strip_line ("ls -l" ++ newline) = "ls -l" /\
  new_entry ("ls -l" ++ crlf) = {| cmd := "ls -l"; cmd_store := Malloc 5 |} /\
  copy_faults (friendly []) {| cmd := "ls -l"; cmd_store := Malloc 5 |} = [].
Proof.
  destruct (line_recorded_as_typed (friendly []) "ls -l" eq_refl
              ltac:(discriminate))
    as (H1 & _ & _ & H4 & _ & H6).
  repeat split; assumption.
Defined.

(** Under the GNU allocator the copy of a line of 24 characters, or of
    40, is written past its block. *)
Example copy_of_24_characters :
  copy_faults (friendly [])
    {| cmd := "echo 0123456789 01234567"; cmd_store := Malloc 24 |}
  = [Heap_overflow 24 25] /\
  faults (final (iteration (friendly []) (Some (ln "echo 0123456789 01234567"))
                   (init ExecL)))
  = [Heap_overflow 24 25] /\
  faults (final (iteration (friendly []) (Some (ln "echo 0123456789 0123456"))
                   (init ExecL)))
  = [].
Proof. vm_compute. repeat split. Qed.

(** ** The tokens of [strtok] *)

Lemma span_token_no_delim (d s : string) :
  no_delim d (fst (span_token d s)) = true.
Proof.
  induction s as [|c r IH]; [reflexivity|].
  cbn [span_token]. destruct (is_delim d c) eqn:E; [reflexivity|].
  destruct (span_token d r) as [p q]. cbn [fst] in *.
  cbn [no_delim]. now rewrite E, IH.
Qed.

Lemma strtok_some_word (d s t r : string) :
  strtok d s = (Some t, r) -> word d t.
Proof.
  intros H. split; [exact (strtok_some_nonempty d s t r H)|].
  destruct (strtok_some_inv d s t r H) as (p & c & q & s2 & _ & _ & Et & _).
  pose proof (span_token_no_delim d (String c q)) as Hn.
  now rewrite Et in Hn.
Qed.

Lemma strtok_all_fuel_words (d : string) (f : nat) (s : string) :
  Forall (word d) (strtok_all_fuel f d s).
Proof.
  revert s; induction f as [|f IH]; intros s; [constructor|].
  rewrite strtok_all_fuel_S.
  destruct (strtok d s) as [[t|] r] eqn:E; constructor.
  - exact (strtok_some_word d s t r E).
  - apply IH.
Qed.

(** Every token [strtok] returns is a word: it is not empty and holds
    none of the delimiters. *)
Lemma strtok_all_words (d s : string) : Forall (word d) (strtok_all d s).
Proof. apply strtok_all_fuel_words. Qed.

Lemma span_delims_word (d t rest : string) :
  word d t -> snd (span_delims d (t ++ rest)) = t ++ rest.
Proof.
  intros [Hne Hnd]. destruct t as [|c r]; [congruence|].
  cbn [append span_delims]. cbn [no_delim] in Hnd.
  apply andb_true_iff in Hnd as [Hc _]. apply negb_true_iff in Hc.
  now rewrite Hc.
Qed.

Lemma span_token_word (d t : string) (c : ascii) (rest : string) :
  no_delim d t = true -> is_delim d c = true ->
  span_token d (t ++ String c rest) = (t, String c rest).
Proof.
  intros Hnd Hc. induction t as [|x r IH].
  - cbn [append span_token]. now rewrite Hc.
  - cbn [no_delim] in Hnd. apply andb_true_iff in Hnd as [Hx Hr].
    apply negb_true_iff in Hx.
    cbn [append span_token]. now rewrite Hx, (IH Hr).
Qed.

Lemma span_token_word_end (d t : string) :
  no_delim d t = true -> span_token d t = (t, EmptyString).
Proof.
  intros Hnd. induction t as [|x r IH]; [reflexivity|].
  cbn [no_delim] in Hnd. apply andb_true_iff in Hnd as [Hx Hr].
  apply negb_true_iff in Hx.
  cbn [span_token]. now rewrite Hx, (IH Hr).
Qed.

(** A word followed by a delimiter is the next token. *)
Lemma strtok_word (d t : string) (c : ascii) (rest : string) :
  word d t -> is_delim d c = true ->
  strtok d (t ++ String c rest) = (Some t, rest).
Proof.
  intros Hw Hc. unfold strtok. rewrite (span_delims_word d t _ Hw).
  destruct Hw as [Hne Hnd].
  pose proof (span_token_word d t c rest Hnd Hc) as E.
  destruct t as [|x r]; [congruence|].
  cbn [append] in *. now rewrite E.
Qed.

Lemma strtok_word_end (d t : string) :
  word d t -> strtok d t = (Some t, EmptyString).
Proof.
  intros Hw. unfold strtok.
  pose proof (span_delims_word d t EmptyString Hw) as H.
  replace (t ++ EmptyString) with t in H
    by (clear; induction t as [|x r IH]; simpl; congruence).
  rewrite H. destruct Hw as [Hne Hnd].
  pose proof (span_token_word_end d t Hnd) as E.
  destruct t as [|x r]; [congruence|]. now rewrite E.
Qed.

Lemma strtok_all_join (d : string) (c : ascii) (ts : list string) :
  is_delim d c = true -> Forall (word d) ts ->
  strtok_all d (join c ts) = ts.
Proof.
  intros Hc Hw. induction Hw as [|t rest Ht Hrest IH]; [reflexivity|].
  destruct rest as [|t' rest'].
  - cbn [join]. now rewrite (strtok_all_some d t t _ (strtok_word_end d t Ht)).
  - change (join c (t :: t' :: rest'))
      with (t ++ String c (join c (t' :: rest'))).
    rewrite (strtok_all_some d _ t _ (strtok_word d t c _ Ht Hc)).
    now rewrite IH.
Qed.

Lemma no_delim_no_char (d : string) (c : ascii) (t : string) :
  is_delim d c = true -> no_delim d t = true -> no_char c t = true.
Proof.
  intros Hc. induction t as [|x r IH]; [reflexivity|].
  cbn [no_delim no_char]. intros H. apply andb_true_iff in H as [Hx Hr].
  rewrite (IH Hr), andb_true_r. apply negb_true_iff.
  destruct (Ascii.eqb x c) eqn:E; [|reflexivity].
  apply Ascii.eqb_eq in E. subst x. apply negb_true_iff in Hx. congruence.
Qed.

Lemma no_char_app (c : ascii) (a b : string) :
  no_char c (a ++ b) = no_char c a && no_char c b.
Proof.
  induction a as [|x r IH]; [reflexivity|].
  cbn [append no_char]. now rewrite IH, andb_assoc.
Qed.

Lemma no_char_join (d : string) (c sep : ascii) (ts : list string) :
  is_delim d c = true -> Ascii.eqb sep c = false ->
  Forall (word d) ts -> no_char c (join sep ts) = true.
Proof.
  intros Hc Hs Hw. induction Hw as [|t rest [_ Ht] Hrest IH]; [reflexivity|].
  destruct rest as [|t' rest'].
  - exact (no_delim_no_char d c t Hc Ht).
  - change (join sep (t :: t' :: rest'))
      with (t ++ String sep (join sep (t' :: rest'))).
    rewrite no_char_app. cbn [no_char].
    now rewrite (no_delim_no_char d c t Hc Ht), Hs, IH.
Qed.

(** X3.  Words typed with single spaces between them and ended by a
    newline, or by a carriage return and a newline, are the tokens the
    parsing loop gets, in order. *)
Theorem typed_words_are_the_tokens (ts : list string) :
  Forall (word whiteSpace) ts ->
  strtok_all whiteSpace (strip_line (join " " ts ++ newline)) = ts /\
  strtok_all whiteSpace (strip_line (join " " ts ++ crlf)) = ts.
Proof.
  intros Hw.
  assert (last_char (join " " ts) <> Some CR) as Hcr.
  { apply last_char_in.
    exact (no_char_join whiteSpace CR " " ts eq_refl eq_refl Hw). }
  rewrite strip_line_newline by exact Hcr. rewrite strip_line_crlf.
  split; apply strtok_all_join; solve [reflexivity|exact Hw].
Qed.

Lemma typed_words_are_the_tokens_witness :
  strtok_all whiteSpace (strip_line (join " " ["ls"; "-l"; "/tmp"] ++ newline))
  = ["ls"; "-l"; "/tmp"].
Proof.
  refine (proj1 (typed_words_are_the_tokens ["ls"; "-l"; "/tmp"] _)).
  repeat constructor; discriminate.
Defined.

(** ** Lines without [>], in general *)

Lemma open_redirect_ok (env : os) (st : shell) :
  args_ok st -> args_ok (open_redirect env st).
Proof.
  unfold args_ok, arg. now rewrite open_redirect_args.
Qed.

Lemma set_arg_null_ok (i : nat) (st : shell) :
  args_ok st -> args_ok (set_arg i None st).
Proof.
  intros (Hl & H4 & H5). unfold args_ok, arg, set_arg in *.
  cbn [args set_args]. rewrite upd_length. split; [exact Hl|].
  destruct (Nat.eq_dec i 4) as [E4|N4]; destruct (Nat.eq_dec i 5) as [E5|N5];
    subst; try lia; rewrite ?nth_upd_same, ?nth_upd_other by lia; auto.
Qed.

(** Parsing keeps the six slots and never fills the last two. *)
Lemma parse_from_ok (env : os) (n i : nat) (line : string) (st : shell) :
  args_ok st -> args_ok (parse_from env n i line st).
Proof.
  revert i st; induction n as [|n IH]; intros i st Hok; [exact Hok|].
  cbn [parse_from].
  destruct (strtok whiteSpace _) as [[tok|] r].
  - destruct (tok =? ">").
    + destruct (i <? MAX_ARGS)%nat.
      * apply IH, set_arg_null_ok, open_redirect_ok. exact Hok.
      * apply open_redirect_ok. exact Hok.
    + destruct (i <? MAX_ARGS)%nat eqn:Ei; apply IH; [|exact Hok].
      apply set_arg_ok; [apply Nat.ltb_lt; exact Ei|exact Hok].
  - destruct (i =? 0)%nat.
    + apply (set_arg_null_ok i (set_saved r st)). exact Hok.
    + apply IH. apply (set_arg_null_ok i (set_saved r st)). exact Hok.
Qed.

(** With no [>] among the tokens taken, the descriptors are left alone. *)
Lemma parse_from_plain_fds (env : os) (n i : nat) (line : string)
    (st : shell) :
  ~ In ">" (firstn n (strtok_all whiteSpace (cursor i line st))) ->
  0 < i ->
  let s := parse_from env n i line st in
  temp_fd s = temp_fd st /\ output_fd s = output_fd st.
Proof.
  revert i st; induction n as [|n IH]; intros i st Hno Hi; [now split|].
  cbn [parse_from]. fold (cursor i line st).
  assert ((i =? 0)%nat = false) as Hi0 by (apply Nat.eqb_neq; lia).
  destruct (strtok whiteSpace (cursor i line st)) as [[tok|] r] eqn:E.
  - rewrite (strtok_all_some _ _ _ _ E) in *. cbn [firstn] in Hno.
    assert (tok <> ">") as Hne by (intros ->; apply Hno; now left).
    rewrite (proj2 (String.eqb_neq tok ">") Hne).
    assert (forall s, temp_fd s = temp_fd st -> output_fd s = output_fd st ->
              saved s = r ->
              let s' := parse_from env n (S i) line s in
              temp_fd s' = temp_fd st /\ output_fd s' = output_fd st) as Hstep.
    { intros s S1 S2 S3.
      destruct (IH (S i) s) as (I1 & I2);
        [unfold cursor; simpl; rewrite S3; intros Hin; apply Hno; now right
        |lia|].
      cbv zeta. now rewrite I1, I2. }
    destruct (i <? MAX_ARGS)%nat; apply Hstep; reflexivity.
  - rewrite Hi0. rewrite (strtok_none _ _ _ E).
    destruct (IH (S i) (set_arg i None (set_saved EmptyString st)))
      as (I1 & I2); [unfold cursor; simpl; now destruct n|lia|].
    cbv zeta. now rewrite I1, I2.
Qed.

(** With no [>] among the tokens taken, the slots below the fifth hold the
    tokens in order, and [NULL] once the tokens have run out. *)
Lemma parse_from_plain_args (env : os) (n i j : nat) (line : string)
    (st : shell) :
  ~ In ">" (firstn n (strtok_all whiteSpace (cursor i line st))) ->
  0 < i -> List.length (args st) = 6 ->
  i <= j -> j < 4 -> j < i + n ->
  arg j (parse_from env n i line st) =
  nth_error (strtok_all whiteSpace (cursor i line st)) (j - i).
Proof.
  revert i st; induction n as [|n IH]; intros i st Hno Hi Hl Hij Hj4 Hjn;
    [lia|].
  assert ((i =? 0)%nat = false) as Hi0 by (apply Nat.eqb_neq; lia).
  assert ((i <? MAX_ARGS)%nat = true) as Hi4
    by (apply Nat.ltb_lt; unfold MAX_ARGS; lia).
  cbn [parse_from]. fold (cursor i line st).
  destruct (strtok whiteSpace (cursor i line st)) as [[tok|] r] eqn:E.
  - rewrite (strtok_all_some _ _ _ _ E) in *. cbn [firstn] in Hno.
    assert (tok <> ">") as Hne by (intros ->; apply Hno; now left).
    rewrite (proj2 (String.eqb_neq tok ">") Hne), Hi4.
    destruct (Nat.eq_dec j i) as [->|Hne'].
    + rewrite parse_from_arg_before by lia. rewrite Nat.sub_diag.
      unfold arg, set_arg. cbn [args set_args set_saved nth_error].
      apply nth_upd_same. lia.
    + rewrite IH; try lia.
      * unfold cursor. cbn [Nat.eqb saved set_arg set_args set_saved].
        replace (j - i) with (S (j - S i)) by lia. reflexivity.
      * unfold cursor. cbn [Nat.eqb saved set_arg set_args set_saved].
        intros Hin. apply Hno. now right.
      * unfold set_arg. cbn [args set_args set_saved].
        now rewrite upd_length.
  - rewrite (strtok_all_none _ _ _ E) in *. rewrite Hi0.
    rewrite (strtok_none _ _ _ E).
    replace (nth_error (@nil string) (j - i)) with (@None string)
      by (now destruct (j - i)).
    destruct (Nat.eq_dec j i) as [->|Hne'].
    + rewrite parse_from_arg_before by lia.
      unfold arg, set_arg. cbn [args set_args set_saved].
      apply nth_upd_same. lia.
    + rewrite IH; try lia.
      * unfold cursor. cbn [Nat.eqb saved set_arg set_args set_saved].
        rewrite strtok_all_empty. now destruct (j - S i).
      * unfold cursor. cbn [Nat.eqb saved set_arg set_args set_saved].
        rewrite strtok_all_empty. now destruct n.
      * unfold set_arg. cbn [args set_args set_saved].
        now rewrite upd_length.
Qed.



Lemma iteration_parsed (env : os) (raw : string) (st : shell) :
  iteration env (Some raw) st =
  match arg 0 (parsed env raw st) with
  | None => Next (parsed env raw st)
  | Some name =>
      match dispatch env name (parsed env raw st) with
      | Through st' => Next (restore_stdout env st')
      | Skip st' => Next st'
      | Exit code st' => Exited code st'
      end
  end.
Proof. reflexivity. Qed.


(** ** The built-in commands, from the line typed *)

Lemma dispatch_cd (env : os) (st : shell) :
  dispatch env "cd" st =
  match arg 1 st, arg 2 st with
  | Some dir, None =>
      if chdir_ok env dir then Through (emit (Chdir dir) st)
      else Through (djsh_error st)
  | _, _ => Through (djsh_error st)
  end.
Proof. reflexivity. Qed.

Lemma dispatch_path (env : os) (st : shell) :
  dispatch env "path" st =
  match arg 1 st with
  | None =>
      Through (write_stdout newline
                 match path st with
                 | Some p => write_stdout p st
                 | None => st
                 end)
  | Some a => Through (set_path (Some a) st)
  end.
Proof. reflexivity. Qed.





(** X6.  A line without tokens, blank or made of white space only, makes
    the shell report the error once and runs nothing.  As long as
    recording the line does no harm to the memory (the copy fits its
    block and the entry dropped, if any, does not hold the string
    literal), the line is recorded, no command is dispatched and the end
    of the loop body is not reached, so that standard output, the search
    path and the [redirect] flag stay as they are.  When the entry
    dropped holds the string literal, as it does when the line follows 50
    blank ones, the literal is handed to [free]; when the copy does not
    fit, it is written past its block.  The entry recorded for white
    space typed and ended by a newline is that white space, and the
    string literal of one space when nothing was typed. *)
Theorem tokenless_line_reports_error (env : os) (raw : string) (st : shell) :
  hist_ok st ->
  strtok_all whiteSpace (strip_line raw) = [] ->
  (forall s, typed s -> raw = s ++ newline ->
     new_entry raw =
     if s =? EmptyString then {| cmd := " "; cmd_store := Literal |}
     else {| cmd := s; cmd_store := Malloc (String.length s) |}) /\
  (evicts_literal st = false -> entry_fits env (new_entry raw) = true ->
   exists s',
     iteration env (Some raw) st = Next s' /\
     trace s' = (trace st ++ [Write (fd1 st) prompt; Error])%list /\
     head s' = last_n 50 (head st ++ [new_entry raw])%list /\
     faults s' = faults st /\
     fd1 s' = fd1 st /\ path s' = path st /\ redirect s' = redirect st) /\
  (evicts_literal st = true ->
   In Free_literal (faults (final (iteration env (Some raw) st)))) /\
  (entry_fits env (new_entry raw) = false ->
   In (Heap_overflow (copy_size raw) (String.length (strip_line raw) + 1))
      (faults (final (iteration env (Some raw) st)))).
Proof.
  intros Hok Htok.
  assert (hist_ok (write_stdout prompt st)) as Hok' by exact Hok.
  split; [|split; [|split]].
  - intros s Hs ->. now apply new_entry_newline.
  - intros He Hf. unfold iteration, execute, parse_args.
    cbn [MAX_ARGS Nat.add parse_from Nat.eqb].
    rewrite (strtok_all_nil_inv _ _ Htok).
    set (st1 := record_history env raw (write_stdout prompt st)).
    destruct (record_history_fields env raw st) as (T1 & F1 & R1 & _ & P1 & _).
    fold st1 in T1, F1, R1, P1.
    destruct (record_history_ok env raw (write_stdout prompt st) Hok')
      as [_ Hh].
    pose proof (record_history_sound env raw (write_stdout prompt st)
                  Hok' He Hf) as Hfs.
    fold st1 in Hh, Hfs.
    assert (arg 0 (djsh_error (set_arg 0 None (set_saved EmptyString st1)))
            = None) as ->.
    { unfold arg, set_arg.
      cbn [args djsh_error emit set_trace set_args set_saved].
      destruct (args st1); reflexivity. }
    eexists. split; [reflexivity|].
    cbn [trace head faults fd1 path redirect djsh_error emit set_trace set_arg
         set_args set_saved].
    rewrite T1, F1, R1, P1, <- app_assoc. repeat split; assumption.
  - intros He. destruct (iteration_faults env raw st Hok) as (fs & -> & _).
    rewrite He. rewrite !in_app_iff. right. left. right. now left.
  - intros Hf. destruct (iteration_faults env raw st Hok) as (fs & -> & _).
    rewrite !in_app_iff. right. left. left.
    unfold entry_fits, copy_faults, store_faults, new_entry in *.
    destruct (blank_input raw); cbn [cmd cmd_store] in *; [discriminate|].
    rewrite Hf. now left.
Qed.

Lemma tokenless_line_reports_error_witness :
  exists s',
    iteration (friendly []) (Some (ln "   ")) (init ExecL) = Next s' /\
    trace s' = [Write Terminal prompt; Error] /\
    head s' = [{| cmd := "   "; cmd_store := Malloc 3 |}] /\
    faults s' = [].
Proof.
  destruct (tokenless_line_reports_error (friendly []) (ln "   ")
              (init ExecL) (init_hist_ok ExecL) eq_refl)
    as (_ & H & _).
  destruct (H eq_refl eq_refl) as (s' & H1 & H2 & H3 & H4 & _).
  exists s'. repeat split; assumption.
Defined.

(** The 51st blank line in a row drops the entry of the first: its text
    is the string literal, which is handed to [free]. *)
Example blank_lines_free_the_literal :
  faults (final (run (friendly []) (repeat (Some newline) 50) (init ExecL)))
  = [] /\
  faults (final (run (friendly []) (repeat (Some newline) 51) (init ExecL)))
  = [Free_literal].
Proof. vm_compute. split; reflexivity. Qed.



(** ** Launching a program *)

(** X8.  The two invocation modes hand the program the same arguments:
    in a state with the six slots, the last two [NULL], and the command
    name in the first, the argument vector is the name, cut after its last
    slash in the [execlp] mode and as typed in the [execvp] mode, followed
    by [args[1]], [args[2]], [args[3]] up to the first [NULL]. *)
Theorem exec_modes_pass_same_arguments (st : shell) (name : string) :
  args_ok st ->
  arg 0 st = Some name ->
  exec_argv st name =
  match execType st with
  | ExecL => getCommandFromPath name
  | ExecV => name
  end :: until_null [arg 1 st; arg 2 st; arg 3 st].
Proof.
  intros (Hl & H4 & H5) H0. unfold exec_argv, arg in *.
  rewrite (six_slots (args st) None Hl) in *. cbn [nth] in *.
  rewrite H0, H4, H5.
  destruct (execType st); cbn [until_null];
    repeat match goal with
           | |- context [match ?x with Some _ => _ | None => _ end] =>
               destruct x
           end; reflexivity.
Qed.

Lemma exec_modes_pass_same_arguments_witness :
  exec_argv (parse_args (friendly []) "/bin/ls -l" (init ExecL)) "/bin/ls"
  = ["ls"; "-l"].
Proof.
  refine (exec_modes_pass_same_arguments
            (parse_args (friendly []) "/bin/ls -l" (init ExecL)) "/bin/ls"
            _ eq_refl).
  repeat split.
Defined.

Lemma no_char_candidate (cmd dir : string) :
  no_char "/" (candidate cmd dir) = false.
Proof.
  unfold candidate. destruct (last_is_slash dir) eqn:E.
  - rewrite no_char_app.
    assert (no_char "/" dir = false) as ->; [|reflexivity].
    induction dir as [|c r IH]; [discriminate|].
    destruct r as [|c' r'].
    + simpl in E. simpl. now rewrite E.
    + change (no_char "/" (String c (String c' r')))
        with (negb (Ascii.eqb c "/") && no_char "/" (String c' r')).
      rewrite (IH E). apply andb_false_r.
  - rewrite !no_char_app. simpl. now rewrite andb_false_r.
Qed.

Lemma candidate_not_NOT_FOUND (cmd dir : string) :
  candidate cmd dir <> NOT_FOUND.
Proof.
  intros H. pose proof (no_char_candidate cmd dir) as Hc.
  rewrite H in Hc. discriminate.
Qed.

Lemma resolve_some (exe : string -> bool) (cmd : string) (l : list string)
    (c : string) :
  resolve exe cmd l = Some c ->
  exe c = true /\ exists dir, In dir l /\ c = resolve_candidate dir cmd.
Proof.
  induction l as [|e l IH]; [discriminate|]. cbn [resolve].
  destruct (exe (resolve_candidate e cmd)) eqn:E.
  - intros H; inversion H; subst. split; [exact E|]. exists e. split; auto.
    now left.
  - intros H. destruct (IH H) as (H1 & dir & H2 & H3).
    split; [exact H1|]. exists dir. split; [now right|exact H3].
Qed.

Lemma resolve_none (exe : string -> bool) (cmd : string) (l : list string) :
  resolve exe cmd l = None <->
  forall dir, In dir l -> exe (resolve_candidate dir cmd) = false.
Proof.
  induction l as [|e l IH]; cbn [resolve].
  - split; [intros _ dir []|reflexivity].
  - destruct (exe (resolve_candidate e cmd)) eqn:E.
    + split; [discriminate|]. intros H. rewrite (H e) in E by now left.
      discriminate.
    + rewrite IH. split.
      * intros H dir [<-|Hin]; [exact E|now apply H].
      * intros H dir Hin. apply H. now right.
Qed.

(** X9.  While every candidate fits the block it is built in,
    [checkPath] returns the string [NOT_FOUND] exactly when no directory
    it goes through gives an executable candidate, and otherwise an
    executable candidate built from one of them.  The directories are the
    non-empty colon-separated pieces of the path, or, when no path is
    set, of the text [strtok] has left of the input line. *)
Theorem checkPath_sound_and_complete (env : os) (cmd : string)
    (path : option string) (sv : string) :
  let dirs := path_entries (match path with Some p => p | None => sv end) in
  (forall dir, In dir dirs -> curPath_fits env cmd dir = true) ->
  exists r : string,
    checkPath env cmd path sv = Returns r /\
    (r = NOT_FOUND <->
     forall dir, In dir dirs -> access_x env (candidate cmd dir) = false) /\
    (r <> NOT_FOUND ->
     access_x env r = true /\
     exists dir, In dir dirs /\ r = candidate cmd dir).
Proof.
  intros dirs Hfit. unfold checkPath.
  rewrite checkPath_resolve
    by (rewrite strtok_all_path_entries; exact Hfit).
  rewrite strtok_all_path_entries. fold dirs.
  eexists. split; [reflexivity|].
  destruct (resolve (access_x env) cmd dirs) as [c|] eqn:E.
  - destruct (resolve_some _ _ _ _ E) as (Hc & dir & Hin & ->).
    rewrite <- candidate_spec in *. split.
    + split.
      * intros H. now apply candidate_not_NOT_FOUND in H.
      * intros H. rewrite (H dir Hin) in Hc. discriminate.
    + intros _. split; [exact Hc|]. now exists dir.
  - split; [|congruence]. split; [|reflexivity].
    intros _ dir Hin. rewrite candidate_spec.
    now apply (proj1 (resolve_none _ _ _) E).
Qed.

Lemma checkPath_sound_and_complete_witness :
  exists r : string,
    checkPath (friendly ["/bin/ls"]) "ls" (Some "/usr/bin:/bin") EmptyString
    = Returns r /\
    (r = NOT_FOUND <->
     forall dir, In dir ["/usr/bin"; "/bin"] ->
       access_x (friendly ["/bin/ls"]) (candidate "ls" dir) = false) /\
    (r <> NOT_FOUND ->
     access_x (friendly ["/bin/ls"]) r = true /\
     exists dir, In dir ["/usr/bin"; "/bin"] /\ r = candidate "ls" dir).
Proof.
  refine (checkPath_sound_and_complete (friendly ["/bin/ls"]) "ls"
            (Some "/usr/bin:/bin") EmptyString _).
  intros dir [<-|[<-|[]]]; reflexivity.
Defined.

Lemma until_null_first_three (rest : list string) :
  until_null [nth_error rest 0; nth_error rest 1; nth_error rest 2]
  = firstn 3 rest.
Proof. destruct rest as [|a [|b [|c rest]]]; reflexivity. Qed.

Lemma parsed_ok (env : os) (raw : string) (st : shell) :
  args_ok st -> args_ok (parsed env raw st).
Proof.
  intros Hok. unfold parsed, parse_args. apply parse_from_ok.
  destruct (record_history_fields env raw st) as (_ & _ & _ & _ & _ & _ & A).
  unfold args_ok, arg in *. now rewrite A.
Qed.







(** ** What every run keeps *)

Lemma iteration_keeps (env : os) (input : option string) (st : shell) :
  args_ok st -> hist_ok st ->
  let s' := final (iteration env input st) in
  args_ok s' /\ hist_ok s' /\ execType s' = execType st.
Proof.
  intros Ha Hh.
  destruct input as [raw|];
    [|split; [exact Ha|split; [exact Hh|reflexivity]]].
  destruct (iteration_hist env raw st Hh) as (Hh' & _ & _).
  cbv zeta. split; [|split; [exact Hh'|]].
  - rewrite iteration_parsed.
    pose proof (parsed_ok env raw st Ha) as Hp.
    destruct (arg 0 (parsed env raw st)) as [name|]; [|exact Hp].
    destruct (dispatch_keeps env name (parsed env raw st)) as (_ & _ & Da & _).
    destruct (dispatch env name (parsed env raw st)) as [s|s|c s];
      cbn [final flow_state] in *.
    + destruct (restore_stdout_keeps env s) as (_ & _ & Ra & _).
      unfold args_ok, arg in *. now rewrite Ra, Da.
    + unfold args_ok, arg in *. now rewrite Da.
    + unfold args_ok, arg in *. now rewrite Da.
  - unfold iteration.
    destruct (execute_keeps env (strip_line raw)
                (record_history env raw (write_stdout prompt st)))
      as (_ & _ & _ & Ht).
    rewrite Ht.
    now destruct (record_history_fields env raw st) as (_ & _ & _ & _ & _ & X & _).
Qed.

(** X12.  In every state a run reaches, the shell having exited or not,
    the argument array has its six slots with the last two [NULL], the
    history counter equals the length of the list, which is at most 50,
    and the invocation mode is the one the run started with. *)
Theorem run_keeps_invariants (env : os) (inputs : list (option string))
    (st : shell) :
  args_ok st -> hist_ok st ->
  let s' := final (run env inputs st) in
  args_ok s' /\ hist_ok s' /\ execType s' = execType st.
Proof.
  revert st; induction inputs as [|x inputs IH]; intros st Ha Hh;
    [split; [exact Ha|split; [exact Hh|reflexivity]]|].
  destruct (iteration_keeps env x st Ha Hh) as (Ia & Ih & It).
  cbn [run]. destruct (iteration env x st) as [s1|c s1]; cbn [final] in *.
  - destruct (IH s1 Ia Ih) as (Ja & Jh & Jt). cbv zeta.
    repeat split; try apply Ja; try apply Jh. congruence.
  - repeat split; try apply Ia; try apply Ih. exact It.
Qed.

Lemma run_keeps_invariants_witness :
  let s' := final (run (friendly ["/bin/ls"])
                     [Some (ln "path /bin"); Some (ln "ls a b c d e > f");
                      None; Some (ln "exit")]
                     (init ExecV)) in
  args_ok s' /\ hist_ok s' /\ execType s' = ExecV.
Proof.
  refine (run_keeps_invariants (friendly ["/bin/ls"]) _ (init ExecV) _ _).
  - repeat split.
  - apply init_hist_ok.
Defined.

Lemma dispatch_keeps_path (env : os) (name : string) (st : shell) :
  name <> "path" ->
  path (flow_state (dispatch env name st)) = path st.
Proof.
  intros Hne. apply String.eqb_neq in Hne. unfold dispatch. rewrite Hne.
  destruct (name =? "exit").
  { destruct (strtok whiteSpace (saved st)) as [[t|] r]; reflexivity. }
  destruct (name =? "cd").
  { destruct (arg 1 st) as [dir|]; [destruct (arg 2 st)|];
      [|destruct (chdir_ok env dir)|]; reflexivity. }
  destruct (name =? "history").
  { destruct (arg 1 st) as [a|].
    - destruct ((atoi a <? 0)%Z || (atoi a >? 50)%Z); [reflexivity|].
      cbn [flow_state]. rewrite print_entries_eq.
      now destruct (skip_loop_state (Z.to_nat (numHistory st)) 0
                      (numHistory st) (atoi a) (head st) st) as [fs ->].
    - cbn [flow_state]. now rewrite print_entries_eq. }
  destruct (fork_ok env); reflexivity.
Qed.

Lemma parse_from_S (env : os) (n i : nat) (line : string) (st : shell) :
  parse_from env (S n) i line st =
  let (nextToken, r) := strtok whiteSpace (cursor i line st) in
  let st := set_saved r st in
  match nextToken with
  | Some tok =>
      if tok =? ">" then
        let st := open_redirect env st in
        if (i <? MAX_ARGS)%nat
        then parse_from env n (S i) line (set_arg i None st)
        else st
      else if (i <? MAX_ARGS)%nat
      then parse_from env n (S i) line (set_arg i (Some tok) st)
      else parse_from env n (S i) line st
  | None =>
      let st := set_arg i None st in
      if (i =? 0)%nat then djsh_error st
      else parse_from env n (S i) line st
  end.
Proof. reflexivity. Qed.

(** The first slot after parsing is the first token, or [NULL] when the
    line has no token or starts with [>]. *)
Lemma parsed_first_slot (env : os) (raw : string) (st : shell)
    (name : string) :
  List.length (args st) = 6 ->
  arg 0 (parsed env raw st) = Some name ->
  exists rest, strtok_all whiteSpace (strip_line raw) = name :: rest.
Proof.
  intros Hl. unfold parsed.
  set (st1 := record_history env raw (write_stdout prompt st)).
  assert (List.length (args st1) = 6) as L1.
  { destruct (record_history_fields env raw st) as (_ & _ & _ & _ & _ & _ & A).
    fold st1 in A. now rewrite A. }
  unfold parse_args. cbn [MAX_ARGS Nat.add]. rewrite parse_from_S.
  unfold cursor. cbn [Nat.eqb].
  destruct (strtok whiteSpace (strip_line raw)) as [[tok|] r] eqn:E.
  - rewrite (strtok_all_some _ _ _ _ E).
    destruct (tok =? ">") eqn:Et; cbn [Nat.ltb Nat.leb MAX_ARGS];
      rewrite parse_from_arg_before by lia;
      unfold arg, set_arg; cbn [args set_args set_saved];
      rewrite ?open_redirect_args; cbn [args set_saved];
      rewrite nth_upd_same by lia; intros H; inversion H; subst.
    now exists (strtok_all whiteSpace r).
  - unfold arg, set_arg. cbn [args djsh_error emit set_trace set_args set_saved].
    rewrite nth_upd_same by lia. discriminate.
Qed.

(** X13.  Only the [path] built-in changes the search path: an iteration
    whose line does not start with the token [path], or in which the read
    fails, leaves it as it is, whatever the line runs or redirects. *)
Theorem only_path_changes_the_path (env : os) (input : option string)
    (st : shell) :
  List.length (args st) = 6 ->
  (forall raw rest,
     input = Some raw ->
     strtok_all whiteSpace (strip_line raw) <> "path" :: rest) ->
  path (final (iteration env input st)) = path st.
Proof.
  intros Hl Hnp. destruct input as [raw|]; [|reflexivity].
  rewrite iteration_parsed.
  assert (path (parsed env raw st) = path st) as Hp.
  { unfold parsed, parse_args.
    destruct (parse_from_frame env (MAX_ARGS + 2) 0 (strip_line raw)
                (record_history env raw (write_stdout prompt st)))
      as (_ & _ & _ & -> & _).
    now destruct (record_history_fields env raw st) as (_ & _ & _ & _ & P & _). }
  destruct (arg 0 (parsed env raw st)) as [name|] eqn:A0; [|exact Hp].
  destruct (parsed_first_slot env raw st name Hl A0) as (rest & Htok).
  assert (name <> "path") as Hne
    by (intros ->; exact (Hnp raw rest eq_refl Htok)).
  pose proof (dispatch_keeps_path env name (parsed env raw st) Hne) as Hd.
  destruct (dispatch env name (parsed env raw st)) as [s|s|c s];
    cbn [final flow_state] in *; try congruence.
  destruct (restore_stdout_keeps env s) as (_ & _ & _ & _ & Rp & _).
  congruence.
Qed.

Lemma only_path_changes_the_path_witness :
  let env := friendly ["/bin/ls"] in
  let st := final (run env [Some (ln "path /bin")] (init ExecL)) in
  path (final (iteration env (Some (ln "cd /tmp > out")) st)) = Some "/bin".
Proof.
  intros env st.
  refine (only_path_changes_the_path env (Some (ln "cd /tmp > out")) st
            eq_refl _).
  intros raw rest H. inversion H; subst. vm_compute. discriminate.
Defined.

(** ** The history log, from the lines typed *)

Lemma run_cons_next (env : os) (x : option string)
    (rest : list (option string)) (st st' : shell) :
  run env (x :: rest) st = Next st' ->
  exists st1, iteration env x st = Next st1 /\ run env rest st1 = Next st'.
Proof.
  cbn [run]. destruct (iteration env x st) as [st1|c st1]; [|discriminate].
  intros H. now exists st1.
Qed.

Lemma run_app_next (env : os) (a b : list (option string)) (st st' : shell) :
  run env (a ++ b) st = Next st' ->
  exists st1, run env a st = Next st1 /\ run env b st1 = Next st'.
Proof.
  rewrite run_app. destruct (run env a st) as [st1|c st1]; [|discriminate].
  intros H. now exists st1.
Qed.

(** The command of a typed line is its first word. *)
Lemma first_token_typed (env : os) (s : string) (st : shell) (name : string) :
  typed s -> List.length (args st) = 6 ->
  arg 0 (parsed env (ln s) st) = Some name -> first_token s = Some name.
Proof.
  intros [_ Hcr] Hl H0.
  destruct (parsed_first_slot env (ln s) st name Hl H0) as (rest & Htok).
  unfold ln in Htok. rewrite (strip_line_newline s Hcr) in Htok.
  unfold first_token. now rewrite Htok.
Qed.

(** One typed line: what is recorded, and the faults. *)
Lemma iteration_typed (env : os) (s : string) (st : shell) :
  typed s -> args_ok st -> hist_ok st ->
  let s' := final (iteration env (Some (ln s)) st) in
  args_ok s' /\ hist_ok s' /\
  head s' = last_n 50 (head st ++ [entry_of s])%list /\
  exists fs,
    faults s' =
    (faults st ++ (copy_faults env (entry_of s)
                   ++ if evicts_literal st then [Free_literal] else [])
       ++ fs)%list /\
    (first_token s <> Some "history" -> fs = []).
Proof.
  intros Ht Ha Hh.
  destruct (iteration_keeps env (Some (ln s)) st Ha Hh) as (Ka & Kh & _).
  destruct (iteration_hist env (ln s) st Hh) as (_ & Hd & _).
  destruct (iteration_faults env (ln s) st Hh) as (fs & Hf & Hnil).
  rewrite (new_entry_typed s Ht) in Hd, Hf.
  cbv zeta. split; [exact Ka|]. split; [exact Kh|]. split; [exact Hd|].
  exists fs. split; [exact Hf|].
  intros Hne. apply Hnil. intros H0. apply Hne.
  exact (first_token_typed env s st "history" Ht (proj1 Ha) H0).
Qed.

(** The log after the lines typed, and the faults so far. *)
Lemma run_typed (env : os) (texts : list string) (st0 st : shell) :
  Forall typed texts -> args_ok st0 -> hist_ok st0 ->
  run env (map (fun s => Some (ln s)) texts) st0 = Next st ->
  args_ok st /\ hist_ok st /\
  head st = last_n 50 (head st0 ++ map entry_of texts)%list /\
  exists fs, faults st = (faults st0 ++ fs)%list.
Proof.
  intros Ht. revert st0.
  induction Ht as [|s texts Hs Ht IH]; intros st0 Ha Hh Hrun.
  - cbn in Hrun. inversion Hrun; subst. split; [exact Ha|].
    split; [exact Hh|]. split.
    + rewrite app_nil_r. symmetry. apply last_n_all.
      destruct Hh as [_ Hl]. unfold hist in Hl.
      now rewrite length_map in Hl.
    + exists []. now rewrite app_nil_r.
  - cbn [map] in Hrun.
    destruct (run_cons_next _ _ _ _ _ Hrun) as (st1 & H1 & H2).
    destruct (iteration_typed env s st0 Hs Ha Hh)
      as (Ka & Kh & Kd & fs & Kf & _).
    rewrite H1 in Ka, Kh, Kd, Kf. cbn [final] in Ka, Kh, Kd, Kf.
    destruct (IH st1 Ka Kh H2) as (Ja & Jh & Jd & gs & Jf).
    split; [exact Ja|]. split; [exact Jh|]. split.
    + rewrite Jd, Kd, last_n_last_n_app, <- app_assoc. reflexivity.
    + eexists. rewrite Jf, Kf, <- !app_assoc. reflexivity.
Qed.

Lemma entry_of_literal (s : string) :
  cmd_store (entry_of s) = Literal <-> s = EmptyString.
Proof.
  unfold entry_of. destruct (s =? EmptyString) eqn:E.
  - apply String.eqb_eq in E. now split.
  - apply String.eqb_neq in E. split; [discriminate|contradiction].
Qed.

(** The entry about to be dropped holds the string literal exactly when
    the line typed 50 lines ago was empty. *)
Lemma evicts_literal_typed (st : shell) (texts : list string) :
  hist_ok st -> head st = last_n 50 (map entry_of texts) ->
  evicts_literal st = true <->
  50 <= List.length texts /\
  nth_error texts (List.length texts - 50) = Some EmptyString.
Proof.
  intros [Hn _] Hd. unfold hist in Hn. rewrite length_map, Hd in Hn.
  rewrite last_n_length, length_map in Hn.
  unfold evicts_literal. rewrite Hd. unfold last_n.
  rewrite length_map, skipn_map, andb_true_iff, Z.leb_le.
  rewrite <- hd_error_skipn.
  destruct (skipn (List.length texts - 50) texts) as [|x r] eqn:E;
    cbn [map hd_error].
  - split; [intros [_ H]; discriminate|intros [_ H]; discriminate].
  - pose proof (entry_of_literal x) as Hx.
    destruct (entry_of x) as [c [|size]]; cbn [cmd_store] in Hx.
    + split.
      * intros [H _]. split; [lia|]. f_equal. now apply Hx.
      * intros [H _]. split; [lia|reflexivity].
    + split; [intros [_ H]; discriminate|].
      intros [_ H]. inversion H as [Hx']. apply Hx in Hx'. discriminate.
Qed.

Lemma run_init_ok (t : exec_type) : args_ok (init t).
Proof. repeat split. Qed.

(** C6 (what the code does).  After the lines typed, the shell not
    having exited, the log holds the entries of the most recent 50 of
    them, oldest first, and never more than 50: the text of the line,
    copied into a block of as many bytes as the text has characters, and
    the string literal of one space for an empty line.  Three faults
    come with it.  The copy of a line, with its terminating NUL, is one
    byte longer than its block: it is written past the block whenever
    the allocator has not provided a spare byte.  The entry of an empty
    line, once 50 more lines have been read, is dropped with the string
    literal handed to [free].  And [history], after it has printed the
    log, on which that line itself is by then the newest entry, so that
    of 50 lines typed before it the first is gone, reads the [next]
    field of the newest entry, which was never set.  As long as no line
    starts with [history], every copy fits its block and no empty line
    is dropped, there is no fault. *)
Theorem history_bounded_fifo (env : os) (t : exec_type)
    (texts : list string) (st : shell) :
  Forall typed texts ->
  run env (map (fun s => Some (ln s)) texts) (init t) = Next st ->
  (head st = last_n 50 (map entry_of texts) /\
   numHistory st = Z.of_nat (List.length (head st)) /\
   List.length (head st) <= 50) /\
  (forall s, In s texts -> s <> EmptyString ->
     fits env (String.length s) s = false ->
     In (Heap_overflow (String.length s) (String.length s + 1)) (faults st)) /\
  (forall k, k + 50 < List.length texts ->
     nth_error texts k = Some EmptyString ->
     In Free_literal (faults st)) /\
  ((forall s, In s texts -> first_token s <> Some "history") ->
   (forall s, In s texts -> entry_fits env (entry_of s) = true) ->
   (forall k, k + 50 < List.length texts ->
      nth_error texts k <> Some EmptyString) ->
   faults st = []) /\
  (let s' := final (iteration env (Some (ln "history")) st) in
   exists tail,
     trace s' =
       (trace st ++
        Write (fd1 st) prompt
          :: printed (fd1 st)
               (last_n 50 (map cmd (map entry_of texts) ++ ["history"]))
          ++ tail)%list /\
     (tail = [] \/ tail = [Error]) /\
     In Unset_next (faults s')).
Proof.
  intros Ht Hrun.
  destruct (run_typed env texts (init t) st Ht (run_init_ok t)
              (init_hist_ok t) Hrun) as (Ha & Hh & Hd & _).
  cbn [head init app] in Hd.
  split; [|split; [|split; [|split]]].
  - split; [exact Hd|]. destruct Hh as [Hn Hl]. unfold hist in Hn, Hl.
    rewrite length_map in Hn, Hl. auto.
  - intros s Hin Hne Hfit.
    destruct (in_split s texts Hin) as (a & b & ->).
    rewrite map_app in Hrun. cbn [map] in Hrun.
    apply Forall_app in Ht as [Hta Htb].
    apply Forall_cons_iff in Htb as [Hs Htb'].
    destruct (run_app_next _ _ _ _ _ Hrun) as (st1 & H1 & H2).
    destruct (run_cons_next _ _ _ _ _ H2) as (st2 & H3 & H4).
    destruct (run_typed env a (init t) st1 Hta (run_init_ok t)
                (init_hist_ok t) H1) as (Aa & Ah & _).
    destruct (iteration_typed env s st1 Hs Aa Ah)
      as (Ka & Kh & _ & fs & Kf & _).
    rewrite H3 in Ka, Kh, Kf. cbn [final] in Ka, Kh, Kf.
    destruct (run_typed env b st2 st Htb' Ka Kh H4) as (_ & _ & _ & gs & Jf).
    rewrite Jf, Kf, !in_app_iff. left. right. left. left.
    unfold entry_of. apply String.eqb_neq in Hne. rewrite Hne.
    unfold copy_faults, store_faults. cbn [cmd cmd_store]. rewrite Hfit.
    now left.
  - intros k Hk Hnth.
    assert (texts = (firstn (k + 50) texts ++ skipn (k + 50) texts)%list)
      as Hsplit by (symmetry; apply firstn_skipn).
    set (a := firstn (k + 50) texts) in *.
    assert (List.length a = k + 50) as La
      by (unfold a; rewrite length_firstn; lia).
    destruct (skipn (k + 50) texts) as [|s b] eqn:Eb.
    { apply (f_equal (@List.length string)) in Eb.
      rewrite length_skipn in Eb. simpl in Eb. lia. }
    assert (nth_error a (List.length a - 50) = Some EmptyString) as Hna.
    { replace (List.length a - 50) with k by lia. unfold a.
      rewrite nth_error_firstn.
      replace (k <? k + 50)%nat with true
        by (symmetry; apply Nat.ltb_lt; lia).
      exact Hnth. }
    rewrite Hsplit in Hrun, Ht. rewrite map_app in Hrun. cbn [map] in Hrun.
    apply Forall_app in Ht as [Hta Htb].
    apply Forall_cons_iff in Htb as [Hs Htb'].
    destruct (run_app_next _ _ _ _ _ Hrun) as (st1 & H1 & H2).
    destruct (run_cons_next _ _ _ _ _ H2) as (st2 & H3 & H4).
    destruct (run_typed env a (init t) st1 Hta (run_init_ok t)
                (init_hist_ok t) H1) as (Aa & Ah & Ad & _).
    cbn [head init app] in Ad.
    assert (evicts_literal st1 = true) as Hev.
    { apply (evicts_literal_typed st1 a Ah Ad). split; [lia|exact Hna]. }
    destruct (iteration_typed env s st1 Hs Aa Ah)
      as (Ka & Kh & _ & fs & Kf & _).
    rewrite H3 in Ka, Kh, Kf. cbn [final] in Ka, Kh, Kf.
    destruct (run_typed env b st2 st Htb' Ka Kh H4) as (_ & _ & _ & gs & Jf).
    rewrite Jf, Kf, Hev, !in_app_iff. left. right. left. right. now left.
  - clear Ha Hh Hd. revert st Hrun.
    induction texts as [|s a IH] using rev_ind; intros st Hrun H1 H2 H3.
    { cbn in Hrun. inversion Hrun; subst. reflexivity. }
    apply Forall_app in Ht as [Hta Hts].
    apply Forall_cons_iff in Hts as [Hs _].
    rewrite map_app in Hrun. cbn [map] in Hrun.
    destruct (run_app_next _ _ _ _ _ Hrun) as (st1 & R1 & R2).
    destruct (run_cons_next _ _ _ _ _ R2) as (st2 & R3 & R4).
    cbn in R4. inversion R4; subst st2.
    assert (faults st1 = []) as F1.
    { apply (IH Hta st1 R1).
      - intros x Hx. apply H1, in_or_app. now left.
      - intros x Hx. apply H2, in_or_app. now left.
      - intros k Hk. rewrite <- (nth_error_app1 a [s]) by lia.
        apply H3. rewrite length_app. simpl. lia. }
    destruct (run_typed env a (init t) st1 Hta (run_init_ok t)
                (init_hist_ok t) R1) as (Aa & Ah & Ad & _).
    cbn [head init app] in Ad.
    destruct (iteration_typed env s st1 Hs Aa Ah)
      as (_ & _ & _ & fs & Kf & Knil).
    rewrite R3 in Kf. cbn [final] in Kf.
    rewrite Kf, F1, Knil by (apply H1, in_or_app; right; now left).
    rewrite copy_faults_fits by (apply H2, in_or_app; right; now left).
    destruct (evicts_literal st1) eqn:Hev; [|reflexivity].
    apply (evicts_literal_typed st1 a Ah Ad) in Hev as [Hlen Hnth].
    exfalso. apply (H3 (List.length a - 50)).
    + rewrite length_app. simpl. lia.
    + rewrite nth_error_app1 by lia. exact Hnth.
  - cbv zeta. unfold iteration.
    replace (strip_line (ln "history")) with "history" by reflexivity.
    set (st1 := record_history env (ln "history") (write_stdout prompt st)).
    destruct (record_history_fields env (ln "history") st)
      as (T1 & F1 & _ & _ & _ & _ & A1).
    fold st1 in T1, F1, A1.
    assert (List.length (args st1) = 6) as L1
      by (rewrite A1; exact (proj1 Ha)).
    rewrite (execute_history env st1 L1), print_entries_eq.
    assert (hist_ok (write_stdout prompt st)) as Hh' by exact Hh.
    destruct (record_history_ok env (ln "history") (write_stdout prompt st)
                Hh') as [_ Hd1].
    pose proof (record_history_nonempty env (ln "history")
                  (write_stdout prompt st) Hh') as Hne.
    fold st1 in Hd1, Hne.
    match goal with
    | |- context [restore_stdout env ?q] =>
        destruct (restore_stdout_trace env q) as (tail & Hr & Htail);
        destruct (restore_stdout_memory env q) as [_ Hm];
        exists tail
    end.
    cbn [final]. rewrite Hr, Hm.
    cbn [trace fd1 head faults add_faults set_faults set_trace set_args
         set_saved].
    split; [|split; [exact Htail|]].
    + rewrite T1, F1, Hd1. cbn [head write_stdout emit set_trace].
      rewrite Hd, last_n_last_n_app, map_last_n, map_app.
      rewrite <- !app_assoc. reflexivity.
    + apply in_or_app. right. destruct (head st1); [congruence|now left].
Qed.

Lemma history_bounded_fifo_witness :
  let texts := ["ls"; EmptyString; "cd /"] in
  let st := final (run (friendly []) (map (fun s => Some (ln s)) texts)
                     (init ExecL)) in
  head st = [{| cmd := "ls"; cmd_store := Malloc 2 |};
             {| cmd := " "; cmd_store := Literal |};
             {| cmd := "cd /"; cmd_store := Malloc 4 |}] /\
  faults st = [].
Proof.
  intros texts st.
  assert (Forall typed texts) as Ht
    by (repeat constructor; discriminate).
  assert (run (friendly []) (map (fun s => Some (ln s)) texts) (init ExecL)
          = Next st) as Hrun by (vm_compute; reflexivity).
  destruct (history_bounded_fifo (friendly []) ExecL texts st Ht Hrun)
    as ((Hd & _) & _ & _ & Hs & _).
  split; [exact Hd|]. apply Hs.
  - intros s [<-|[<-|[<-|[]]]]; discriminate.
  - intros s [<-|[<-|[<-|[]]]]; reflexivity.
  - intros k Hk. simpl in Hk. lia.
Defined.

(** Sixty lines, numbered from 0: the log holds lines 10 to 59. *)
Example history_sixty_lines :
  hist (final (run (friendly [])
                 (map (fun n => Some (ln (decimal n))) (seq 0 60))
                 (init ExecV)))
  = map decimal (seq 10 50).
Proof. vm_compute. reflexivity. Qed.

(** Fifty lines, numbered from 0, then [history]: line 0 is not printed,
    and the loop that prints ends by reading the [next] field of the
    newest entry. *)
Example history_after_fifty_lines :
  let st := final (run (friendly [])
                     (map (fun n => Some (ln (decimal n))) (seq 0 50)
                        ++ [Some (ln "history")])
                     (init ExecV)) in
  skipn 101 (trace st)
  = printed Terminal (map decimal (seq 1 49) ++ ["history"])%list /\
  faults st = [Unset_next].
Proof. vm_compute. split; reflexivity. Qed.

(** ** Lines with a redirection *)

(** What [open_redirect] does with the file name [f] it finds: the file is
    opened, then swapped in; the error is reported when either fails, and
    what standard output referred to has been saved by then if the file
    opened. *)
Lemma open_redirect_effect (env : os) (st : shell) (f r : string) :
  strtok whiteSpace (saved st) = (Some f, r) ->
  let s := open_redirect env st in
  fd1 s = (if can_open env f && dup2_ok env (File f) then File f
           else fd1 st) /\
  redirect s = (if can_open env f && dup2_ok env (File f) then true
                else redirect st) /\
  temp_fd s = (if can_open env f then Some (fd1 st) else temp_fd st) /\
  trace s = (trace st ++
             if can_open env f
             then Open f :: if dup2_ok env (File f) then [] else [Error]
             else [Error])%list /\
  saved s = r /\ args s = args st.
Proof.
  intros E. unfold open_redirect. rewrite E.
  destruct (can_open env f); [destruct (dup2_ok env (File f))|];
    cbn; rewrite <- ?app_assoc; repeat split.
Qed.

(** Tokens without [>], then [>] and a file name: the tokens go to the
    slots of [args] up to the fourth, the slots after them are [NULL],
    the line is used up, and the file has been dealt with as
    [open_redirect] does. *)
Lemma parse_from_redirect (env : os) (pre : list string) (f : string)
    (n i : nat) (line : string) (st : shell) :
  0 < i ->
  strtok_all whiteSpace (cursor i line st) = (pre ++ [">"; f])%list ->
  ~ In ">" pre ->
  List.length pre < n ->
  List.length (args st) = 6 ->
  let s := parse_from env n i line st in
  (fd1 s = (if can_open env f && dup2_ok env (File f) then File f
            else fd1 st) /\
   redirect s = (if can_open env f && dup2_ok env (File f) then true
                 else redirect st) /\
   temp_fd s = (if can_open env f then Some (fd1 st) else temp_fd st) /\
   trace s = (trace st ++
              if can_open env f
              then Open f :: if dup2_ok env (File f) then [] else [Error]
              else [Error])%list) /\
  strtok_all whiteSpace (saved s) = [] /\
  (forall j, i <= j -> j < 4 -> j < i + n ->
             arg j s = nth_error pre (j - i)).
Proof.
  intros Hi Htok Hno Hlen Hl.
  revert n i st Hi Htok Hlen Hl.
  induction pre as [|t pre IH]; intros n i st Hi Htok Hlen Hl;
    (destruct n as [|n]; [simpl in Hlen; lia|]).
  - cbn [app] in Htok.
    destruct (strtok_all_cons_inv _ _ _ _ Htok) as (r & E & Htok1).
    destruct (strtok_all_cons_inv _ _ _ _ Htok1) as (r' & E' & Htok2).
    rewrite (parse_from_marker env n i line st r E).
    destruct (open_redirect_effect env (set_saved r st) f r' E')
      as (O1 & O2 & O3 & O4 & O5 & O6).
    cbn [fd1 redirect temp_fd trace args set_saved] in O1, O2, O3, O4, O6.
    destruct (i <? MAX_ARGS)%nat eqn:Ei.
    + set (o := set_arg i None (open_redirect env (set_saved r st))).
      assert (strtok_all whiteSpace (cursor (S i) line o) = []) as Hc.
      { unfold cursor, o. cbn [Nat.eqb saved set_arg set_args].
        now rewrite O5. }
      assert (~ In ">" (firstn n (strtok_all whiteSpace
                                    (cursor (S i) line o)))) as Hq
        by (rewrite Hc; now destruct n).
      destruct (parse_from_plain env n (S i) line o Hq ltac:(lia))
        as (Q1 & Q2 & Q3 & Q5).
      destruct (parse_from_plain_fds env n (S i) line o Hq ltac:(lia))
        as (Q4 & _).
      assert (List.length (args o) = 6) as Lo.
      { unfold o, set_arg. cbn [args set_args].
        now rewrite upd_length, O6. }
      cbv zeta. rewrite Q1, Q2, Q3, Q4, Q5, Hc. unfold o.
      cbn [fd1 redirect temp_fd trace set_arg set_args].
      split; [auto|]. split; [now rewrite skipn_nil|].
      intros j Hj1 Hj2 Hj3.
      replace (nth_error [] (j - i)) with (@None string)
        by (now destruct (j - i)).
      destruct (Nat.eq_dec j i) as [->|Hne].
      * rewrite parse_from_arg_before by lia.
        unfold arg, set_arg. cbn [args set_args].
        apply nth_upd_same. rewrite O6. lia.
      * fold o.
        rewrite (parse_from_plain_args env n (S i) j line o Hq) by lia.
        rewrite Hc. now destruct (j - S i).
    + cbv zeta. split; [auto|]. split.
      * now rewrite O5.
      * intros j Hj1 Hj2 _. apply Nat.ltb_ge in Ei. unfold MAX_ARGS in Ei.
        lia.
  - cbn [app] in Htok.
    destruct (strtok_all_cons_inv _ _ _ _ Htok) as (r & E & Htok1).
    assert (t <> ">") as Hne by (intros ->; apply Hno; now left).
    assert (~ In ">" pre) as Hno' by (intros Hin; apply Hno; now right).
    rewrite (parse_from_token env n i line st t r E Hne).
    destruct (i <? MAX_ARGS)%nat eqn:Ei.
    + set (o := set_arg i (Some t) (set_saved r st)).
      destruct (IH Hno' n (S i) o) as (I1 & I2 & I3);
        [lia|unfold cursor; simpl; exact Htok1|simpl in Hlen; lia
        |unfold o, set_arg; cbn [args set_args set_saved];
         now rewrite upd_length|].
      cbv zeta. split; [exact I1|]. split; [exact I2|].
      intros j Hj1 Hj2 Hj3.
      destruct (Nat.eq_dec j i) as [->|Hji].
      * rewrite parse_from_arg_before by lia.
        rewrite Nat.sub_diag. unfold o, arg, set_arg.
        cbn [args set_args set_saved nth_error].
        apply nth_upd_same. lia.
      * rewrite I3 by lia.
        replace (j - i) with (S (j - S i)) by lia. reflexivity.
    + destruct (IH Hno' n (S i) (set_saved r st)) as (I1 & I2 & I3);
        [lia|unfold cursor; simpl; exact Htok1|simpl in Hlen; lia
        |exact Hl|].
      cbv zeta. split; [exact I1|]. split; [exact I2|].
      intros j Hj1 Hj2 _. apply Nat.ltb_ge in Ei. unfold MAX_ARGS in Ei.
      lia.
Qed.

(** The state in which the command of a line with a redirection runs. *)
Lemma redirect_line (env : os) (raw : string) (st : shell) (name : string)
    (pre : list string) (f : string) :
  args_ok st ->
  strtok_all whiteSpace (strip_line raw) = (name :: pre ++ [">"; f])%list ->
  ~ In ">" (name :: pre) ->
  List.length pre <= 4 ->
  let p := parsed env raw st in
  (arg 0 p = Some name /\ arg 1 p = nth_error pre 0 /\
   arg 2 p = nth_error pre 1 /\ arg 3 p = nth_error pre 2 /\ args_ok p) /\
  (fd1 p = (if can_open env f && dup2_ok env (File f) then File f
            else fd1 st) /\
   redirect p = (if can_open env f && dup2_ok env (File f) then true
                 else redirect st) /\
   temp_fd p = (if can_open env f then Some (fd1 st) else temp_fd st) /\
   trace p = (trace st ++
              Write (fd1 st) prompt
                :: if can_open env f
                   then Open f :: if dup2_ok env (File f) then [] else [Error]
                   else [Error])%list) /\
  (path p = path st /\ execType p = execType st) /\
  strtok_all whiteSpace (saved p) = [].
Proof.
  intros Hok Htok Hno Hlen.
  pose proof (parsed_ok env raw st Hok) as Hokp.
  cbv zeta. unfold parsed in *.
  set (st1 := record_history env raw (write_stdout prompt st)) in *.
  destruct (record_history_fields env raw st)
    as (T1 & F1 & R1 & M1 & P1 & X1 & A1).
  fold st1 in T1, F1, R1, M1, P1, X1, A1.
  assert (List.length (args st1) = 6) as L1
    by (rewrite A1; exact (proj1 Hok)).
  destruct (parse_from_frame env (MAX_ARGS + 2) 0 (strip_line raw) st1)
    as (Fx & _ & _ & Fp & _).
  fold (parse_args env (strip_line raw) st1) in Fx, Fp.
  destruct (strtok_all_cons_inv _ _ _ _ Htok) as (r0 & E0 & Htok0).
  assert (name <> ">") as N0 by (intros ->; apply Hno; now left).
  unfold parse_args in *. cbn [MAX_ARGS Nat.add] in *.
  rewrite (parse_from_token env 5 0 (strip_line raw) st1 name r0 E0 N0) in *.
  cbn [Nat.ltb Nat.leb MAX_ARGS] in *.
  set (s0 := set_arg 0 (Some name) (set_saved r0 st1)) in *.
  destruct (parse_from_redirect env pre f 5 1 (strip_line raw) s0)
    as ((Q1 & Q2 & Q3 & Q4) & Q5 & Q6); try assumption; try lia.
  { intros Hin. apply Hno. now right. }
  { unfold s0, set_arg. cbn [args set_args set_saved].
    now rewrite upd_length. }
  set (p := parse_from env 5 1 (strip_line raw) s0) in *.
  split; [|split; [|split]].
  - split.
    { unfold p. rewrite parse_from_arg_before by lia.
      unfold s0, arg, set_arg. cbn [args set_args set_saved].
      apply nth_upd_same. lia. }
    rewrite (Q6 1), (Q6 2), (Q6 3) by lia. cbn [Nat.sub]. auto.
  - rewrite Q1, Q2, Q3, Q4. unfold s0.
    cbn [fd1 redirect temp_fd trace set_arg set_args set_saved].
    rewrite F1, R1, M1, T1, <- app_assoc. auto.
  - rewrite Fp, Fx, P1, X1. auto.
  - exact Q5.
Qed.

(** Parsing a line that was recorded without harm to the memory. *)
Lemma parsed_sound (env : os) (raw : string) (st : shell) :
  hist_ok st -> evicts_literal st = false ->
  entry_fits env (new_entry raw) = true ->
  faults (parsed env raw st) = faults st.
Proof.
  intros Hok He Hf. unfold parsed, parse_args.
  destruct (parse_from_memory env (MAX_ARGS + 2) 0 (strip_line raw)
              (record_history env raw (write_stdout prompt st))) as [_ ->].
  now apply (record_history_sound env raw (write_stdout prompt st)).
Qed.

(** [cd], from the words typed after it. *)
Lemma dispatch_cd_tokens (env : os) (st : shell) (pre : list string) :
  arg 1 st = nth_error pre 0 -> arg 2 st = nth_error pre 1 ->
  dispatch env "cd" st =
  Through (set_trace
             (trace st ++
              match pre with
              | [dir] => if chdir_ok env dir then [Chdir dir] else [Error]
              | _ => [Error]
              end) st).
Proof.
  intros A1 A2. rewrite dispatch_cd, A1, A2.
  destruct pre as [|dir [|b more]]; cbn [nth_error]; try reflexivity.
  now destruct (chdir_ok env dir).
Qed.

(** [path], from the words typed after it. *)
Lemma dispatch_path_tokens (env : os) (st : shell) (pre : list string) :
  arg 1 st = nth_error pre 0 ->
  dispatch env "path" st =
  Through (set_path match pre with a :: _ => Some a | [] => path st end
             (set_trace
                (trace st ++
                 match pre with
                 | [] => match path st with
                         | Some q => [Write (fd1 st) q]
                         | None => []
                         end ++ [Write (fd1 st) newline]
                 | _ :: _ => []
                 end) st)).
Proof.
  intros A1. rewrite dispatch_path, A1.
  destruct pre as [|a more]; cbn [nth_error].
  - destruct (path st) as [q|] eqn:Eq; unfold write_stdout, emit;
      cbn [trace fd1 set_trace]; rewrite <- ?app_assoc;
      destruct st; cbn in *; now rewrite Eq.
  - rewrite app_nil_r. now destruct st.
Qed.

(** The arguments handed to [exec], from the words typed. *)
Lemma exec_argv_tokens (st : shell) (name : string) (pre : list string) :
  args_ok st -> arg 0 st = Some name ->
  arg 1 st = nth_error pre 0 -> arg 2 st = nth_error pre 1 ->
  arg 3 st = nth_error pre 2 ->
  exec_argv st name =
  match execType st with
  | ExecL => getCommandFromPath name
  | ExecV => name
  end :: firstn 3 pre.
Proof.
  intros (Hl & H4 & H5) A0 A1 A2 A3.
  assert (until_null [arg 1 st; arg 2 st; arg 3 st] = firstn 3 pre) as Hu
    by (rewrite A1, A2, A3; apply until_null_first_three).
  unfold exec_argv, arg in *.
  rewrite (six_slots (args st) None Hl) in *. cbn [nth] in *.
  rewrite A0, H4, H5.
  destruct (execType st); rewrite <- Hu; cbn [until_null];
    repeat match goal with
           | |- context [match ?x with Some _ => _ | None => _ end] =>
               destruct x
           end; reflexivity.
Qed.



(** The swap of standard output fails after the file has been opened:
    the file is created, the error is reported, and [cd] runs. *)
Example failed_swap_then_cd :
  let env := {| can_open := fun _ => true;
                dup2_ok := fun t => match t with
                                    | File _ => false
                                    | Terminal => true
                                    end;
                access_x := fun _ => false;
                chdir_ok := fun _ => true; fork_ok := true;
                exec_ok := fun _ => false;
                malloc_usable_size := glibc_usable_size |} in
  trace (final (run env [Some (ln "cd /tmp > out")] (init ExecL)))
  = [Write Terminal prompt; Open "out"; Error; Chdir "/tmp"].
Proof. vm_compute; reflexivity. Qed.

(** [history] on a line whose redirection fails: the log goes to the
    terminal, and the loop that prints it ends by reading the [next]
    field of the newest entry. *)
Example failed_redirection_history :
  let env := {| can_open := fun _ => false; dup2_ok := fun _ => true;
                access_x := fun _ => false;
                chdir_ok := fun _ => true; fork_ok := true;
                exec_ok := fun _ => false;
                malloc_usable_size := glibc_usable_size |} in
  let s' := final (run env [Some (ln "cd /tmp"); Some (ln "history > out")]
                     (init ExecL)) in
  trace s'
  = [Write Terminal prompt; Chdir "/tmp"; Write Terminal prompt; Error;
     Write Terminal "cd /tmp"; Write Terminal newline;
     Write Terminal "history > out"; Write Terminal newline] /\
  faults s' = [Unset_next].
Proof. vm_compute. split; reflexivity. Qed.

(** X14.  A command followed by [>] and a file: on a line made of a
    command, at most four more words, [>] and a file name that opens and
    swaps in, the file is opened before the command runs, and the command
    runs on the words typed with standard output referring to the file:
    what [path] and [history] print goes to the file, and so does the
    standard output of the program a child process launches, which is
    what [checkPath] returns, with the name and the first three
    arguments typed.  Standard output then refers again to what it
    referred to before the line, except after [exit], which ends the
    shell with status 0.  The line is taken to be recorded without harm
    to the memory; [history] ends by reading a field that was never
    set. *)
Theorem redirected_output_goes_to_file (env : os) (raw : string)
    (st : shell) (name : string) (pre : list string) (f : string) :
  args_ok st -> hist_ok st ->
  evicts_literal st = false -> entry_fits env (new_entry raw) = true ->
  strtok_all whiteSpace (strip_line raw) = (name :: pre ++ [">"; f])%list ->
  ~ In ">" (name :: pre) ->
  List.length pre <= 4 ->
  can_open env f = true -> dup2_ok env (File f) = true ->
  dup2_ok env (fd1 st) = true ->
  let p := parsed env raw st in
  (trace p = (trace st ++ [Write (fd1 st) prompt; Open f])%list /\
   fd1 p = File f /\ redirect p = true /\ temp_fd p = Some (fd1 st) /\
   faults p = faults st) /\
  (name = "exit" ->
   exists s',
     iteration env (Some raw) st = Exited 0 s' /\ trace s' = trace p /\
     fd1 s' = File f) /\
  (name = "cd" ->
   exists s',
     iteration env (Some raw) st = Next s' /\
     trace s' =
       (trace p ++
        match pre with
        | [dir] => if chdir_ok env dir then [Chdir dir] else [Error]
        | _ => [Error]
        end)%list /\
     fd1 s' = fd1 st /\ faults s' = faults st) /\
  (name = "path" ->
   exists s',
     iteration env (Some raw) st = Next s' /\
     trace s' =
       (trace p ++
        match pre with
        | [] => match path st with
                | Some q => [Write (File f) q]
                | None => []
                end ++ [Write (File f) newline]
        | _ :: _ => []
        end)%list /\
     path s' = match pre with a :: _ => Some a | [] => path st end /\
     fd1 s' = fd1 st /\ faults s' = faults st) /\
  (name = "history" -> pre = [] ->
   let s' := final (iteration env (Some raw) st) in
   trace s' = (trace p ++ printed (File f) (hist p))%list /\
   hist p = last_n 50 (hist st ++ [strip_line raw])%list /\
   fd1 s' = fd1 st /\
   In Unset_next (faults s')) /\
  (builtin name = false -> fork_ok env = true ->
   exists s' sv,
     iteration env (Some raw) st = Next s' /\
     strtok_all whiteSpace sv = [] /\
     trace s' =
       (trace p ++
        [Fork {| c_cmdPath := checkPath env name (path st) sv;
                 c_path := option_map (buffer_after_strtok ":") (path st);
                 c_end :=
                   match checkPath env name (path st) sv with
                   | Returns c0 =>
                       if exec_ok env c0
                       then Runs c0
                              (match execType st with
                               | ExecL => getCommandFromPath name
                               | ExecV => name
                               end :: firstn 3 pre)
                              (File f)
                       else Fails
                   | Overflows _ _ => Undefined
                   end |}])%list /\
     fd1 s' = fd1 st /\ path s' = path st /\ faults s' = faults st).
Proof.
  intros Hok Hh He Hfit Htok Hno Hlen Ho Hs Hr.
  destruct (redirect_line env raw st name pre f Hok Htok Hno Hlen)
    as ((A0 & A1 & A2 & A3 & Hokp) & (F & R & M & T) & (P & X) & S).
  pose proof (parsed_sound env raw st Hh He Hfit) as Hfs.
  cbv zeta. rewrite iteration_parsed, A0.
  set (p := parsed env raw st) in *.
  rewrite Ho, Hs in *. cbn [andb] in F, R.
  assert (forall q, redirect q = true -> temp_fd q = Some (fd1 st) ->
            restore_stdout env q = set_fd1 (fd1 st) q) as Hend.
  { intros q Q1 Q2. unfold restore_stdout. now rewrite Q1, Q2, Hr. }
  split; [auto|]. split; [|split; [|split; [|split]]].
  - intros ->. unfold dispatch. cbn [String.eqb Ascii.eqb Bool.eqb].
    rewrite (strtok_all_nil_inv _ _ S).
    eexists. split; [reflexivity|]. split; [reflexivity|exact F].
  - intros ->. rewrite (dispatch_cd_tokens env p pre A1 A2).
    rewrite Hend by assumption.
    eexists. split; [reflexivity|]. cbn [trace fd1 faults set_fd1 set_trace].
    auto.
  - intros ->. rewrite (dispatch_path_tokens env p pre A1).
    rewrite Hend by assumption.
    eexists. split; [reflexivity|].
    cbn [trace path fd1 faults set_fd1 set_path set_trace].
    rewrite P, F. auto.
  - intros -> ->. rewrite dispatch_history, A1. cbn [nth_error].
    rewrite print_entries_eq.
    assert (head p <> []) as Hne.
    { unfold p, parsed, parse_args.
      destruct (parse_from_memory env (MAX_ARGS + 2) 0 (strip_line raw)
                  (record_history env raw (write_stdout prompt st)))
        as [-> _].
      now apply (record_history_nonempty env raw (write_stdout prompt st)). }
    rewrite Hend by assumption.
    cbn [final trace fd1 faults add_faults set_faults set_fd1 set_trace].
    rewrite F. split; [reflexivity|]. split; [|split; [reflexivity|]].
    + unfold p, parsed, parse_args.
      destruct (parse_from_frame env (MAX_ARGS + 2) 0 (strip_line raw)
                  (record_history env raw (write_stdout prompt st)))
        as (_ & -> & _).
      rewrite (record_history_hist env raw (write_stdout prompt st) Hh).
      assert (blank_input raw = false) as Hb.
      { unfold blank_input. cbv zeta.
        destruct (String.length raw =? 0)%nat eqn:E0.
        { apply Nat.eqb_eq in E0. destruct raw; [discriminate|discriminate]. }
        destruct (strip_line raw =? EmptyString) eqn:E1.
        { apply String.eqb_eq in E1. rewrite E1 in Htok. discriminate. }
        destruct (strip_line raw =? crlf) eqn:E2.
        { apply String.eqb_eq in E2. rewrite E2 in Htok. discriminate. }
        now rewrite andb_false_r. }
      unfold new_entry. now rewrite Hb.
    + apply in_or_app. right. destruct (head p); [congruence|now left].
  - intros Hb Hf. rewrite (dispatch_external env name p Hb), Hf.
    assert (run_child env p name =
            {| c_cmdPath := checkPath env name (path st) (saved p);
               c_path := option_map (buffer_after_strtok ":") (path st);
               c_end :=
                 match checkPath env name (path st) (saved p) with
                 | Returns c0 =>
                     if exec_ok env c0
                     then Runs c0
                            (match execType st with
                             | ExecL => getCommandFromPath name
                             | ExecV => name
                             end :: firstn 3 pre)
                            (File f)
                     else Fails
                 | Overflows _ _ => Undefined
                 end |}) as ->.
    { unfold run_child.
      rewrite (exec_argv_tokens p name pre Hokp A0 A1 A2 A3).
      now rewrite P, X, F. }
    rewrite Hend by assumption.
    exists (set_fd1 (fd1 st)
              (emit (Fork {| c_cmdPath := checkPath env name (path st) (saved p);
               c_path := option_map (buffer_after_strtok ":") (path st);
               c_end :=
                 match checkPath env name (path st) (saved p) with
                 | Returns c0 =>
                     if exec_ok env c0
                     then Runs c0
                            (match execType st with
                             | ExecL => getCommandFromPath name
                             | ExecV => name
                             end :: firstn 3 pre)
                            (File f)
                     else Fails
                 | Overflows _ _ => Undefined
                 end |}) p)), (saved p).
    split; [reflexivity|]. split; [exact S|].
    cbn [trace path fd1 faults set_fd1 emit set_trace]. auto.
Qed.

Lemma redirected_output_goes_to_file_witness :
  let env := friendly ["/bin/ls"] in
  let st := final (run env [Some (ln "path /bin")] (init ExecL)) in
  exists s',
    iteration env (Some (ln "ls -l > out.txt")) st = Next s' /\
    trace s' =
      (trace st ++
       [Write Terminal prompt; Open "out.txt";
        Fork {| c_cmdPath := "/bin/ls"; c_path := Some "/bin";
                c_end := Runs "/bin/ls" ["ls"; "-l"] (File "out.txt") |}])%list /\
    fd1 s' = Terminal /\ faults s' = [].
Proof.
  intros env st.
  assert (args_ok st) as Ha by (repeat split).
  assert (hist_ok st) as Hh
    by (vm_compute; split; [reflexivity|repeat constructor]).
  assert (strtok_all whiteSpace (strip_line (ln "ls -l > out.txt"))
          = ("ls" :: ["-l"] ++ [">"; "out.txt"])%list) as Htok
    by (vm_compute; reflexivity).
  assert (~ In ">" ["ls"; "-l"]) as Hno
    by (intros [H|[H|[]]]; discriminate).
  assert (List.length ["-l"] <= 4) as Hlen by (simpl; lia).
  destruct (redirected_output_goes_to_file env (ln "ls -l > out.txt") st
              "ls" ["-l"] "out.txt" Ha Hh eq_refl eq_refl Htok Hno Hlen
              eq_refl eq_refl eq_refl) as (_ & _ & _ & _ & _ & H).
  destruct (H eq_refl eq_refl) as (s' & sv & H1 & _ & H3 & H4 & _ & H6).
  exists s'. split; [exact H1|]. split; [|split; [exact H4|exact H6]].
  rewrite H3. vm_compute. reflexivity.
Defined.

(** The program of the witness above, with its output in the file. *)
Example redirected_ls_trace :
  let env := friendly ["/bin/ls"] in
  trace (final (run env [Some (ln "path /bin"); Some (ln "ls -l > out.txt");
                         Some (ln "path")] (init ExecL)))
  = [Write Terminal prompt; Write Terminal prompt; Open "out.txt";
     Fork {| c_cmdPath := "/bin/ls"; c_path := Some "/bin";
             c_end := Runs "/bin/ls" ["ls"; "-l"] (File "out.txt") |};
     Write Terminal prompt; Write Terminal "/bin"; Write Terminal newline].
Proof. vm_compute; reflexivity. Qed.

(** ** A fork that fails *)



(** ** The start of the shell *)

(** X16.  The option given at start-up: the shell uses [execvp] exactly
    when its first argument is [-execvp]; it reports the error exactly
    when a first argument is given that is neither [-execlp] nor
    [-execvp], and then starts all the same, in the [execlp] mode.
    Further arguments are ignored.  In every case one message is
    written, and the loop is entered with an empty history, no path,
    standard output on the terminal and the argument array empty. *)
Theorem startup_selects_the_mode (argv : list string) :
  let s := startup argv in
  (execType s = ExecV <->
   exists prog rest, argv = prog :: "-execvp" :: rest) /\
  (In Error (trace s) <->
   exists prog a rest,
     argv = prog :: a :: rest /\ a <> "-execlp" /\ a <> "-execvp") /\
  (exists msg,
     trace s = [Write Terminal msg] \/
     trace s = [Error; Write Terminal msg]) /\
  hist s = [] /\ path s = None /\ fd1 s = Terminal /\ redirect s = false /\
  args s = repeat None 6.
Proof.
  cbv zeta. unfold startup.
  destruct argv as [|prog [|a rest]];
    [| |destruct (a =? "-execlp") eqn:El;
        [|destruct (a =? "-execvp") eqn:Ev]];
    rewrite ?String.eqb_eq, ?String.eqb_neq in *;
    (split; [|split; [|split; [|repeat split]]]);
    try (eexists; solve [left; reflexivity|right; reflexivity]);
    split; intros H;
    try reflexivity;
    try discriminate H;
    try (destruct H as (? & ? & H); inversion H; subst; congruence);
    try (destruct H as (? & ? & ? & H & H1 & H2); inversion H; subst;
         congruence);
    try (simpl in H; destruct H as [H|[]]; discriminate H);
    try (exists prog, rest; subst; reflexivity);
    try (exists prog, a, rest; now repeat split);
    try (simpl; now left).
Qed.

(** ** No argument is left over from an earlier line *)

Lemma open_redirect_tokens (env : os) (st : shell) :
  strtok_all whiteSpace (saved (open_redirect env st))
  = tl (strtok_all whiteSpace (saved st)).
Proof.
  unfold open_redirect.
  destruct (strtok whiteSpace (saved st)) as [[f|] r] eqn:E.
  - rewrite (strtok_all_some _ _ _ _ E).
    destruct (can_open env f); [destruct (dup2_ok env (File f))|];
      reflexivity.
  - rewrite (strtok_all_none _ _ _ E), (strtok_none _ _ _ E). reflexivity.
Qed.

Lemma in_tl {A : Type} (x : A) (l : list A) : In x (tl l) -> In x l.
Proof. destruct l; simpl; auto. Qed.

(** A slot below the fifth that the loop still has to go through ends as
    [NULL] or as a token of what is left of the line. *)
Lemma parse_from_slot_token (env : os) (n i j : nat) (line : string)
    (st : shell) (a : string) :
  0 < i -> i <= j -> j < 4 -> j < i + n ->
  List.length (args st) = 6 ->
  arg j (parse_from env n i line st) = Some a ->
  In a (strtok_all whiteSpace (cursor i line st)).
Proof.
  revert i st; induction n as [|n IH]; intros i st Hi Hij Hj4 Hjn Hl;
    [lia|].
  assert ((i =? 0)%nat = false) as Hi0 by (apply Nat.eqb_neq; lia).
  assert ((i <? MAX_ARGS)%nat = true) as Hi4
    by (apply Nat.ltb_lt; unfold MAX_ARGS; lia).
  rewrite parse_from_S.
  destruct (strtok whiteSpace (cursor i line st)) as [[tok|] r] eqn:E;
    cbv zeta.
  - rewrite (strtok_all_some _ _ _ _ E), Hi4.
    destruct (tok =? ">") eqn:Et.
    + destruct (Nat.eq_dec j i) as [->|Hne].
      * rewrite parse_from_arg_before by lia.
        unfold arg, set_arg. cbn [args set_args].
        rewrite nth_upd_same
          by (rewrite open_redirect_args; cbn [args set_saved]; lia).
        discriminate.
      * intros H. apply IH in H; try lia.
        -- right. unfold cursor in H.
           cbn [Nat.eqb saved set_arg set_args] in H.
           rewrite open_redirect_tokens in H. apply in_tl in H. exact H.
        -- unfold set_arg. cbn [args set_args].
           rewrite upd_length, open_redirect_args. exact Hl.
    + destruct (Nat.eq_dec j i) as [->|Hne].
      * rewrite parse_from_arg_before by lia.
        unfold arg, set_arg. cbn [args set_args set_saved].
        rewrite nth_upd_same by lia. intros H; inversion H. now left.
      * intros H. apply IH in H; try lia.
        -- right. exact H.
        -- unfold set_arg. cbn [args set_args set_saved].
           now rewrite upd_length.
  - rewrite Hi0.
    destruct (Nat.eq_dec j i) as [->|Hne].
    + rewrite parse_from_arg_before by lia.
      unfold arg, set_arg. cbn [args set_args set_saved].
      rewrite nth_upd_same by lia. discriminate.
    + intros H. apply IH in H; try lia.
      * unfold cursor in H. cbn [Nat.eqb saved set_arg set_args set_saved] in H.
        rewrite (strtok_none _ _ _ E), strtok_all_empty in H. destruct H.
      * unfold set_arg. cbn [args set_args set_saved].
        now rewrite upd_length.
Qed.

(** X17.  A command never runs with an argument left over from an
    earlier line: in a state of the six slots, the last two [NULL],
    whenever parsing a line leaves a command name in the first slot,
    every slot that is not [NULL] holds a token of that line. *)
Theorem arguments_come_from_the_line (env : os) (raw : string) (st : shell)
    (name : string) (j : nat) (a : string) :
  args_ok st ->
  arg 0 (parsed env raw st) = Some name ->
  arg j (parsed env raw st) = Some a ->
  In a (strtok_all whiteSpace (strip_line raw)).
Proof.
  intros Hok H0 Hj.
  destruct (parsed_first_slot env raw st name (proj1 Hok) H0) as (rest & Htok).
  destruct (Nat.eq_dec j 0) as [->|Hj0].
  { rewrite H0 in Hj. inversion Hj; subst. rewrite Htok. now left. }
  destruct (Nat.lt_ge_cases j 4) as [Hj4|Hj4].
  - set (st1 := record_history env raw (write_stdout prompt st)).
    assert (List.length (args st1) = 6) as L1.
    { destruct (record_history_fields env raw st) as (_ & _ & _ & _ & _ & _ & A).
      fold st1 in A. rewrite A. apply Hok. }
    destruct (strtok_all_cons_inv _ _ _ _ Htok) as (r0 & E0 & Htok0).
    assert (parsed env raw st =
            if name =? ">"
            then parse_from env 5 1 (strip_line raw)
                   (set_arg 0 None (open_redirect env (set_saved r0 st1)))
            else parse_from env 5 1 (strip_line raw)
                   (set_arg 0 (Some name) (set_saved r0 st1))) as Hp.
    { unfold parsed, parse_args. fold st1. cbn [MAX_ARGS Nat.add].
      rewrite parse_from_S. unfold cursor. cbn [Nat.eqb]. rewrite E0.
      reflexivity. }
    rewrite Hp in H0, Hj. rewrite Htok.
    destruct (name =? ">") eqn:Et.
    + rewrite parse_from_arg_before in H0 by lia.
      unfold arg, set_arg in H0. cbn [args set_args] in H0.
      rewrite nth_upd_same in H0
        by (rewrite open_redirect_args; cbn [args set_saved]; lia).
      discriminate.
    + right. rewrite <- Htok0.
      apply (parse_from_slot_token env 5 1 j (strip_line raw) _ a) in Hj;
        try lia.
      * exact Hj.
      * unfold set_arg. cbn [args set_args set_saved].
        now rewrite upd_length.
  - exfalso. destruct (parsed_ok env raw st Hok) as (Hl & H4 & H5).
    unfold arg in *.
    destruct (Nat.eq_dec j 4) as [->|N4]; [congruence|].
    destruct (Nat.eq_dec j 5) as [->|N5]; [congruence|].
    rewrite nth_overflow in Hj by lia. discriminate.
Qed.

Lemma arguments_come_from_the_line_witness :
  let env := friendly ["/bin/ls"] in
  let st := final (run env [Some (ln "ls a b c")] (init ExecL)) in
  In "x" (strtok_all whiteSpace (strip_line (ln "ls > out x"))).
Proof.
  intros env st.
  refine (arguments_come_from_the_line env (ln "ls > out x") st "ls" 2 "x"
            _ _ _).
  - repeat split.
  - vm_compute; reflexivity.
  - vm_compute; reflexivity.
Defined.
